(** * Input tree manager of the TVB framework

    A shallow embedding of [tvb/core/adapters/input_tree.py]
    (class [InputTreeManager]) and the properties of its transforms:
    flattening, default injection, option materialisation, submission
    parsing and simulator sub-tree selection. *)

From Stdlib Require Import ZArith Lia Ascii String.
From stdpp Require Import base option list strings gmap pretty.

#[local] Set Warnings "-register-all".
Local Open Scope Z_scope.

(** ** Python strings *)

Module PyStr.

Fixpoint startswith (s p : string) : bool :=
  match p, s with
  | EmptyString, _ => true
  | String a p', String b s' => if Ascii.eqb a b then startswith s' p' else false
  | String _ _, EmptyString => false
  end.

(** [s.find(sub)] as a natural position, [None] for Python's [-1]. *)
Fixpoint find_nat (s sub : string) : option nat :=
  if startswith s sub then Some O
  else match s with
       | EmptyString => None
       | String _ s' => S <$> find_nat s' sub
       end.

Definition find (s sub : string) : Z :=
  match find_nat s sub with
  | Some n => Z.of_nat n
  | None => -1
  end.

(** [sub in s] *)
Definition contains (s sub : string) : bool := bool_decide (is_Some (find_nat s sub)).

Fixpoint drop (n : nat) (s : string) : string :=
  match n, s with
  | O, _ => s
  | S n', String _ s' => drop n' s'
  | S _, EmptyString => EmptyString
  end.

Fixpoint take (n : nat) (s : string) : string :=
  match n, s with
  | O, _ => EmptyString
  | S n', String a s' => String a (take n' s')
  | S _, EmptyString => EmptyString
  end.

(** A slice bound as Python resolves it: negative bounds count from
    the end, and the outcome is clipped to the string. *)
Definition bound (s : string) (i : Z) : nat :=
  if Z.ltb i 0 then Z.to_nat (Z.of_nat (String.length s) + i) else Z.to_nat i.

(** [s[i:]] and [s[:j]] *)
Definition slice_from (s : string) (i : Z) : string := drop (bound s i) s.
Definition slice_to (s : string) (j : Z) : string := take (bound s j) s.

(** [s.endswith(p)]: [p] is [s] itself or ends the tail of [s]. *)
Fixpoint endswith (s p : string) : bool :=
  if String.eqb s p then true
  else match s with
       | EmptyString => false
       | String _ s' => endswith s' p
       end.

(** [s.replace(c, '')] for a one-character [c] *)
Fixpoint remove_char (c : ascii) (s : string) : string :=
  match s with
  | EmptyString => EmptyString
  | String a s' => if Ascii.eqb a c then remove_char c s' else String a (remove_char c s')
  end.

(** [s.split(sep)] for a non-empty separator [sep]; the fuel is the
    length of [s], which bounds the number of pieces. *)
Fixpoint split_aux (fuel : nat) (sep cur s : string) : list string :=
  match fuel with
  | O => [cur +:+ s]
  | S fuel' =>
      match s with
      | EmptyString => [cur]
      | String a s' =>
          if startswith s sep
          then cur :: split_aux fuel' sep EmptyString (drop (String.length sep) s)
          else split_aux fuel' sep (cur +:+ String a EmptyString) s'
      end
  end.

Definition split (s sep : string) : list string :=
  split_aux (S (String.length s)) sep EmptyString s.

(** [sep.join(l)] *)
Fixpoint join (sep : string) (l : list string) : string :=
  match l with
  | [] => EmptyString
  | [x] => x
  | x :: l' => x +:+ sep +:+ join sep l'
  end.

End PyStr.

(** ** Constants of the module *)

Definition KEYWORD_PARAMS : string := "_parameters_".
Definition KEYWORD_SEPARATOR : string := "_".
Definition KEYWORD_OPTION : string := "option_".
Definition MAXIMUM_DATA_TYPES_DISPLAYED : nat := 50.
Definition WARNING_OVERFLOW : string :=
  "Too many entities in storage; some of them were not returned, to avoid overcrowding. "
  +:+ "Use filters, to make the list small enough to fit in here!".

(** ** Values and exceptions *)

(** The Python values that occur as defaults, option values and
    submitted data. *)
Inductive val : Type :=
  | VNone
  | VBool (b : bool)
  | VInt (z : Z)
  | VStr (s : string)
  | VList (l : list val).

Inductive exn : Type :=
  | KeyError (k : string)
  | TypeError
  | ValueError
  | IndexError
  | RuntimeError
  | AttributeError
  | InvalidParameterException (msg : string)
  | TVBException (msg : string)
  | OutOfModel (what : string).

Inductive res (A : Type) : Type :=
  | Ok (a : A)
  | Raise (e : exn).
Arguments Ok {A} a.
Arguments Raise {A} e.

Definition res_bind {A B} (m : res A) (f : A -> res B) : res B :=
  match m with
  | Ok a => f a
  | Raise e => Raise e
  end.

Notation "'let!' x ':=' m 'in' k" := (res_bind m (fun x => k))
  (at level 10, x name, m at level 100, k at level 200).

(** Python's [==] on these values: a [bool] is the integer 0 or 1. *)
Fixpoint val_norm (v : val) : val :=
  match v with
  | VBool b => VInt (Z.b2z b)
  | VList l => VList (map val_norm l)
  | _ => v
  end.

Fixpoint val_eqb (v w : val) {struct v} : bool :=
  match v, w with
  | VNone, VNone => true
  | VBool a, VBool b => Bool.eqb a b
  | VInt a, VInt b => Z.eqb a b
  | VStr a, VStr b => String.eqb a b
  | VList l, VList m =>
      (fix go (l m : list val) {struct l} : bool :=
         match l, m with
         | [], [] => true
         | x :: l', y :: m' => val_eqb x y && go l' m'
         | _, _ => false
         end) l m
  | _, _ => false
  end.

Definition py_eq (v w : val) : bool := val_eqb (val_norm v) (val_norm w).

(** ** The input tree *)

(** Modelled from the spec: the type names of the absent module
    [xml_reader] ("one of a closed set: SELECT, MULTIPLE_SELECT, STR,
    INT, FLOAT, BOOL, ARRAY, LIST, DICT, UPLOAD, DATATYPE-reference, or
    a free-form class-path string").  [STATIC_ACCEPTED_TYPES] is the
    closed set; [TYPE_CLASS] stands for a datatype reference. *)
Inductive ptype : Type :=
  | TYPE_SELECT | TYPE_MULTIPLE | TYPE_STR | TYPE_INT | TYPE_FLOAT | TYPE_BOOL
  | TYPE_ARRAY | TYPE_LIST | TYPE_DICT | TYPE_UPLOAD
  | TYPE_CLASS (path : string).

(** Modelled from the spec: the text of a type, as [str] gives it (the
    constants of [xml_reader] are texts; a datatype reference is its
    class path). *)
Definition type_name (t : ptype) : string :=
  match t with
  | TYPE_SELECT => "select"
  | TYPE_MULTIPLE => "selectMultiple"
  | TYPE_STR => "str"
  | TYPE_INT => "int"
  | TYPE_FLOAT => "float"
  | TYPE_BOOL => "bool"
  | TYPE_ARRAY => "array"
  | TYPE_LIST => "list"
  | TYPE_DICT => "dict"
  | TYPE_UPLOAD => "upload"
  | TYPE_CLASS path => path
  end.

Definition in_STATIC_ACCEPTED_TYPES (t : ptype) : bool :=
  match t with
  | TYPE_CLASS _ => false
  | _ => true
  end.

Definition ptype_eqb (a b : ptype) : bool :=
  match a, b with
  | TYPE_SELECT, TYPE_SELECT | TYPE_MULTIPLE, TYPE_MULTIPLE | TYPE_STR, TYPE_STR
  | TYPE_INT, TYPE_INT | TYPE_FLOAT, TYPE_FLOAT | TYPE_BOOL, TYPE_BOOL
  | TYPE_ARRAY, TYPE_ARRAY | TYPE_LIST, TYPE_LIST | TYPE_DICT, TYPE_DICT
  | TYPE_UPLOAD, TYPE_UPLOAD => true
  | TYPE_CLASS p, TYPE_CLASS q => String.eqb p q
  | _, _ => false
  end.

(** Modelled from the spec: a filter chain is built empty and grows by
    [add_condition(path, operator, value)]. *)
Definition filter : Type := list (string * string * val).

(** A dictionary entry that holds a list: the key can be missing, can
    be mapped to [None], or can be mapped to a list. *)
Inductive field (A : Type) : Type :=
  | Missing
  | Null
  | Given (a : A).
Arguments Missing {A}.
Arguments Null {A}.
Arguments Given {A} a.

(** [d.get(key) is not None] *)
Definition get_list {A} (f : field A) : option A :=
  match f with
  | Given a => Some a
  | _ => None
  end.

(** [key in d] *)
Definition has_key {A} (f : field A) : bool :=
  match f with
  | Missing => false
  | _ => true
  end.

(** One dictionary of the tree: a parameter node or an option.  [L] is
    what the entries ['options'] and ['attributes'] hold: the child
    list itself in the by-value trees, its address in the store model.
    An [option] field is [None] when the key is missing. *)
Record dict (L : Type) : Type := Dict {
  d_name : string;
  d_type : option ptype;
  d_label : option string;
  d_default : option val;
  d_required : option bool;
  d_value : option val;
  d_options : field L;
  d_attributes : field L;
  d_ui_hidden : option bool;
  d_conditions : option filter;
  d_dynamic : option val;
  d_warning : option string;
  d_filterable : option val;
  d_datatype : option string
}.
Arguments Dict {L}.
Arguments d_name {L}.
Arguments d_type {L}.
Arguments d_label {L}.
Arguments d_default {L}.
Arguments d_required {L}.
Arguments d_value {L}.
Arguments d_options {L}.
Arguments d_attributes {L}.
Arguments d_ui_hidden {L}.
Arguments d_conditions {L}.
Arguments d_dynamic {L}.
Arguments d_warning {L}.
Arguments d_filterable {L}.
Arguments d_datatype {L}.

(** [d[key] = v] on a copy: one function per key. *)
Definition set_name {L} (s : string) (d : dict L) : dict L :=
  Dict s (d_type d) (d_label d) (d_default d) (d_required d) (d_value d)
       (d_options d) (d_attributes d) (d_ui_hidden d) (d_conditions d)
       (d_dynamic d) (d_warning d) (d_filterable d) (d_datatype d).
Definition set_type {L} (t : ptype) (d : dict L) : dict L :=
  Dict (d_name d) (Some t) (d_label d) (d_default d) (d_required d) (d_value d)
       (d_options d) (d_attributes d) (d_ui_hidden d) (d_conditions d)
       (d_dynamic d) (d_warning d) (d_filterable d) (d_datatype d).
Definition set_label {L} (s : string) (d : dict L) : dict L :=
  Dict (d_name d) (d_type d) (Some s) (d_default d) (d_required d) (d_value d)
       (d_options d) (d_attributes d) (d_ui_hidden d) (d_conditions d)
       (d_dynamic d) (d_warning d) (d_filterable d) (d_datatype d).
Definition set_default {L} (v : val) (d : dict L) : dict L :=
  Dict (d_name d) (d_type d) (d_label d) (Some v) (d_required d) (d_value d)
       (d_options d) (d_attributes d) (d_ui_hidden d) (d_conditions d)
       (d_dynamic d) (d_warning d) (d_filterable d) (d_datatype d).
Definition set_options {L} (o : field L) (d : dict L) : dict L :=
  Dict (d_name d) (d_type d) (d_label d) (d_default d) (d_required d) (d_value d)
       o (d_attributes d) (d_ui_hidden d) (d_conditions d)
       (d_dynamic d) (d_warning d) (d_filterable d) (d_datatype d).
Definition set_attributes {L} (a : field L) (d : dict L) : dict L :=
  Dict (d_name d) (d_type d) (d_label d) (d_default d) (d_required d) (d_value d)
       (d_options d) a (d_ui_hidden d) (d_conditions d)
       (d_dynamic d) (d_warning d) (d_filterable d) (d_datatype d).
Definition set_warning {L} (w : string) (d : dict L) : dict L :=
  Dict (d_name d) (d_type d) (d_label d) (d_default d) (d_required d) (d_value d)
       (d_options d) (d_attributes d) (d_ui_hidden d) (d_conditions d)
       (d_dynamic d) (Some w) (d_filterable d) (d_datatype d).
Definition set_filterable {L} (v : val) (d : dict L) : dict L :=
  Dict (d_name d) (d_type d) (d_label d) (d_default d) (d_required d) (d_value d)
       (d_options d) (d_attributes d) (d_ui_hidden d) (d_conditions d)
       (d_dynamic d) (d_warning d) (Some v) (d_datatype d).
Definition set_datatype {L} (s : string) (d : dict L) : dict L :=
  Dict (d_name d) (d_type d) (d_label d) (d_default d) (d_required d) (d_value d)
       (d_options d) (d_attributes d) (d_ui_hidden d) (d_conditions d)
       (d_dynamic d) (d_warning d) (d_filterable d) (Some s).

(** A dictionary with the key ['name'] only. *)
Definition new_dict {L} (nm : string) : dict L :=
  Dict nm None None None None None Missing Missing None None None None None None.

(** The tree by value. *)
Inductive node : Type :=
  | Node (d : dict (list node)).

Definition entries (n : node) : dict (list node) :=
  match n with Node d => d end.

Definition name (n : node) : string := d_name (entries n).

(** ** Flattening *)

(** [form_prefix(input_param, prefix, option_prefix)].  The option
    value is concatenated to a string, so anything but a string (or
    [None], which leaves the option segment out) is a [TypeError]. *)
Definition form_prefix (input_param : string) (prefix : option string)
    (option_prefix : val) : res string :=
  let new_prefix :=
    match prefix with
    | Some p => if String.eqb p "" then "" else p
    | None => ""
    end in
  let new_prefix :=
    match prefix with
    | Some p =>
        if negb (String.eqb p "") && negb (PyStr.endswith new_prefix KEYWORD_SEPARATOR)
        then new_prefix +:+ KEYWORD_SEPARATOR else new_prefix
    | None => new_prefix
    end in
  let new_prefix := new_prefix +:+ input_param +:+ KEYWORD_PARAMS in
  match option_prefix with
  | VNone => Ok new_prefix
  | VStr o => Ok (new_prefix +:+ KEYWORD_OPTION +:+ o +:+ KEYWORD_SEPARATOR)
  | _ => Raise TypeError
  end.

(** [option[KEY_VALUE]] *)
Definition get_value {L} (d : dict L) : res val :=
  match d_value d with
  | Some v => Ok v
  | None => Raise (KeyError "value")
  end.

(** The entry that [flatten] appends for [param]. *)
Definition flat_entry (param : node) (prefix : option string) : node :=
  let new_param := set_options Null (set_attributes Null (entries param)) in
  match prefix, d_type (entries param) with
  | Some p, Some _ => Node (set_name (p +:+ name param) new_param)
  | _, _ => Node new_param
  end.

Fixpoint flatten_param (param : node) (prefix : option string) {struct param}
    : res (list node) :=
  let flatten_list :=
    fix flatten_list (l : list node) (pre : option string) : res (list node) :=
      match l with
      | [] => Ok []
      | p :: l' =>
          let! r := flatten_param p pre in
          let! rs := flatten_list l' pre in
          Ok (r ++ rs)
      end in
  let param_name := name param in
  let! from_options :=
    match d_options (entries param) with
    | Given options =>
        (fix each_option (os : list node) : res (list node) :=
           match os with
           | [] => Ok []
           | option :: os' =>
               let! extra_list :=
                 match d_attributes (entries option) with
                 | Given attrs =>
                     let! v := get_value (entries option) in
                     let! new_prefix := form_prefix param_name prefix v in
                     flatten_list attrs (Some new_prefix)
                 | _ => Ok []
                 end in
               let! rest := each_option os' in
               Ok (extra_list ++ rest)
           end) options
    | _ => Ok []
    end in
  let! from_attributes :=
    match d_attributes (entries param) with
    | Given attrs =>
        let! new_prefix := form_prefix param_name prefix VNone in
        flatten_list attrs (Some new_prefix)
    | _ => Ok []
    end in
  Ok (flat_entry param prefix :: from_options ++ from_attributes).

Fixpoint flatten (params_list : list node) (prefix : option string)
    : res (list node) :=
  match params_list with
  | [] => Ok []
  | p :: l' =>
      let! r := flatten_param p prefix in
      let! rs := flatten l' prefix in
      Ok (r ++ rs)
  end.

Definition names (l : list node) : list string := map name l.

(** The two inner loops of [flatten], read off [flatten_param]. *)
Definition flatten_option (param_name : string) (prefix : option string)
    (option : node) : res (list node) :=
  match d_attributes (entries option) with
  | Given attrs =>
      let! v := get_value (entries option) in
      let! new_prefix := form_prefix param_name prefix v in
      flatten attrs (Some new_prefix)
  | _ => Ok []
  end.

Fixpoint flatten_options (param_name : string) (prefix : option string)
    (os : list node) : res (list node) :=
  match os with
  | [] => Ok []
  | option :: os' =>
      let! extra_list := flatten_option param_name prefix option in
      let! rest := flatten_options param_name prefix os' in
      Ok (extra_list ++ rest)
  end.

Definition flatten_attributes (param : node) (prefix : option string)
    : res (list node) :=
  match d_attributes (entries param) with
  | Given attrs =>
      let! new_prefix := form_prefix (name param) prefix VNone in
      flatten attrs (Some new_prefix)
  | _ => Ok []
  end.

(** Names unique within every sibling scope. *)
Fixpoint sibling_unique_node (n : node) : bool :=
  let unique_list :=
    fix unique_list (l : list node) : bool :=
      match l with
      | [] => true
      | x :: l' => sibling_unique_node x && unique_list l'
      end in
  match d_options (entries n) with
  | Given os => bool_decide (NoDup (names os)) && unique_list os
  | _ => true
  end
  && match d_attributes (entries n) with
     | Given attrs => bool_decide (NoDup (names attrs)) && unique_list attrs
     | _ => true
     end.

Definition sibling_unique (l : list node) : bool :=
  bool_decide (NoDup (names l)) && forallb sibling_unique_node l.

(** A leaf parameter and a select parameter, for the examples. *)
Definition leaf (nm : string) (ty : ptype) : node :=
  Node (set_label nm (set_type ty (new_dict nm))).

Definition an_option (nm : string) (v : string) (attrs : list node) : node :=
  Node (Dict nm None None None None (Some (VStr v)) Missing (Given attrs)
             None None None None None None).

Definition a_select (nm : string) (os : list node) : node :=
  Node (set_options (Given os) (set_label nm (set_type TYPE_SELECT (new_dict nm)))).

Definition colliding_tree : list node :=
  [ a_select "P" [an_option "Opt" "O" [leaf "c" TYPE_INT]];
    leaf "P_parameters_option_O_c" TYPE_INT ].


(** *** Trees whose flat names cannot collide *)

(** The text holds no underscore. *)
Fixpoint underscore_free (s : string) : bool :=
  match s with
  | EmptyString => true
  | String a s' => negb (Ascii.eqb a "_") && underscore_free s'
  end.

(** A prefix to which [form_prefix] adds no separator: the empty one,
    or one that ends in the separator already ([flatten] only ever
    passes such prefixes down). *)
Definition good_prefix (p : string) : bool :=
  String.eqb p "" || PyStr.endswith p KEYWORD_SEPARATOR.

(** The prefix as [form_prefix] continues it: nothing for no prefix or
    an empty one, else the prefix, closed by a separator. *)
Definition with_separator (prefix : option string) : string :=
  match prefix with
  | None => ""
  | Some p =>
      if String.eqb p "" then ""
      else if PyStr.endswith p KEYWORD_SEPARATOR then p
      else p +:+ KEYWORD_SEPARATOR
  end.

(** A name that flattening cannot take for a part of a prefix: it
    does not hold [_parameters], and it is not [option] and does not
    start with [option_]. *)
Definition plain_name (s : string) : bool :=
  negb (PyStr.contains s "_parameters")
  && negb (PyStr.startswith (s +:+ KEYWORD_SEPARATOR) KEYWORD_OPTION).

(** What an option with attributes and a text for value adds to the
    prefix after [option_]: its value and a separator. *)
Definition option_segment (o : node) : option string :=
  match d_attributes (entries o), d_value (entries o) with
  | Given _, Some (VStr v) => Some (v +:+ KEYWORD_SEPARATOR)
  | _, _ => None
  end.

Fixpoint option_segments (os : list node) : list string :=
  match os with
  | [] => []
  | o :: os' =>
      match option_segment o with
      | Some seg => seg :: option_segments os'
      | None => option_segments os'
      end
  end.

(** No text of the list starts with another text of the list. *)
Fixpoint incomparable (l : list string) : bool :=
  match l with
  | [] => true
  | x :: l' =>
      forallb (λ y, negb (PyStr.startswith x y) && negb (PyStr.startswith y x)) l'
      && incomparable l'
  end.

(** The names of the parameters are plain; the parameters below the
    top level carry a type and have distinct names among siblings;
    an option with attributes has a text for value, and among the
    options of one parameter no value closed by a separator starts
    with another one. *)
Fixpoint plainly_named_node (n : node) : bool :=
  let nested :=
    fix nested (l : list node) : bool :=
      match l with
      | [] => true
      | x :: l' =>
          bool_decide (is_Some (d_type (entries x))) && plainly_named_node x
          && nested l'
      end in
  plain_name (name n)
  && match d_options (entries n) with
     | Given os =>
         incomparable (option_segments os)
         && (fix each_option (os : list node) : bool :=
               match os with
               | [] => true
               | o :: os' =>
                   match d_attributes (entries o) with
                   | Given attrs =>
                       match d_value (entries o) with
                       | Some (VStr _) => true
                       | _ => false
                       end
                       && (bool_decide (NoDup (names attrs)) && nested attrs)
                   | _ => true
                   end
                   && each_option os'
               end) os
     | _ => true
     end
  && match d_attributes (entries n) with
     | Given attrs => bool_decide (NoDup (names attrs)) && nested attrs
     | _ => true
     end.

(** A list of parameters below the top level. *)
Definition plainly_nested (l : list node) : bool :=
  bool_decide (NoDup (names l))
  && forallb (λ x, bool_decide (is_Some (d_type (entries x))) && plainly_named_node x) l.

Definition plainly_named_option (o : node) : bool :=
  match d_attributes (entries o) with
  | Given attrs =>
      match d_value (entries o) with
      | Some (VStr _) => true
      | _ => false
      end
      && plainly_nested attrs
  | _ => true
  end.

(** A tree: at the top level a parameter need not carry a type. *)
Definition plainly_named (l : list node) : bool :=
  bool_decide (NoDup (names l)) && forallb plainly_named_node l.

(** [x] is [p] followed by a text that satisfies [P]. *)
Definition below (p : string) (P : string → Prop) (x : string) : Prop :=
  ∃ s, x = p +:+ s ∧ P s.

(** The text is the name [nm], alone or followed by [_parameters_]
    and more. *)
Definition own (nm : string) (s : string) : Prop :=
  ∃ t, s = nm +:+ t ∧ (t = "" ∨ PyStr.startswith t KEYWORD_PARAMS = true).

(** What flattening under the prefix [p] gives: a list of pairwise
    distinct names, each of them [p] followed by a text that
    satisfies [P]. *)
Definition flat_below (p : string) (P : string → Prop) (m : res (list node)) : Prop :=
  ∃ r, m = Ok r ∧ NoDup (names r) ∧ ∀ x, x ∈ names r → below p P x.

(** What flattening one plainly named parameter under the prefix [p]
    gives, at the top level (no prefix) or below it (with a type). *)
Definition flat_plain (n : node) : Prop :=
  plainly_named_node n = true →
  ∀ p, good_prefix p = true → is_Some (d_type (entries n)) ∨ p = "" →
    flat_below p (own (name n)) (flatten_param n (Some p)).

(** A plainly named tree: names and option values with underscores,
    a group without type at the top level, and the name of a
    top-level parameter used again below the group. *)
Definition named_tree : list node :=
  [ a_select "simulation_model"
      [ an_option "Generic" "generic_2d"
          [leaf "conduction_speed" TYPE_FLOAT; leaf "tau" TYPE_FLOAT];
        an_option "Kuramoto" "kuramoto" [leaf "omega" TYPE_FLOAT] ];
    Node (set_attributes (Given [leaf "simulation_length" TYPE_FLOAT])
            (new_dict "integrator"));
    leaf "simulation_length" TYPE_FLOAT ].

(** Trees with names unique among siblings that miss one condition
    of [plainly_named] each: a parameter named [option_O_c] beside
    the option [O]; the option values [a] and [a_b]; a parameter
    without type below the top level. *)
Definition option_named_tree : list node :=
  [ Node (set_attributes (Given [leaf "option_O_c" TYPE_INT])
            (entries (a_select "P" [an_option "Opt" "O" [leaf "c" TYPE_INT]]))) ].

Definition comparable_options_tree : list node :=
  [ a_select "P" [ an_option "A" "a" [leaf "b_c" TYPE_INT];
                   an_option "AB" "a_b" [leaf "c" TYPE_INT] ] ].

Definition untyped_nested_tree : list node :=
  [ a_select "P" [an_option "Opt" "O" [Node (new_dict "Q")]];
    leaf "Q" TYPE_INT ].

(** ** Code that updates a state and can raise *)

(** A computation takes the state, and gives the state it leaves
    behind together with its result or the exception it raised: what
    was written before an exception stays written. *)
Definition st (S A : Type) : Type := S → S * res A.

Definition st_ret {S A} (a : A) : st S A := λ s, (s, Ok a).

Definition st_raise {S A} (e : exn) : st S A := λ s, (s, Raise e).

Definition st_bind {S A B} (m : st S A) (f : A → st S B) : st S B :=
  λ s, match m s with
       | (s', Ok a) => f a s'
       | (s', Raise e) => (s', Raise e)
       end.

Notation "'do!' x ':=' m 'in' k" := (st_bind m (fun x => k))
  (at level 10, x name, m at level 100, k at level 200).

Section ForEach.
Context {S A : Type} (f : A → st S unit).

(** [for x in l: f(x)] *)
Fixpoint for_each (l : list A) : st S unit :=
  match l with
  | [] => st_ret tt
  | x :: l' => do! _ := f x in for_each l'
  end.

End ForEach.

(** What a computation guarantees: the state it leaves is related by
    [R] to the one it found, and an exception it raises is in [E]. *)
Definition post {S A} (R : S → S → Prop) (E : exn → Prop) (m : st S A) : Prop :=
  ∀ s, R s (m s).1 ∧ match (m s).2 with Ok _ => True | Raise e => E e end.

(** ** Default injection *)

(** The first loop of [append_required_defaults], for one entry. *)
Definition add_default (entry : node) : st (gmap string val) unit :=
  λ kwargs,
    match kwargs !! name entry, d_required (entries entry), d_default (entries entry) with
    | None, Some true, Some default =>
        match d_type (entries entry) with
        | None => (kwargs, Raise (KeyError "type"))
        | Some t =>
            if ptype_eqb t TYPE_DICT then (kwargs, Ok tt)
            else (<[name entry := default]> kwargs, Ok tt)
        end
    | _, _, _ => (kwargs, Ok tt)
    end.

(** The second loop, for one entry; the recursive call on the
    attributes of a submitted option runs both loops on them. *)
Fixpoint required_options (entry : node) {struct entry} : st (gmap string val) unit :=
  match d_required (entries entry) with
  | Some true =>
      match d_options (entries entry) with
      | Given options =>
          for_each (λ option kwargs,
            match d_value (entries option) with
            | None => (kwargs, Raise (KeyError "value"))
            | Some v =>
                match kwargs !! name entry with
                | None => (kwargs, Raise (KeyError (name entry)))
                | Some submitted =>
                    if py_eq v submitted then
                      match d_attributes (entries option) with
                      | Given attrs =>
                          (do! _ := for_each add_default attrs in
                           for_each required_options attrs) kwargs
                      | _ => (kwargs, Ok tt)
                      end
                    else (kwargs, Ok tt)
                end
            end) options
      | _ => st_ret tt
      end
  | _ => st_ret tt
  end.

(** [append_required_defaults(kwargs, algorithm_inputs)]; [None] for
    [algorithm_inputs is None]. *)
Definition append_required_defaults (algorithm_inputs : option (list node))
    : st (gmap string val) unit :=
  match algorithm_inputs with
  | None => st_ret tt
  | Some l =>
      do! _ := for_each add_default l in
      for_each required_options l
  end.

(** The parameters of a tree: those of the list, of the attributes of
    their options, and of their own attributes, at any depth. *)
Inductive in_tree (m : node) : list node → Prop :=
  | in_here l : m ∈ l → in_tree m l
  | in_option l n os o ats :
      n ∈ l → d_options (entries n) = Given os → o ∈ os →
      d_attributes (entries o) = Given ats → in_tree m ats → in_tree m l
  | in_attributes l n ats :
      n ∈ l → d_attributes (entries n) = Given ats → in_tree m ats → in_tree m l.

(** A parameter whose default [append_required_defaults] takes. *)
Definition defaulted (m : node) (v : val) : Prop :=
  d_required (entries m) = Some true ∧ d_default (entries m) = Some v
  ∧ ∃ t, d_type (entries m) = Some t ∧ t ≠ TYPE_DICT.

(** [kwargs'] is [kwargs] with defaults of parameters in [Q] added. *)
Definition injects (Q : node → Prop) (kwargs kwargs' : gmap string val) : Prop :=
  kwargs ⊆ kwargs'
  ∧ ∀ k v, kwargs' !! k = Some v → kwargs !! k = None →
      ∃ m, Q m ∧ name m = k ∧ defaulted m v.

Definition is_KeyError (e : exn) : Prop := ∃ k, e = KeyError k.

(** A required parameter with a default, for the examples. *)
Definition required_leaf (nm : string) (ty : ptype) (default : val) : node :=
  Node (Dict nm (Some ty) None (Some default) (Some true) None Missing Missing
             None None None None None None).

Definition required_select (nm : string) (default : option val) (os : list node) : node :=
  Node (Dict nm (Some TYPE_SELECT) None default (Some true) None (Given os) Missing
             None None None None None None).

Definition required_tree : list node :=
  [ required_leaf "a" TYPE_INT (VInt 1);
    required_leaf "d" TYPE_DICT (VStr "x");
    required_select "s" (Some (VStr "o1"))
      [ an_option "first" "o1" [required_leaf "b" TYPE_INT (VInt 2)];
        an_option "second" "o2" [required_leaf "c" TYPE_INT (VInt 3)] ] ].

Definition undefaulted_tree : list node :=
  [ required_leaf "a" TYPE_INT (VInt 1);
    required_select "s" None
      [ an_option "first" "o1" [required_leaf "b" TYPE_INT (VInt 2)] ] ].

(** The required select [s] has an option and no default, and the
    selected option of its sibling [t] holds a parameter that has the
    same name and a default. *)
Definition shadow_tree : list node :=
  [ required_select "t" (Some (VStr "o"))
      [ an_option "Opt" "o" [required_leaf "s" TYPE_INT (VInt 5)] ];
    required_select "s" None
      [ an_option "first" "o1" [required_leaf "b" TYPE_INT (VInt 2)] ] ].

(** ** Filling in defaults *)

(** [x in container], where the container is a list (some element
    equal to [x]) or a string (substring test, for a string [x]). *)
Definition py_in (x container : val) : res bool :=
  match container with
  | VList l => Ok (existsb (py_eq x) l)
  | VStr s =>
      match x with
      | VStr sub => Ok (PyStr.contains s sub)
      | _ => Raise TypeError
      end
  | _ => Raise TypeError
  end.

(** [param[KEY_TYPE]] *)
Definition get_type {L} (d : dict L) : res ptype :=
  match d_type d with
  | Some t => Ok t
  | None => Raise (KeyError "type")
  end.

(** The values that select an option of the parameter [param]. *)
Definition selected_values {L} (data : gmap string val) (param : dict L) : res val :=
  match data !! d_name param with
  | Some v =>
      let! t := get_type param in
      if ptype_eqb t TYPE_MULTIPLE then Ok v else Ok (VList [v])
  | None => Ok (VList [])
  end.

Section MapM.
Context {A B : Type} (f : A → res B).

(** [[f(x) for x in l]], stopping at the first exception. *)
Fixpoint mapM (l : list A) : res (list B) :=
  match l with
  | [] => Ok []
  | x :: l' =>
      let! y := f x in
      let! ys := mapM l' in
      Ok (y :: ys)
  end.

End MapM.

(** [fill_defaults] by value, for one parameter.  The trees are
    values here: what the assignment [new_options[i] = ...] does to a
    list that the caller shares is in the store model below. *)
Fixpoint fill_param (data : gmap string val) (fill_unselected_branches : bool)
    (param : node) {struct param} : res node :=
  let new_p := entries param in
  let new_p :=
    match data !! name param with
    | Some v => set_default v new_p
    | None => new_p
    end in
  let! new_p :=
    match d_attributes (entries param) with
    | Given attrs =>
        let! r := mapM (fill_param data fill_unselected_branches) attrs in
        Ok (set_attributes (Given r) new_p)
    | _ => Ok new_p
    end in
  let! new_p :=
    match d_options (entries param) with
    | Given options =>
        let! new_options :=
          if bool_decide (is_Some (data !! name param)) || fill_unselected_branches
          then
            let! selected := selected_values data (entries param) in
            mapM (λ option,
                    let! v := get_value (entries option) in
                    let! sel := py_in v selected in
                    if sel || fill_unselected_branches
                    then fill_param data fill_unselected_branches option
                    else Ok option) options
          else Ok options in
        Ok (set_options (Given new_options) new_p)
    | _ => Ok new_p
    end in
  Ok (Node new_p).

(** [fill_defaults(adapter_interface, data, fill_unselected_branches)] *)
Definition fill_defaults (adapter_interface : list node) (data : gmap string val)
    (fill_unselected_branches : bool) : res (list node) :=
  mapM (fill_param data fill_unselected_branches) adapter_interface.

(** The body of the loop over the options. *)
Definition fill_option (data : gmap string val) (fill_unselected_branches : bool)
    (selected : val) (option : node) : res node :=
  let! v := get_value (entries option) in
  let! sel := py_in v selected in
  if sel || fill_unselected_branches
  then fill_param data fill_unselected_branches option
  else Ok option.

(** ** The tree in the store *)

(** Dictionaries and lists are objects of a store, and what a
    dictionary holds under ['options'] and ['attributes'] is the
    address of a list: two parameters can share one list, and an
    assignment to an entry is seen through every reference.  An
    address is an index in the store; allocation appends. *)
Abbreviation loc := nat.

Inductive obj : Type :=
  | ODict (d : dict loc)
  | OList (l : list loc).

Abbreviation heap := (list obj).

Definition is_dict (o : obj) : Prop :=
  match o with ODict _ => True | OList _ => False end.


Definition lift {S A} (r : res A) : st S A := λ s, (s, r).

Definition alloc (o : obj) : st heap loc :=
  λ h, (h ++ [o], Ok (length h)).

(** Reading an object as a dictionary (as a list): an object of the
    other kind raises [TypeError], as subscripting it with a key of
    the wrong type does; so does an address outside the store, which
    no reference of a program holds. *)
Definition read_dict (p : loc) : st heap (dict loc) :=
  λ h, match h !! p with
       | Some (ODict d) => (h, Ok d)
       | _ => (h, Raise TypeError)
       end.

Definition read_list (p : loc) : st heap (list loc) :=
  λ h, match h !! p with
       | Some (OList l) => (h, Ok l)
       | _ => (h, Raise TypeError)
       end.

(** [p[key] = v] on the dictionary at [p], [key] and [v] given by [f]. *)
Definition update_dict (p : loc) (f : dict loc → dict loc) : st heap unit :=
  do! d := read_dict p in
  λ h, (<[p := ODict (f d)]> h, Ok tt).

(** [p[i] = x] on the list at [p]. *)
Definition set_item (p : loc) (i : nat) (x : loc) : st heap unit :=
  do! l := read_list p in
  if bool_decide (i < length l)%nat
  then λ h, (<[p := OList (<[i := x]> l)]> h, Ok tt)
  else st_raise IndexError.

(** [p.extend(xs)]; [p.append(x)] is [extend p [x]]. *)
Definition extend (p : loc) (xs : list loc) : st heap unit :=
  do! l := read_list p in
  λ h, (<[p := OList (l ++ xs)]> h, Ok tt).

(** [for x in p: body(x)].  The iterator of a list reads the element
    at its index from the list as it is at that time.  Here no list
    changes its length while it is iterated, so the indices are those
    of the list at the start. *)
Definition for_in (p : loc) (body : loc → st heap unit) : st heap unit :=
  do! items := read_list p in
  for_each (λ i,
              do! items := read_list p in
              match items !! i with
              | Some x => body x
              | None => st_ret tt
              end)
           (seq 0 (length items)).

(** [for i, x in enumerate(p): body(i, x)] *)
Definition for_enumerate (p : loc) (body : nat → loc → st heap unit) : st heap unit :=
  do! items := read_list p in
  for_each (λ i,
              do! items := read_list p in
              match items !! i with
              | Some x => body i x
              | None => st_ret tt
              end)
           (seq 0 (length items)).

(** [fill_defaults] in the store.  [fuel] bounds the depth of the
    recursion, as the interpreter does: a tree that contains itself
    ends in [RuntimeError]. *)
Fixpoint fill_defaults_in (fuel : nat) (adapter_interface : loc)
    (data : gmap string val) (fill_unselected_branches : bool) {struct fuel}
    : st heap loc :=
  match fuel with
  | O => st_raise RuntimeError
  | S fuel' =>
      do! result := alloc (OList []) in
      do! _ := for_in adapter_interface (λ param,
        do! d := read_dict param in
        do! new_p := alloc (ODict d) in
        do! d := read_dict param in
        do! _ := match data !! d_name d with
                 | Some v => update_dict new_p (set_default v)
                 | None => st_ret tt
                 end in
        do! d := read_dict param in
        do! _ := match d_attributes d with
                 | Given attrs =>
                     do! r := fill_defaults_in fuel' attrs data fill_unselected_branches in
                     update_dict new_p (set_attributes (Given r))
                 | _ => st_ret tt
                 end in
        do! d := read_dict param in
        do! _ := match d_options d with
                 | Given new_options =>
                     do! d := read_dict param in
                     do! _ :=
                       if bool_decide (is_Some (data !! d_name d))
                          || fill_unselected_branches
                       then
                         do! d := read_dict param in
                         do! selected := lift (selected_values data d) in
                         for_enumerate new_options (λ i option,
                           do! o := read_dict option in
                           do! v := lift (get_value o) in
                           do! sel := lift (py_in v selected) in
                           if sel || fill_unselected_branches
                           then
                             do! single := alloc (OList [option]) in
                             do! r := fill_defaults_in fuel' single data
                                        fill_unselected_branches in
                             do! filled := read_list r in
                             match filled with
                             | x :: _ => set_item new_options i x
                             | [] => st_raise IndexError
                             end
                           else st_ret tt)
                       else st_ret tt in
                     update_dict new_p (set_options (Given new_options))
                 | _ => st_ret tt
                 end in
        extend result [new_p]) in
      st_ret result
  end.

(** Modelled from the spec: an entry of the selection dictionary
    ("mapping from field name to [{checked: bool, saved_value: <native
    value>}]"); the two keys are constants of the absent module
    [model]. *)
Record selection : Type := Selection {
  KEY_PARAMETER_CHECKED : bool;
  KEY_SAVED_VALUE : val
}.

(** [s + '_' + prefix] for an option value [s]. *)
Definition value_prefix (v : val) (prefix : string) : res string :=
  match v with
  | VStr s => Ok (s +:+ "_" +:+ prefix)
  | _ => Raise TypeError
  end.

(** [select_simulator_inputs] in the store; [None] is Python's
    [None], for the tree and for the result. *)
Fixpoint select_simulator_inputs (fuel : nat) (full_tree : option loc)
    (selection_dictionary : gmap string selection) (prefix : string) {struct fuel}
    : st heap (option loc) :=
  match fuel with
  | O => st_raise RuntimeError
  | S fuel' =>
      match full_tree with
      | None => st_ret None
      | Some full_tree =>
          do! result := alloc (OList []) in
          do! _ := for_in full_tree (λ param,
            do! d := read_dict param in
            let param_name := d_name d in
            do! _ := match d_label d with
                     | Some label =>
                         if negb (String.eqb prefix "")
                         then update_dict param (set_label (prefix +:+ "_" +:+ label))
                         else st_ret tt
                     | None => st_ret tt
                     end in
            let is_checked :=
              match selection_dictionary !! param_name with
              | Some e => KEY_PARAMETER_CHECKED e
              | None => false
              end in
            do! _ := match selection_dictionary !! param_name with
                     | Some e =>
                         if KEY_PARAMETER_CHECKED e
                         then
                           do! _ := update_dict param (set_default (KEY_SAVED_VALUE e)) in
                           extend result [param]
                         else st_ret tt
                     | None => st_ret tt
                     end in
            do! d := read_dict param in
            match d_options d with
            | Given options =>
                if is_checked then
                  for_in options (λ option,
                    do! o := read_dict option in
                    if has_key (d_attributes o) then
                      do! r := select_simulator_inputs fuel' (get_list (d_attributes o))
                                 selection_dictionary prefix in
                      do! _ := update_dict option
                                 (set_attributes
                                    match r with Some l => Given l | None => Null end) in
                      match selection_dictionary !! param_name with
                      | Some e => update_dict option (set_default (KEY_SAVED_VALUE e))
                      | None => st_raise (KeyError param_name)
                      end
                    else st_ret tt)
                else
                  for_in options (λ option,
                    do! o := read_dict option in
                    match selection_dictionary !! param_name with
                    | Some e =>
                        if has_key (d_attributes o) then
                          do! v := lift (get_value o) in
                          if py_eq v (KEY_SAVED_VALUE e) then
                            do! new_prefix := lift (value_prefix v prefix) in
                            do! r := select_simulator_inputs fuel'
                                       (get_list (d_attributes o))
                                       selection_dictionary new_prefix in
                            match r with
                            | Some recursive_results =>
                                do! items := read_list recursive_results in
                                extend result items
                            | None => st_raise TypeError
                            end
                          else st_ret tt
                        else st_ret tt
                    | None => st_ret tt
                    end)
            | _ => st_ret tt
            end) in
          st_ret (Some result)
      end
  end.

(** *** What a call leaves alone *)




(** *** What a call returns *)

(** The list that a dictionary holds under ['options'] is among the
    first [n] objects of the store. *)
Definition options_below (n : nat) (d : dict loc) : Prop :=
  ∀ o, d_options d = Given o → (o < n)%nat.


Definition dict_at (h : heap) (p : loc) : Prop := ∃ d, h !! p = Some (ODict d).

(** A dictionary that is not among the first [n] objects. *)
Definition fresh_dict (n : nat) (h : heap) (x : loc) : Prop :=
  (n ≤ x)%nat ∧ dict_at h x.

(** From [h] to [h']: the store has grown, a dictionary is still a
    dictionary, lists of options are still among the first [n]
    objects, and a list that is not among the first [n] objects has
    only gained dictionaries that are not among them either. *)
Definition copies (n : nat) (h h' : heap) : Prop :=
  (length h ≤ length h')%nat
  ∧ (∀ p d, h' !! p = Some (ODict d) → options_below n d)
  ∧ (∀ p, dict_at h p → dict_at h' p)
  ∧ (∀ p l, (n ≤ p)%nat → h !! p = Some (OList l) →
       ∃ l', h' !! p = Some (OList l') ∧ ∀ x, x ∈ l' → x ∈ l ∨ fresh_dict n h' x).

(** The computation [c], run in a store of at least [n] objects whose
    lists of options are among the first [n] and that satisfies [P],
    leaves a store related by [copies], and what it returns satisfies
    [Q] in that store. *)
Definition hoare (n : nat) {A} (P : heap → Prop) (c : st heap A)
    (Q : heap → A → Prop) : Prop :=
  ∀ h, (n ≤ length h)%nat → (∀ p d, h !! p = Some (ODict d) → options_below n d) →
    P h →
    copies n h (c h).1 ∧ match (c h).2 with Ok a => Q (c h).1 a | Raise _ => True end.



(** A select with one option, and a leaf, in the store. *)
Definition select_heap : heap :=
  [ OList [1%nat];
    ODict (Dict "s" (Some TYPE_SELECT) None None None None (Given 2%nat) Missing
                None None None None None None);
    OList [3%nat];
    ODict (Dict "first" None None None None (Some (VStr "o1")) Missing Missing
                None None None None None None) ].


(** The field [coupling] with the options [linear], which carries the
    attributes [a] and [b], and [sigmoidal]. *)
Definition sim_leaf (nm label : string) : dict loc :=
  Dict nm (Some TYPE_FLOAT) (Some label) None None None Missing Missing
       None None None None None None.

Definition coupling_heap (label_a label_b : string) : heap :=
  [ OList [1%nat];
    ODict (Dict "coupling" (Some TYPE_SELECT) (Some "Coupling") None None None
                (Given 2%nat) Missing None None None None None None);
    OList [3%nat; 4%nat];
    ODict (Dict "Linear" None None None None (Some (VStr "linear")) Missing
                (Given 5%nat) None None None None None None);
    ODict (Dict "Sigmoidal" None None None None (Some (VStr "sigmoidal")) Missing
                Missing None None None None None None);
    OList [6%nat; 7%nat];
    ODict (sim_leaf "a" label_a);
    ODict (sim_leaf "b" label_b) ].

(** ** Option materialization *)

(** [str(v)].  The text of a list is that of its elements' [repr],
    which is not modelled. *)
Definition py_str (v : val) : res string :=
  match v with
  | VNone => Ok "None"
  | VBool true => Ok "True"
  | VBool false => Ok "False"
  | VInt z => Ok (pretty z)
  | VStr s => Ok s
  | VList _ => Raise (OutOfModel "str of a list")
  end.

(** Modelled from the spec: a row that the store returns for an
    entity ("one OptionNode per row with a composed display label
    (entity display name + description/date/subject breadcrumb +
    numeric id suffix)").  The fields are those that
    [_populate_values] reads, under the index it reads them at:
    [value[0]] the numeric id, [value[2]] the gid, [value[3]],
    [value[5]] and [value[6]] texts or [None], [value[4]] a date. *)
Record row : Type := Row {
  value_0 : Z;
  value_2 : string;
  value_3 : option string;
  value_4 : val;
  value_5 : option string;
  value_6 : option string
}.

(** Modelled from the spec: a category is "display", "raw-input" or
    neither. *)
Record category : Type := Category {
  display : bool;
  rawinput : bool
}.

(** The store and the helpers of other modules, which are not part of
    the file: what they return is left open.
    - [display_name_of type_ gid]: the [display_name] of the first
      entity of [dao.get_generic_entity(type_, gid, "gid")], when there
      is one and it is a [DataType];
    - [date2string], [get_category_by_id] ([None] for no category),
      [get_values_of_datatype], [get_filters_for_type];
    - [get_class_instance]: [FilterChain._get_class_instance];
    - [FilterChain_datatype]: the constant [FilterChain.datatype]. *)
Class Store : Type := {
  display_name_of : ptype → string → option string;
  date2string : val → string;
  get_category_by_id : Z → option category;
  get_class_instance : ptype → option string;
  get_values_of_datatype : Z → string → filter → nat → list row * nat;
  get_filters_for_type : ptype → val;
  FilterChain_datatype : string
}.

(** [x or y] on a text that can be [None]. *)
Definition text_or (x : option string) (y : string) : string :=
  match x with
  | Some (String a s) => String a s
  | _ => y
  end.

(** [if x:] on a text that can be [None]. *)
Definition truthy (x : option string) : bool :=
  match x with
  | Some (String _ _) => true
  | _ => false
  end.

Section Materialization.
Context `{Store}.

(** The option that [_populate_values] builds for one row. *)
Definition row_option (type_ : ptype) (complex_dt_attributes : option (list node))
    (value : row) : node :=
  let entity_gid := value_2 value in
  let display_name := default "" (display_name_of type_ entity_gid) in
  let display_name := display_name +:+ " - " +:+ text_or (value_3 value) "None " in
  let display_name :=
    if truthy (value_5 value)
    then display_name +:+ " - From: " +:+ default "" (value_5 value)
    else display_name +:+ date2string (value_4 value) in
  let display_name :=
    if truthy (value_6 value)
    then display_name +:+ " - " +:+ default "" (value_6 value)
    else display_name in
  let display_name := display_name +:+ " - ID:" +:+ pretty (value_0 value) in
  Node (Dict display_name None None None None (Some (VStr entity_gid)) Missing
             match complex_dt_attributes with Some l => Given l | None => Missing end
             None None None None None None).

(** The text [all_field_values] after the loop. *)
Fixpoint all_field_values (data_list : list row) (acc : string) : string :=
  match data_list with
  | [] => acc
  | value :: l => all_field_values l (acc +:+ value_2 value +:+ ",")
  end.

(** [_populate_values(data_list, type_, category_key, complex_dt_attributes)];
    a category key without a category raises, as [category.display]
    on [None] does. *)
Definition _populate_values (data_list : list row) (type_ : ptype)
    (category_key : option Z) (complex_dt_attributes : option (list node))
    : res (list node) :=
  let values := map (row_option type_ complex_dt_attributes) data_list in
  match category_key with
  | Some key =>
      match get_category_by_id key with
      | Some category =>
          if negb (display category) && negb (rawinput category)
             && bool_decide (1 < length data_list)%nat
          then Ok (Node (Dict "All" None None None None
                              (Some (VStr (PyStr.slice_to
                                             (all_field_values data_list "") (-1))))
                              Missing Missing None None None None None None)
                   :: values)
          else Ok values
      | None => Raise AttributeError
      end
  | None => Ok values
  end.

(** [_get_available_datatypes(project_id, data_name, filters)], with
    the warning that it logs. *)
Definition _get_available_datatypes (project_id : Z) (data_name : ptype)
    (filters : filter) : st (list string) (list row * nat) :=
  match get_class_instance data_name with
  | None =>
      λ log,
        (log ++ ["Invalid Class specification:" +:+ type_name data_name],
         Ok ([], O))
  | Some data_class =>
      st_ret (get_values_of_datatype project_id data_class filters
                MAXIMUM_DATA_TYPES_DISPLAYED)
  end.

(** [d.get(KEY_DEFAULT) in [None, 'None']] *)
Definition default_unset {L} (d : dict L) : bool :=
  match d_default d with
  | None => true
  | Some v => py_eq v VNone || py_eq v (VStr "None")
  end.

(** [str(l[-1][KEY_VALUE])] *)
Definition last_value (l : list node) : res string :=
  match last l with
  | Some option =>
      let! v := get_value (entries option) in
      py_str v
  | None => Raise IndexError
  end.

(** The filter of a parameter ([FilterChain('')] when it has none)
    after [add_condition(FilterChain.datatype + ".visible", "==", True)]. *)
Definition add_visible (conditions : option filter) : filter :=
  default [] conditions ++ [(FilterChain_datatype +:+ ".visible", "==", VBool true)].

(** Whether [_populate_values] inserts the option [All]. *)
Definition adds_all (category_key : option Z) (rows : nat) : bool :=
  match category_key with
  | Some key =>
      match get_category_by_id key with
      | Some category =>
          negb (display category) && negb (rawinput category)
          && bool_decide (1 < rows)%nat
      | None => false
      end
  | None => false
  end.

Section FilterMap.
Context {S A B : Type} (f : A → st S (option B)).

(** A loop that appends [f(x)] to its result, or goes on to the next
    element when [f(x)] is [None]. *)
Fixpoint st_filter_map (l : list A) : st S (list B) :=
  match l with
  | [] => st_ret []
  | x :: l' =>
      do! y := f x in
      do! ys := st_filter_map l' in
      st_ret match y with Some b => b :: ys | None => ys end
  end.

End FilterMap.

(** The body of the loop of [fill_input_tree_with_options]: [None] for
    a hidden parameter.  The state is the log.  A filter that the
    parameter holds is an object that [add_condition] extends in
    place, and the copy of the parameter holds the same object: the
    condition shows in the result. *)
Fixpoint fill_tree_param (project_id : Z) (category_key : option Z) (param : node)
    {struct param} : st (list string) (option node) :=
  if bool_decide (d_ui_hidden (entries param) = Some true) then st_ret None
  else
    let transformed_param := entries param in
    let static :=
      do! transformed_param :=
        match d_options (entries param) with
        | Given options =>
            do! r := st_filter_map (fill_tree_param project_id category_key) options in
            let transformed_param := set_options (Given r) transformed_param in
            if bool_decide (d_required transformed_param = Some true)
               && bool_decide (0 < length options)%nat
               && default_unset transformed_param
            then
              do! def_val := lift (last_value options) in
              st_ret (set_default (VStr def_val) transformed_param)
            else st_ret transformed_param
        | _ => st_ret transformed_param
        end in
      do! transformed_param :=
        match d_attributes (entries param) with
        | Given attrs =>
            do! r := st_filter_map (fill_tree_param project_id category_key) attrs in
            st_ret (set_attributes (Given r) transformed_param)
        | _ => st_ret transformed_param
        end in
      st_ret (Some (Node transformed_param)) in
    match d_type (entries param) with
    | Some t =>
        if in_STATIC_ACCEPTED_TYPES t then static
        else
          let filter_condition := add_visible (d_conditions (entries param)) in
          let transformed_param :=
            match d_conditions (entries param) with
            | Some f =>
                Dict (d_name transformed_param) (d_type transformed_param)
                     (d_label transformed_param) (d_default transformed_param)
                     (d_required transformed_param) (d_value transformed_param)
                     (d_options transformed_param) (d_attributes transformed_param)
                     (d_ui_hidden transformed_param) (Some filter_condition)
                     (d_dynamic transformed_param) (d_warning transformed_param)
                     (d_filterable transformed_param) (d_datatype transformed_param)
            | None => transformed_param
            end in
          do! found := _get_available_datatypes project_id t filter_condition in
          let data_list := found.1 in
          let total_count := found.2 in
          let transformed_param :=
            if bool_decide (MAXIMUM_DATA_TYPES_DISPLAYED < total_count)%nat
            then set_warning WARNING_OVERFLOW transformed_param
            else transformed_param in
          do! complex_dt_attributes :=
            match d_attributes (entries param) with
            | Given attrs =>
                match attrs with
                | [] => st_ret None
                | _ :: _ =>
                    do! r := st_filter_map (fill_tree_param project_id category_key)
                               attrs in
                    st_ret (Some r)
                end
            | _ => st_ret None
            end in
          do! values := lift (_populate_values data_list t category_key
                                complex_dt_attributes) in
          do! transformed_param :=
            if bool_decide (d_required transformed_param = Some true)
               && bool_decide (0 < length values)%nat
               && default_unset transformed_param
            then
              do! def_val := lift (last_value values) in
              st_ret (set_default (VStr def_val) transformed_param)
            else st_ret transformed_param in
          let transformed_param :=
            set_type TYPE_SELECT
              (set_filterable (get_filters_for_type t) transformed_param) in
          do! transformed_param :=
            match d_dynamic (entries param) with
            | Some _ =>
                match d_default (entries param) with
                | Some (VStr s) =>
                    let dynamic_param :=
                      Node (Dict s None None None None (Some (VStr s)) Missing Missing
                                 None None None None None None) in
                    st_ret (set_options (Given [dynamic_param]) transformed_param)
                | Some _ => st_raise (OutOfModel "a name that is not a text")
                | None => st_raise (KeyError "default")
                end
            | None => st_ret (set_options (Given values) transformed_param)
            end in
          let transformed_param := set_datatype (type_name t) transformed_param in
          let transformed_param := set_attributes (Given []) transformed_param in
          st_ret (Some (Node transformed_param))
    | None => static
    end.

(** [fill_input_tree_with_options(attributes_list, project_id, category_key)] *)
Definition fill_input_tree_with_options (attributes_list : list node)
    (project_id : Z) (category_key : option Z) : st (list string) (list node) :=
  st_filter_map (fill_tree_param project_id category_key) attributes_list.

(** The option [All] of the rows [data_list]. *)
Definition all_option (data_list : list row) : node :=
  Node (Dict "All" None None None None
             (Some (VStr (PyStr.join "," (map value_2 data_list))))
             Missing Missing None None None None None None).

End Materialization.

(** A store of the given entities, for the examples: the category 1
    is neither display nor raw input, the category 2 is display, and
    the rows returned are the first ones up to the limit, with the
    number of all. *)
Definition entity_store (entities : list row) : Store := {|
  display_name_of := λ _ _, None;
  date2string := λ _, "";
  get_category_by_id := λ key,
    if Z.eqb key 1 then Some (Category false false)
    else if Z.eqb key 2 then Some (Category true false)
    else None;
  get_class_instance := λ t, Some (type_name t);
  get_values_of_datatype := λ _ _ _ limit, (take limit entities, length entities);
  get_filters_for_type := λ _, VNone;
  FilterChain_datatype := "DataType"
|}.

Definition entity (i : nat) : row :=
  Row (Z.of_nat i) ("gid" +:+ pretty i) None VNone None None.

Definition entities (n : nat) : list row := map entity (seq 0 n).

Definition datatype_leaf : node := leaf "data" (TYPE_CLASS "tvb.datatypes.Example").

(** ** Submission parsing *)

(** The values of the conversion that are not of [val] (floating-point
    numbers, arrays, parsed JSON, entities), the metadata that
    [_load_entity] updates, and what [collapse_params] returns: they
    belong to other modules and are left open. *)
Class Natives : Type := {
  native : Type;
  metadata : Type;
  collapsed : Type
}.

Section NativeValues.
Context `{Natives}.

Inductive atom : Type :=
  | AVal (v : val)
  | AExt (x : native).

(** A converted value: a value, or the dictionary of a DICT field. *)
Inductive nval : Type :=
  | Atom (a : atom)
  | NDict (d : gmap string atom).

(** One row of the flat interface, with the keys that the conversion
    reads; [row_required] is [row.get('required')] as a condition. *)
Record flat_row : Type := FlatRow {
  row_name : string;
  row_type : option ptype;
  row_label : option string;
  row_required : bool;
  row_minValue : option atom;
  row_maxValue : option atom;
  row_elementType : option string;
  row_field : option string
}.

(** What the conversion changes: the submitted dictionary [kwargs]
    (the caller's), the result [kwa], two lists, the log and the
    metadata. *)
Record conversion : Type := Conversion {
  kwargs : gmap string val;
  kwa : gmap string nval;
  simple_select_list : list string;
  to_skip_dict_subargs : list string;
  log : list string;
  metadata_out : metadata
}.

Definition set_kwargs (f : gmap string val → gmap string val) (c : conversion) :=
  Conversion (f (kwargs c)) (kwa c) (simple_select_list c) (to_skip_dict_subargs c)
             (log c) (metadata_out c).
Definition set_kwa (f : gmap string nval → gmap string nval) (c : conversion) :=
  Conversion (kwargs c) (f (kwa c)) (simple_select_list c) (to_skip_dict_subargs c)
             (log c) (metadata_out c).
Definition set_simple_select_list (f : list string → list string) (c : conversion) :=
  Conversion (kwargs c) (kwa c) (f (simple_select_list c)) (to_skip_dict_subargs c)
             (log c) (metadata_out c).
Definition set_to_skip (f : list string → list string) (c : conversion) :=
  Conversion (kwargs c) (kwa c) (simple_select_list c) (f (to_skip_dict_subargs c))
             (log c) (metadata_out c).
Definition set_log (f : list string → list string) (c : conversion) :=
  Conversion (kwargs c) (kwa c) (simple_select_list c) (to_skip_dict_subargs c)
             (f (log c)) (metadata_out c).
Definition set_metadata_out (m : metadata) (c : conversion) :=
  Conversion (kwargs c) (kwa c) (simple_select_list c) (to_skip_dict_subargs c)
             (log c) m.

End NativeValues.

(** What the conversion calls outside the file, and the two methods of
    the class that evaluate Python text and import modules by name:
    - [py_int], [py_float]: the constructors [int] and [float];
    - [json_loads]: [json.loads];
    - [eval_call dtype text]: the value of the Python text
      [dtype('text')], as [eval] gives it;
    - [string2array]: [tvb.core.utils.string2array];
    - [array_min], [array_max]: [numpy.min] and [numpy.max];
    - [lt_other]: the order [<] of the interpreter on two values that
      are not both integers;
    - [py_format]: the operator [%] on a format and its arguments;
    - [_convert_to_array]: what the method logs, and its result;
    - [_load_entity]: the metadata that the method leaves, and its
      result;
    - [collapse_params]: [tvb.basic.traits.parameters_factory]. *)
Class Externals `{Natives} : Type := {
  py_int : val → res Z;
  py_float : val → res native;
  json_loads : val → res atom;
  eval_call : string → string → res atom;
  string2array : val → string → string → res atom;
  array_min : atom → res atom;
  array_max : atom → res atom;
  lt_other : atom → atom → bool;
  py_format : string → list atom → string;
  _convert_to_array : val → flat_row → list string * res atom;
  _load_entity : flat_row → val → gmap string val → metadata → metadata * res atom;
  collapse_params : gmap string nval → list string → res collapsed
}.

(** [bool(v)] *)
Definition py_bool (v : val) : bool :=
  match v with
  | VNone => false
  | VBool b => b
  | VInt z => negb (Z.eqb z 0)
  | VStr s => negb (String.eqb s "")
  | VList l => match l with [] => false | _ => true end
  end.

(** [_compute_submit_option_select(submitted_option)] *)
Definition _compute_submit_option_select (submitted_option : val) : val :=
  match submitted_option with
  | VStr s =>
      VList (map VStr (PyStr.split (PyStr.remove_char "]" (PyStr.remove_char "[" s)) ","))
  | v => v
  end.

(** [_is_parent_not_submitted(row, kwargs)], from the name of the row. *)
Definition _is_parent_not_submitted (att_name : string) (kwargs : gmap string val)
    : res bool :=
  if PyStr.contains att_name KEYWORD_PARAMS then
    let parent_name := PyStr.slice_to att_name (PyStr.find att_name KEYWORD_PARAMS) in
    let option := PyStr.slice_from att_name (PyStr.find att_name KEYWORD_OPTION + 7) in
    let option := PyStr.slice_to option (PyStr.find option KEYWORD_SEPARATOR) in
    match kwargs !! parent_name with
    | None => Raise (KeyError parent_name)
    | Some v =>
        let submitted_option := _compute_submit_option_select v in
        if negb (py_bool submitted_option) then Ok true
        else
          let! found := py_in (VStr option) submitted_option in
          Ok (negb found)
    end
  else Ok false.

Section Conversion.
Context `{Externals}.

(** The value that [_get_dictionary] stores for the submitted [v]. *)
Definition dictionary_value (elementType : option string) (v : val) : res atom :=
  match elementType with
  | Some dtype =>
      if String.eqb dtype "array" then string2array v " " "float"
      else
        match v with
        | VStr text => eval_call dtype text
        | _ => Raise TypeError
        end
  | None =>
      let! s := py_str v in
      Ok (AVal (VStr s))
  end.

(** [key.split(KEYWORD_PARAMS[1:])[-1]] *)
Definition dictionary_key (key : string) : string :=
  default "" (last (PyStr.split key (PyStr.slice_from KEYWORD_PARAMS 1))).

(** The loop of [_get_dictionary] over the keys of [kwargs].  The
    order in which a dictionary gives its keys is not specified; the
    model takes that of [map_to_list]. *)
Fixpoint gather_dictionary (name : string) (elementType : option string)
    (items : list (string * val)) (result_dict : gmap string atom)
    (taken_keys : list string) : res (gmap string atom * list string) :=
  match items with
  | [] => Ok (result_dict, taken_keys)
  | (key, v) :: items' =>
      if PyStr.contains key name && negb (String.eqb name key) then
        let! a := dictionary_value elementType v in
        gather_dictionary name elementType items'
          (<[dictionary_key key := a]> result_dict) (taken_keys ++ [key])
      else gather_dictionary name elementType items' result_dict taken_keys
  end.

(** [_get_dictionary(row, **kwargs)] *)
Definition _get_dictionary (row : flat_row) (kwargs : gmap string val)
    : res (gmap string atom * list string) :=
  let! skip := _is_parent_not_submitted (row_name row) kwargs in
  if skip then Ok (∅, [])
  else gather_dictionary (row_name row) (row_elementType row)
         (map_to_list kwargs) ∅ [].

(** The values of an iteration [for x in v]. *)
Definition py_iter (v : val) : res (list val) :=
  match v with
  | VList l => Ok l
  | VStr s => Ok (map (λ c, VStr (String c "")) (list_ascii_of_string s))
  | _ => Raise TypeError
  end.

(** The keys that the cleaning of [_find_field_submitted_name] removes. *)
Definition keys_to_remove (submited_kwargs : gmap string val)
    (prefix sufix proposed_name : string) : list string :=
  List.filter (λ submit_key,
            PyStr.startswith submit_key (prefix +:+ KEYWORD_OPTION)
            && PyStr.endswith submit_key sufix
            && negb (String.eqb submit_key proposed_name))
         (map fst (map_to_list submited_kwargs)).

(** The loop of [_find_field_submitted_name] over the submitted
    options; the state is the submitted dictionary and the log. *)
Fixpoint find_among (flat_name prefix sufix : string) (perform_clean : bool)
    (count : nat) (datatype_like_submit : bool) (submitted_options : list val)
    : st (gmap string val * list string) (option string) :=
  match submitted_options with
  | [] => st_ret None
  | submitted_option :: rest =>
      do! text := lift (py_str submitted_option) in
      let matches := PyStr.startswith sufix (KEYWORD_OPTION +:+ text) in
      let datatype_like_submit := datatype_like_submit || negb matches in
      let proposed_name :=
        if matches then flat_name
        else prefix +:+ KEYWORD_OPTION +:+ text +:+ KEYWORD_SEPARATOR +:+ sufix in
      do! _ :=
        if perform_clean then
          λ s, ((foldr delete s.1 (keys_to_remove s.1 prefix sufix proposed_name),
                 if datatype_like_submit && bool_decide (1 < count)%nat
                 then s.2 ++ ["DataType attribute in SELECT_MULTIPLE is not supposed to work!!!"]
                 else s.2),
                Ok tt)
        else st_ret tt in
      do! found := (λ s, (s, Ok (bool_decide (is_Some (s.1 !! proposed_name))))) in
      if (found : bool) then st_ret (Some proposed_name)
      else find_among flat_name prefix sufix perform_clean count
             datatype_like_submit rest
  end.

(** [_find_field_submitted_name(submited_kwargs, flat_name, perform_clean)] *)
Definition _find_field_submitted_name (flat_name : string) (perform_clean : bool)
    : st (gmap string val * list string) (option string) :=
  if negb (PyStr.contains flat_name KEYWORD_PARAMS) then
    λ s, (s, Ok (if bool_decide (is_Some (s.1 !! flat_name))
                 then Some flat_name else None))
  else
    let at_params := PyStr.find flat_name KEYWORD_PARAMS in
    let prefix := PyStr.slice_to flat_name (at_params + 12) in
    let sufix := PyStr.slice_from flat_name (at_params + 12) in
    let parent_name := PyStr.slice_to flat_name at_params in
    do! submitted := (λ s, (s, match s.1 !! parent_name with
                               | Some v => Ok v
                               | None => Raise (KeyError parent_name)
                               end)) in
    do! submitted_options := lift (py_iter (_compute_submit_option_select submitted)) in
    find_among flat_name prefix sufix perform_clean (length submitted_options)
      false submitted_options.

End Conversion.

Section Rows.
Context `{Externals}.

(** [a < b]: the order of the integers, or that of the interpreter. *)
Definition py_lt (a b : atom) : bool :=
  match a, b with
  | AVal (VInt x), AVal (VInt y) => Z.ltb x y
  | _, _ => lt_other a b
  end.

(** [kwargs[key]] *)
Definition get_kwarg (key : string) : st conversion val :=
  λ c, (c, match kwargs c !! key with
           | Some v => Ok v
           | None => Raise (KeyError key)
           end).

(** [kwa[key] = v] *)
Definition put_kwa (key : string) (v : nval) : st conversion unit :=
  λ c, (set_kwa (insert key v) c, Ok tt).

(** [self.log.warning(message)] *)
Definition warning (message : string) : st conversion unit :=
  λ c, (set_log (λ l, l ++ [message]) c, Ok tt).

(** [row[KEY_LABEL]] *)
Definition get_label (row : flat_row) : res string :=
  match row_label row with
  | Some label => Ok label
  | None => Raise (KeyError "label")
  end.

Definition get_minValue (row : flat_row) : res atom :=
  match row_minValue row with
  | Some v => Ok v
  | None => Raise (KeyError "minValue")
  end.

Definition get_maxValue (row : flat_row) : res atom :=
  match row_maxValue row with
  | Some v => Ok v
  | None => Raise (KeyError "maxValue")
  end.

(** [_validate_range_for_value_input(value, row)]; [value > max] is
    read as [max < value]. *)
Definition _validate_range_for_value_input (value : atom) (row : flat_row)
    : st conversion unit :=
  do! minValue := lift (get_minValue row) in
  if py_lt value minValue then
    do! label := lift (get_label row) in
    do! maxValue := lift (get_maxValue row) in
    warning (py_format
               "Field %s [%s] should be between %s and %s but provided value was %s."
               [AVal (VStr label); AVal (VStr (row_name row)); minValue; maxValue; value])
  else
    do! maxValue := lift (get_maxValue row) in
    if py_lt maxValue value then
      do! label := lift (get_label row) in
      warning (py_format
                 "Field %s [%s] should be between %s and %s but provided value was %s."
                 [AVal (VStr label); AVal (VStr (row_name row)); minValue; maxValue; value])
    else st_ret tt.

(** [_validate_range_for_array_input(array, row)] *)
Definition _validate_range_for_array_input (array : atom) (row : flat_row)
    : st conversion unit :=
  do! min_val := lift (array_min array) in
  do! max_val := lift (array_max array) in
  do! minValue := lift (get_minValue row) in
  let message label maxValue :=
    py_format
      ("Field %s [%s] should have values between %s and %s but provided array "
       +:+ "contains min-max:(%s, %s).")
      [AVal (VStr label); AVal (VStr (row_name row)); minValue; maxValue;
       min_val; max_val] in
  if py_lt min_val minValue then
    do! label := lift (get_label row) in
    do! maxValue := lift (get_maxValue row) in
    warning (message label maxValue)
  else
    do! maxValue := lift (get_maxValue row) in
    if py_lt maxValue max_val then
      do! label := lift (get_label row) in
      warning (message label maxValue)
    else st_ret tt.

(** [ATT_MINVALUE in row and ATT_MAXVALUE in row] *)
Definition has_range (row : flat_row) : bool :=
  bool_decide (is_Some (row_minValue row)) && bool_decide (is_Some (row_maxValue row)).

(** The conversion of the submitted value of a row, by the type of the
    row: the chain of [if row_type == ...] after the checks. *)
Definition coerce (row : flat_row) (row_type : ptype) : st conversion unit :=
  let row_attr := row_name row in
  do! submitted := get_kwarg row_attr in
  match row_type with
  | TYPE_ARRAY =>
      do! array := (λ c, let r := _convert_to_array submitted row in
                         (set_log (λ l, l ++ r.1) c, r.2)) in
      do! _ := put_kwa row_attr (Atom array) in
      if has_range row then _validate_range_for_array_input array row
      else st_ret tt
  | TYPE_LIST =>
      match submitted with
      | VList _ => st_ret tt
      | _ =>
          do! parsed := lift (json_loads submitted) in
          put_kwa row_attr (Atom parsed)
      end
  | TYPE_BOOL => put_kwa row_attr (Atom (AVal (VBool (py_bool submitted))))
  | TYPE_INT =>
      if existsb (py_eq submitted) [VNone; VStr ""; VStr "None"]
      then put_kwa row_attr (Atom (AVal VNone))
      else
        do! z := lift (py_int submitted) in
        do! _ := put_kwa row_attr (Atom (AVal (VInt z))) in
        if has_range row then _validate_range_for_value_input (AVal (VInt z)) row
        else st_ret tt
  | TYPE_FLOAT =>
      if existsb (py_eq submitted) [VStr ""; VStr "None"]
      then put_kwa row_attr (Atom (AVal VNone))
      else
        do! x := lift (py_float submitted) in
        do! _ := put_kwa row_attr (Atom (AExt x)) in
        if has_range row then _validate_range_for_value_input (AExt x) row
        else st_ret tt
  | TYPE_STR => put_kwa row_attr (Atom (AVal submitted))
  | TYPE_SELECT =>
      do! _ := put_kwa row_attr (Atom (AVal submitted)) in
      λ c, (set_simple_select_list (λ l, l ++ [row_attr]) c, Ok tt)
  | TYPE_MULTIPLE =>
      put_kwa row_attr
        (Atom (AVal match submitted with VList _ => submitted | _ => VList [submitted] end))
  | TYPE_UPLOAD => put_kwa row_attr (Atom (AVal submitted))
  | TYPE_DICT => st_ret tt
  | TYPE_CLASS _ =>
      do! _ := (λ c, (set_simple_select_list (λ l, l ++ [row_attr]) c, Ok tt)) in
      do! entity := (λ c, let r := _load_entity row submitted (kwargs c) (metadata_out c) in
                          (set_metadata_out r.1 c, r.2)) in
      do! _ := put_kwa row_attr (Atom entity) in
      match row_field row with
      | Some _ => put_kwa (row_attr +:+ "_gid") (Atom (AVal submitted))
      | None => st_ret tt
      end
  end.

(** The body of the [try] of the loop, for a row of type [row_type]. *)
Definition convert_body (row : flat_row) (row_type : ptype) : st conversion unit :=
  let row_attr := row_name row in
  match row_type with
  | TYPE_DICT =>
      do! found := (λ c, (c, _get_dictionary row (kwargs c))) in
      do! _ := put_kwa row_attr (NDict found.1) in
      for_each (λ key c, (set_to_skip (λ l, l ++ [key]) (set_kwa (delete key) c), Ok tt))
               found.2
  | _ =>
      do! skipped := (λ c, (c, Ok (bool_decide (row_attr ∈ to_skip_dict_subargs c)))) in
      if (skipped : bool) then st_ret tt
      else
        do! present := (λ c, (c, Ok (bool_decide (is_Some (kwargs c !! row_attr))))) in
        do! go :=
          if (present : bool) then
            do! not_submitted :=
              (λ c, (c, _is_parent_not_submitted row_attr (kwargs c))) in
            if (not_submitted : bool) then
              λ c, (set_kwargs (delete row_attr) c, Ok false)
            else st_ret true
          else
            do! kwa_name :=
              (λ c, let r := _find_field_submitted_name row_attr true (kwargs c, log c) in
                    (set_log (λ _, r.1.2) (set_kwargs (λ _, r.1.1) c), r.2)) in
            match kwa_name with
            | None => st_ret false
            | Some kwa_name =>
                do! v := get_kwarg kwa_name in
                λ c, (set_kwargs (insert row_attr v) c, Ok true)
            end in
        if (go : bool) then coerce row row_type else st_ret tt
  end.

(** [try: ... except TVBException: raise; except Exception: raise
    InvalidParameterException(...)].  [InvalidParameterException] is a
    [TVBException]; [TVBException msg] stands for every other
    exception of that class, which the calls outside the file can
    raise.  What the model does not cover goes through as it is. *)
Definition guarded (row : flat_row) (m : st conversion unit) : st conversion unit :=
  λ c,
    match m c with
    | (c', Raise (InvalidParameterException msg)) =>
        (c', Raise (InvalidParameterException msg))
    | (c', Raise (TVBException msg)) => (c', Raise (TVBException msg))
    | (c', Raise (OutOfModel what)) => (c', Raise (OutOfModel what))
    | (c', Raise _) =>
        (c', let! label := get_label row in
             Raise (InvalidParameterException
                      (py_format "Invalid or missing value in field %s [%s]"
                         [AVal (VStr label); AVal (VStr (row_name row))])))
    | (c', Ok a) => (c', Ok a)
    end.

(** One turn of the loop of [convert_ui_inputs]. *)
Definition convert_row (validation_required : bool) (row : flat_row)
    : st conversion unit :=
  let row_attr := row_name row in
  match row_type row with
  | None => st_raise (KeyError "type")
  | Some row_type =>
      do! submitted := (λ c, (c, Ok (kwargs c !! row_attr))) in
      if validation_required && row_required row
         && match submitted with Some v => py_eq v (VStr "") | None => false end
      then
        do! label := lift (get_label row) in
        st_raise (InvalidParameterException
                    (py_format
                       ("Parameter %s [%s] is required for %s but no value was "
                        +:+ "submitted! Please relaunch with valid parameters.")
                       [AVal (VStr label); AVal (VStr row_attr);
                        AVal (VStr "InputTreeManager")]))
      else guarded row (convert_body row row_type)
  end.

(** [convert_ui_inputs(flat_input_interface, kwargs, metadata_out,
    validation_required)]: the state that the call leaves (the
    caller's [kwargs] and metadata, the log, and the locals at the
    end) and its result. *)
Definition convert_ui_inputs (flat_input_interface : list flat_row)
    (submitted : gmap string val) (metadata : metadata) (validation_required : bool)
    (log : list string) : conversion * res collapsed :=
  (do! _ := for_each (convert_row validation_required) flat_input_interface in
   λ c, (c, collapse_params (kwa c) (simple_select_list c)))
    (Conversion submitted ∅ [] [] log metadata).

End Rows.

(** *** An instance for the examples *)

(** A text of digits as a number. *)
Fixpoint digits (s : string) (acc : Z) : option Z :=
  match s with
  | EmptyString => Some acc
  | String a s' =>
      let n := Z.of_nat (nat_of_ascii a) in
      if Z.leb 48 n && Z.leb n 57 then digits s' (10 * acc + (n - 48)) else None
  end.

Definition parse_int (s : string) : option Z :=
  match s with
  | EmptyString => None
  | String a s' =>
      if Ascii.eqb a "-"
      then (if String.eqb s' "" then None else Z.opp <$> digits s' 0)
      else digits s 0
  end.

(** Natives that keep a floating-point number as its text. *)
Definition text_natives : Natives := {|
  native := string;
  metadata := unit;
  collapsed := list string
|}.

(** Externals for the examples: [int] reads decimal texts, [float] and
    [eval] keep the text, an order other than that of the integers
    never holds, a format is not filled in, and the other calls give
    [None] or raise. *)
Definition text_externals : @Externals text_natives := {|
  py_int := λ v,
    match v with
    | VInt z => Ok z
    | VBool b => Ok (Z.b2z b)
    | VStr s => match parse_int s with Some z => Ok z | None => Raise ValueError end
    | _ => Raise TypeError
    end;
  py_float := λ v,
    match v with
    | VStr s => Ok (s : @native text_natives)
    | _ => Raise TypeError
    end;
  json_loads := λ _, Raise ValueError;
  eval_call := λ _ text, Ok (@AExt text_natives text);
  string2array := λ _ _ _, Raise ValueError;
  array_min := λ _, Raise ValueError;
  array_max := λ _, Raise ValueError;
  lt_other := λ _ _, false;
  py_format := λ fmt _, fmt;
  _convert_to_array := λ _ _, ([], Ok (@AVal text_natives VNone));
  _load_entity := λ _ _ _ m, (m, Ok (@AVal text_natives VNone));
  collapse_params := λ _ simple_select_list, Ok (simple_select_list : @collapsed text_natives)
|}.

Section Ranges.
Context `{Externals}.

(** [value < min or value > max] *)
Definition out_of_range (value minValue maxValue : atom) : bool :=
  py_lt value minValue || py_lt maxValue value.

(** The warning of [_validate_range_for_value_input]. *)
Definition value_warning (label name : string) (minValue maxValue value : atom)
    : string :=
  py_format "Field %s [%s] should be between %s and %s but provided value was %s."
    [AVal (VStr label); AVal (VStr name); minValue; maxValue; value].

(** The warning of [_validate_range_for_array_input]. *)
Definition array_warning (label name : string)
    (minValue maxValue min_val max_val : atom) : string :=
  py_format
    ("Field %s [%s] should have values between %s and %s but provided array "
     +:+ "contains min-max:(%s, %s).")
    [AVal (VStr label); AVal (VStr name); minValue; maxValue; min_val; max_val].

(** The state after a row stored [value] and logged [messages]. *)
Definition stored (name : string) (value : atom) (messages : list string)
    (c : conversion) : conversion :=
  set_log (λ l, l ++ messages) (set_kwa (insert name (Atom value)) c).

End Ranges.

(** The submission of the DICT field [weights]. *)
Definition weights_kwargs : gmap string val :=
  {[ "weights_parameters_a" := VStr "1.5"; "weights_parameters_b" := VStr "2.5" ]}.


Definition text_row (name : string) (type : ptype) (label : string)
    : @flat_row text_natives :=
  @FlatRow text_natives name (Some type) (Some label) false None None None None.

Definition bounded_row (name : string) (type : ptype) (label : string)
    (minValue maxValue : Z) : @flat_row text_natives :=
  @FlatRow text_natives name (Some type) (Some label) false
    (Some (@AVal text_natives (VInt minValue)))
    (Some (@AVal text_natives (VInt maxValue))) None None.

Definition dict_row (name elementType : string) : @flat_row text_natives :=
  @FlatRow text_natives name (Some TYPE_DICT) (Some name) false None None
    (Some elementType) None.

(** ** Further properties: definitions *)

(** An entry of the flat list: its options and attributes are [None]. *)
Definition stripped (n : node) : Prop :=
  d_options (entries n) = Null ∧ d_attributes (entries n) = Null.

(** The two exceptions of [flatten]: an option with attributes and no
    value, and an option value that is not a text. *)
Definition flatten_error (e : exn) : Prop :=
  e = KeyError "value" ∨ e = TypeError.

Definition flat_tree : list node :=
  [ a_select "P" [an_option "Opt" "O" [leaf "c" TYPE_INT]]; leaf "Q" TYPE_INT ].

(** Every option that has attributes carries a text as its value, at
    every depth. *)
Fixpoint valued_node (n : node) : bool :=
  let valued_list :=
    fix valued_list (l : list node) : bool :=
      match l with
      | [] => true
      | x :: l' => valued_node x && valued_list l'
      end in
  match d_options (entries n) with
  | Given os =>
      (fix each_option (os : list node) : bool :=
         match os with
         | [] => true
         | o :: os' =>
             match d_attributes (entries o) with
             | Given attrs =>
                 match d_value (entries o) with
                 | Some (VStr _) => valued_list attrs
                 | _ => false
                 end
             | _ => true
             end
             && each_option os'
         end) os
  | _ => true
  end
  && match d_attributes (entries n) with
     | Given attrs => valued_list attrs
     | _ => true
     end.

Definition valued (l : list node) : bool := forallb valued_node l.

Definition valued_option (o : node) : bool :=
  match d_attributes (entries o) with
  | Given attrs =>
      match d_value (entries o) with
      | Some (VStr _) => valued attrs
      | _ => false
      end
  | _ => true
  end.

(** An option with attributes and no value; one whose value is a number. *)
Definition valueless_tree : list node :=
  [ Node (set_options
            (Given [Node (set_attributes (Given [leaf "c" TYPE_INT]) (new_dict "Opt"))])
            (entries (leaf "P" TYPE_SELECT))) ].

Definition numbered_tree : list node :=
  [ Node (set_options
            (Given [Node (Dict "Opt" None None None None (Some (VInt 1)) Missing
                               (Given [leaf "c" TYPE_INT]) None None None None None None)])
            (entries (leaf "P" TYPE_SELECT))) ].

(** What [fill_defaults] does to one parameter, its options and
    attributes apart: the default becomes the submitted value, when
    there is one, and the other entries stay. *)
Definition refilled (data : gmap string val) (p q : node) : Prop :=
  set_options Null (set_attributes Null (entries q))
  = set_options Null (set_attributes Null
      match data !! name p with
      | Some v => set_default v (entries p)
      | None => entries p
      end)
  ∧ has_key (d_options (entries q)) = has_key (d_options (entries p))
  ∧ has_key (d_attributes (entries q)) = has_key (d_attributes (entries p)).

(** [param.get(KEY_UI_HIDE)] is true. *)
Definition hidden (param : node) : bool :=
  bool_decide (d_ui_hidden (entries param) = Some true).

Definition hidden_leaf (nm : string) : node :=
  Node (Dict nm (Some TYPE_INT) None None None None Missing Missing
             (Some true) None None None None None).

(** A parameter that [fill_input_tree_with_options] has nothing to do
    for: it is shown, its type (if it has one) is a static one, it is
    not a required parameter with options and without default, and so
    are its options and attributes. *)
Fixpoint static_node (n : node) : bool :=
  let static_list :=
    fix static_list (l : list node) : bool :=
      match l with
      | [] => true
      | x :: l' => static_node x && static_list l'
      end in
  negb (hidden n)
  && match d_type (entries n) with
     | Some t => in_STATIC_ACCEPTED_TYPES t
     | None => true
     end
  && match d_options (entries n) with
     | Given os =>
         negb (bool_decide (d_required (entries n) = Some true)
               && bool_decide (0 < length os)%nat
               && default_unset (entries n))
         && static_list os
     | _ => true
     end
  && match d_attributes (entries n) with
     | Given attrs => static_list attrs
     | _ => true
     end.

Definition static_tree (l : list node) : bool := forallb static_node l.

Definition shown_tree : list node :=
  [ leaf "a" TYPE_INT; hidden_leaf "h"; datatype_leaf ].

(** ** Names for the parameters page *)

(** The prefix that [prepare_param_names] hands down to the attributes
    of [param]: the prefix it was given, continued by the option
    segment when [add_option_prefix] is set ([None + 'option_'] and the
    concatenation of a value that is not a text are [TypeError]s), or
    the new name of a parameter of type ['dict'] and the marker. *)
Definition attributes_prefix (param : dict (list node)) (new_name : string)
    (prefix : option string) (add_option_prefix : bool) : res (option string) :=
  let is_dict :=
    match d_type param with
    | Some t => ptype_eqb t TYPE_DICT
    | None => false
    end in
  let! new_prefix :=
    if add_option_prefix then
      match prefix with
      | Some p =>
          let new_prefix := p +:+ KEYWORD_OPTION in
          let! v := get_value param in
          match v with
          | VStr s => Ok (Some ((new_prefix +:+ s) +:+ KEYWORD_SEPARATOR))
          | _ => Raise TypeError
          end
      | None => Raise TypeError
      end
    else Ok prefix in
  if is_dict then Ok (Some (new_name +:+ KEYWORD_PARAMS)) else Ok new_prefix.

(** [param.get(KEY_TYPE) in [TYPE_MULTIPLE, TYPE_SELECT]] *)
Definition is_selection {L} (param : dict L) : bool :=
  match d_type param with
  | Some t => ptype_eqb t TYPE_MULTIPLE || ptype_eqb t TYPE_SELECT
  | None => false
  end.

(** [KEY_TYPE not in param or param[KEY_TYPE] in STATIC_ACCEPTED_TYPES] *)
Definition untyped_or_static {L} (param : dict L) : bool :=
  match d_type param with
  | Some t => in_STATIC_ACCEPTED_TYPES t
  | None => true
  end.

(** The body of the loop of [prepare_param_names]. *)
Fixpoint prepare_param (prefix : option string) (add_option_prefix : bool)
    (param : node) {struct param} : res node :=
  let prepared_param := entries param in
  let new_name :=
    match prefix, d_type (entries param) with
    | Some p, Some _ => p +:+ name param
    | _, _ => name param
    end in
  let prepared_param :=
    match prefix, d_type (entries param) with
    | Some p, Some _ => set_name new_name prepared_param
    | _, _ => prepared_param
    end in
  let! prepared_param :=
    match d_options (entries param) with
    | Given options =>
        if untyped_or_static (entries param) then
          let add_prefix_option := is_selection (entries param) in
          let! new_prefix := form_prefix (name param) prefix VNone in
          let! r := mapM (prepare_param (Some new_prefix) add_prefix_option) options in
          Ok (set_options (Given r) prepared_param)
        else Ok prepared_param
    | _ => Ok prepared_param
    end in
  let! prepared_param :=
    match d_attributes (entries param) with
    | Given attrs =>
        let! new_prefix :=
          attributes_prefix (entries param) new_name prefix add_option_prefix in
        let! r := mapM (prepare_param new_prefix false) attrs in
        Ok (set_attributes (Given r) prepared_param)
    | _ => Ok prepared_param
    end in
  Ok (Node prepared_param).

(** [prepare_param_names(attributes_list, prefix, add_option_prefix)] *)
Definition prepare_param_names (attributes_list : list node) (prefix : option string)
    (add_option_prefix : bool) : res (list node) :=
  mapM (prepare_param prefix add_option_prefix) attributes_list.

(** The names of the parameters of a tree in the order in which
    [flatten] lists them: a parameter, the attributes of its options,
    its own attributes. *)
Fixpoint param_names (n : node) : list string :=
  let list_names :=
    fix list_names (l : list node) : list string :=
      match l with
      | [] => []
      | x :: l' => param_names x ++ list_names l'
      end in
  name n
  :: match d_options (entries n) with
     | Given os =>
         (fix each_option (os : list node) : list string :=
            match os with
            | [] => []
            | o :: os' =>
                match d_attributes (entries o) with
                | Given attrs => list_names attrs
                | _ => []
                end ++ each_option os'
            end) os
     | _ => []
     end
  ++ match d_attributes (entries n) with
     | Given attrs => list_names attrs
     | _ => []
     end.

Fixpoint tree_names (l : list node) : list string :=
  match l with
  | [] => []
  | x :: l' => param_names x ++ tree_names l'
  end.

Definition option_names (o : node) : list string :=
  match d_attributes (entries o) with
  | Given attrs => tree_names attrs
  | _ => []
  end.

Fixpoint options_names (os : list node) : list string :=
  match os with
  | [] => []
  | o :: os' => option_names o ++ options_names os'
  end.

(** A tree as the parameters page gets it: every parameter has a
    type; options are held by parameters of type select or multiple
    select; an option has no type and no options, and a text for its
    value when it has attributes; attributes that are not an empty
    list are held by parameters of type dict. *)
Fixpoint page_node (n : node) : bool :=
  let page_list :=
    fix page_list (l : list node) : bool :=
      match l with
      | [] => true
      | x :: l' => page_node x && page_list l'
      end in
  bool_decide (is_Some (d_type (entries n)))
  && match d_options (entries n) with
     | Given os =>
         is_selection (entries n)
         && (fix each_option (os : list node) : bool :=
               match os with
               | [] => true
               | o :: os' =>
                   bool_decide (d_type (entries o) = None)
                   && negb (bool_decide (is_Some (get_list (d_options (entries o)))))
                   && match d_attributes (entries o) with
                      | Given attrs =>
                          match d_value (entries o) with
                          | Some (VStr _) => page_list attrs
                          | _ => false
                          end
                      | _ => true
                      end
                   && each_option os'
               end) os
     | _ => true
     end
  && match d_attributes (entries n) with
     | Given attrs =>
         (match d_type (entries n) with
          | Some t => ptype_eqb t TYPE_DICT
          | None => false
          end || bool_decide (attrs = []))
         && page_list attrs
     | _ => true
     end.

Definition page_tree (l : list node) : bool := forallb page_node l.

Definition page_option (o : node) : bool :=
  bool_decide (d_type (entries o) = None)
  && negb (bool_decide (is_Some (get_list (d_options (entries o)))))
  && match d_attributes (entries o) with
     | Given attrs =>
         match d_value (entries o) with
         | Some (VStr _) => page_tree attrs
         | _ => false
         end
     | _ => true
     end.

(** A prefix that is [None], empty, or closed by the separator. *)
Definition good_opt (prefix : option string) : bool :=
  match prefix with
  | Some p => good_prefix p
  | None => true
  end.

(** [n], under every good prefix: both functions return, and the flat
    names are the names of the prepared tree. *)
Definition names_agree (n : node) : Prop :=
  page_node n = true → ∀ prefix, good_opt prefix = true →
    ∃ r f, prepare_param prefix false n = Ok r ∧ flatten_param n prefix = Ok f
           ∧ names f = param_names r.

(** A select whose option holds a dictionary parameter with an entry. *)
Definition page_example : list node :=
  [ a_select "model"
      [ an_option "First" "A"
          [ leaf "x" TYPE_FLOAT;
            Node (set_attributes (Given [leaf "k" TYPE_INT])
                    (entries (leaf "w" TYPE_DICT))) ];
        an_option "Second" "B" [] ];
    leaf "dt" TYPE_FLOAT ].

(** ** Further properties of the conversion: definitions *)


(** [k] is the name of a row of [rows], or such a name followed by
    [_gid]. *)
Definition declared `{Natives} (rows : list flat_row) (k : string) : Prop :=
  ∃ row, row ∈ rows ∧ (k = row_name row ∨ k = row_name row +:+ "_gid").

(** The keys that [kwa] has in [c'] and not in [c] satisfy [Pa], and
    those that [kwargs] has in [c'] and not in [c] satisfy [Pk]. *)
Definition grows `{Natives} (Pa Pk : string → Prop) (c c' : conversion) : Prop :=
  (∀ k, is_Some (kwa c' !! k) → is_Some (kwa c !! k) ∨ Pa k)
  ∧ (∀ k, is_Some (kwargs c' !! k) → is_Some (kwargs c !! k) ∨ Pk k).

(** A computation that changes neither [kwa] nor [kwargs]. *)
Definition quiet `{Natives} {A} (m : st conversion A) : Prop :=
  ∀ c, kwa (m c).1 = kwa c ∧ kwargs (m c).1 = kwargs c.

Definition changes `{Natives} {A} (Pa Pk : string → Prop) (m : st conversion A) : Prop :=
  ∀ c, grows Pa Pk c (m c).1.

(** [k] is the name of a row of [rows]. *)
Definition named `{Natives} (rows : list flat_row) (k : string) : Prop :=
  ∃ row, row ∈ rows ∧ k = row_name row.

(** ** Further properties of the submitted texts: definitions *)

(** The character [c] does not occur in [s]. *)
Fixpoint free (c : ascii) (s : string) : bool :=
  match s with
  | EmptyString => true
  | String a s' => negb (Ascii.eqb a c) && free c s'
  end.

(** A text without comma and without square bracket. *)
Definition plain (s : string) : bool := free "," s && free "[" s && free "]" s.

(** ** Further properties of the materialization: definitions *)

(** The option that a dynamic parameter gets: its default, as name
    and as value. *)
Definition dynamic_option (s : string) : node :=
  Node (Dict s None None None None (Some (VStr s)) Missing Missing
             None None None None None None).

Section Found.
Context `{Store}.

(** What [_get_available_datatypes] returns for the parameter [param]
    of type [t], and the log that it leaves. *)
Definition found_for (project_id : Z) (t : ptype) (param : node) : list row * nat :=
  match get_class_instance t with
  | Some data_class =>
      get_values_of_datatype project_id data_class
        (add_visible (d_conditions (entries param))) MAXIMUM_DATA_TYPES_DISPLAYED
  | None => ([], O)
  end.

Definition log_for (t : ptype) (log : list string) : list string :=
  match get_class_instance t with
  | Some _ => log
  | None => log ++ ["Invalid Class specification:" +:+ type_name t]
  end.

(** The options that [_populate_values] makes of the rows. *)
Definition values_for (t : ptype) (category_key : option Z) (rows : list row)
    : list node :=
  (if adds_all category_key (length rows) then [all_option rows] else [])
  ++ map (row_option t None) rows.

End Found.

(** A store that knows no class. *)
Definition empty_store : Store := {|
  display_name_of := λ _ _, None;
  date2string := λ _, "";
  get_category_by_id := λ _, None;
  get_class_instance := λ _, None;
  get_values_of_datatype := λ _ _ _ _, ([], O);
  get_filters_for_type := λ _, VNone;
  FilterChain_datatype := "DataType"
|}.

Definition dynamic_leaf (default : option val) : node :=
  Node (Dict "data" (Some (TYPE_CLASS "tvb.datatypes.Example")) (Some "Data")
             default None None Missing Missing None None (Some (VBool true))
             None None None).

(** A required select without default whose last option is hidden. *)
Definition hidden_option (nm v : string) : node :=
  Node (Dict nm None None None None (Some (VStr v)) Missing Missing
             (Some true) None None None None None).

Definition plain_option (nm v : string) : node :=
  Node (Dict nm None None None None (Some (VStr v)) Missing Missing
             None None None None None None).

Definition required_choice : node :=
  Node (Dict "mode" (Some TYPE_SELECT) (Some "Mode") None (Some true) None
             (Given [plain_option "Fast" "fast"; hidden_option "Debug" "debug"])
             Missing None None None None None None).

(** ** Filling in defaults and flattening: definitions *)

(** The names of a flat list, or the exception raised instead. *)
Definition names_of (m : res (list node)) : res (list string) :=
  match m with
  | Ok l => Ok (names l)
  | Raise e => Raise e
  end.

(** [r] has attributes when [n] has, and they flatten to the same names. *)
Definition same_attributes (n r : node) : Prop :=
  match d_attributes (entries n) with
  | Given ats =>
      ∃ ats', d_attributes (entries r) = Given ats'
              ∧ ∀ prefix, names_of (flatten ats' prefix) = names_of (flatten ats prefix)
  | a => d_attributes (entries r) = a
  end.

(** What [fill_defaults] keeps of a parameter, for [flatten]. *)
Definition same_flat_names (data : gmap string val) (fub : bool) (n : node) : Prop :=
  ∀ r, fill_param data fub n = Ok r →
    (∀ prefix, names_of (flatten_param r prefix) = names_of (flatten_param n prefix))
    ∧ same_attributes n r.

(** ** Default injection, repeated: definitions *)

(** A computation on the submitted dictionary that only adds keys. *)
Definition mono (m : st (gmap string val) unit) : Prop :=
  ∀ kwargs, kwargs ⊆ (m kwargs).1.

(** Once [m] has returned, it changes nothing in the dictionary it has
    left, nor in a larger one. *)
Definition settled (m : st (gmap string val) unit) : Prop :=
  ∀ kwargs kwargs', m kwargs = (kwargs', Ok tt) →
    ∀ kwargs'', kwargs' ⊆ kwargs'' → m kwargs'' = (kwargs'', Ok tt).

(** The body of the loop over the options in [required_options], read
    off that function: [nm] is the name of the entry. *)
Definition option_step (nm : string) (option : node) : st (gmap string val) unit :=
  λ kwargs,
    match d_value (entries option) with
    | None => (kwargs, Raise (KeyError "value"))
    | Some v =>
        match kwargs !! nm with
        | None => (kwargs, Raise (KeyError nm))
        | Some submitted =>
            if py_eq v submitted then
              match d_attributes (entries option) with
              | Given attrs => append_required_defaults (Some attrs) kwargs
              | _ => (kwargs, Ok tt)
              end
            else (kwargs, Ok tt)
        end
    end.

(** ** The conversion of a whole interface: definitions *)

(** The cleaning of [_find_field_submitted_name], asked for the row
    named [flat_name], can remove the submitted key [key]: the name
    holds [_parameters_], and the key starts with the name up to the
    end of that marker followed by [option_], and ends with the rest
    of the name. *)
Definition cleaned_by (flat_name key : string) : bool :=
  PyStr.contains flat_name KEYWORD_PARAMS
  && PyStr.startswith key
       (PyStr.slice_to flat_name (PyStr.find flat_name KEYWORD_PARAMS + 12)
        +:+ KEYWORD_OPTION)
  && PyStr.endswith key
       (PyStr.slice_from flat_name (PyStr.find flat_name KEYWORD_PARAMS + 12)).

Section Interfaces.
Context `{Externals}.

Definition is_dict_row (r : flat_row) : bool :=
  match row_type r with
  | Some TYPE_DICT => true
  | _ => false
  end.

(** The second key under which a row stores a value: a datatype row
    that has a field stores the submitted identifier under its name
    followed by [_gid]. *)
Definition gid_key (r : flat_row) : option string :=
  match row_type r, row_field r with
  | Some (TYPE_CLASS _), Some _ => Some (row_name r +:+ "_gid")
  | _, _ => None
  end.

(** The row [r] does not bear on the key [q]: it has another name, it
    does not store an identifier under [q], it is not a DICT row whose
    name is contained in [q] (such a row takes [q]), and its cleaning
    does not remove [q]. *)
Definition apart (q : string) (r : flat_row) : bool :=
  negb (String.eqb (row_name r) q)
  && negb (bool_decide (gid_key r = Some q))
  && negb (is_dict_row r && PyStr.contains q (row_name r))
  && negb (cleaned_by (row_name r) q).

(** From [c] to [c'], nothing has changed under the key [q], and [q]
    has not been put on the list of names to pass over. *)
Definition kept (q : string) (c c' : conversion) : Prop :=
  kwa c' !! q = kwa c !! q
  ∧ kwargs c' !! q = kwargs c !! q
  ∧ (q ∈ to_skip_dict_subargs c' → q ∈ to_skip_dict_subargs c).

(** From [c] to [c'], the submitted values under the keys without
    [_parameters_] (the keys that name a parent) are the same, and
    the log has only grown. *)
Definition steady (c c' : conversion) : Prop :=
  (∀ p, PyStr.contains p KEYWORD_PARAMS = false → kwargs c' !! p = kwargs c !! p)
  ∧ (∃ extra, log c' = log c ++ extra).

(** What the conversion of the value of the row [r] changes: values
    under the name of the row and its second key, and the log. *)
Definition coerced (r : flat_row) (c c' : conversion) : Prop :=
  kwargs c' = kwargs c
  ∧ to_skip_dict_subargs c' = to_skip_dict_subargs c
  ∧ (∃ extra, log c' = log c ++ extra)
  ∧ (∀ q, q ≠ row_name r → gid_key r ≠ Some q → kwa c' !! q = kwa c !! q).

(** The state that a computation leaves is related by [R] to the one
    it found, whether it returns or raises. *)
Definition leaves {A} (R : conversion → conversion → Prop) (m : st conversion A)
    : Prop :=
  ∀ c, R c (m c).1.

(** The call of [convert_ui_inputs] on an interface that starts with
    the rows [before] has ended at one of these rows, with the
    exception that the row raised. *)
Definition raised_before (before : list flat_row) (submitted : gmap string val)
    (md : metadata) (validation_required : bool) (log0 : list string)
    (c : conversion) (r : res collapsed) : Prop :=
  ∃ e, for_each (convert_row validation_required) before
         (Conversion submitted ∅ [] [] log0 md) = (c, Raise e)
       ∧ r = Raise e.




(** The exceptions that the loop of [convert_ui_inputs] turns into an
    [InvalidParameterException]: all but those of the framework. *)
Definition plain_exception (e : exn) : Prop :=
  (∀ msg, e ≠ InvalidParameterException msg) ∧ (∀ msg, e ≠ TVBException msg)
  ∧ (∀ what, e ≠ OutOfModel what).

End Interfaces.

(** * Properties *)

Lemma flatten_param_eq (param : node) (prefix : option string) :
  flatten_param param prefix =
    (let! from_options :=
       match d_options (entries param) with
       | Given options => flatten_options (name param) prefix options
       | _ => Ok []
       end in
     let! from_attributes := flatten_attributes param prefix in
     Ok (flat_entry param prefix :: from_options ++ from_attributes)).
Proof.
  destruct param as [d]. unfold flatten_attributes.
  destruct d as [nm ty lb df rq vl os ats uh cn dy wa fi dt].
  cbn [flatten_param entries d_options d_attributes]. unfold name. cbn [entries d_name].
  f_equal.
  destruct os as [| |os]; try reflexivity.
  induction os as [|o os IH]; [reflexivity|].
  cbn [flatten_options]. rewrite <- IH. reflexivity.
Qed.

Example flatten_colliding_tree :
  (let! r := flatten colliding_tree None in Ok (names r))
  = Ok ["P"; "P_parameters_option_O_c"; "P_parameters_option_O_c"].
Proof. vm_compute. reflexivity. Qed.

(** ** Strings *)

Section Strings.
Implicit Types a b p s x y : string.

Lemma app_nil_l s : "" +:+ s = s.
Proof. reflexivity. Qed.

Lemma app_cons c a s : String c a +:+ s = String c (a +:+ s).
Proof. reflexivity. Qed.

Lemma app_nil_r s : s +:+ "" = s.
Proof. induction s as [|c s IH]; rewrite ?app_cons; [reflexivity|congruence]. Qed.

Lemma app_assoc a b s : (a +:+ b) +:+ s = a +:+ (b +:+ s).
Proof. induction a as [|c a IH]; rewrite ?app_cons; [reflexivity|congruence]. Qed.

Lemma app_inj_l p x y : p +:+ x = p +:+ y → x = y.
Proof.
  induction p as [|c p IH]; rewrite ?app_cons, ?app_nil_l; [tauto|].
  intros [= H]. auto.
Qed.

Lemma endswith_app a b : b ≠ "" → PyStr.endswith (a +:+ b) b = true.
Proof.
  intros Hb. induction a as [|c a IH]; rewrite ?app_cons, ?app_nil_l.
  - destruct b; [congruence|]. cbn [PyStr.endswith]. now rewrite String.eqb_refl.
  - cbn [PyStr.endswith]. rewrite IH. now destruct (String.eqb _ _).
Qed.

Lemma no_self_app a c s : a ≠ a +:+ String c s.
Proof.
  induction a as [|d a IH]; rewrite ?app_cons, ?app_nil_l; [discriminate|].
  intros [= E]. auto.
Qed.

End Strings.

Ltac str_norm := rewrite ?app_assoc, ?app_cons, ?app_nil_l in *.

(** ** Induction on trees *)

Lemma node_ind1 (P : node → Prop)
    (H : ∀ d, (∀ os, d_options d = Given os → Forall P os) →
              (∀ ats, d_attributes d = Given ats → Forall P ats) →
              P (Node d)) :
  ∀ n, P n.
Proof.
  fix IH 1. intros [[nm ty lb df rq vl os ats uh cn dy wa fi dt]].
  apply H; cbn [d_options d_attributes].
  - destruct os as [| |os]; intros l E; try discriminate.
    assert (Forall P os) as F.
    { clear E. induction os as [|o os IHos]; constructor; [apply IH|apply IHos]. }
    now injection E as <-.
  - destruct ats as [| |ats]; intros l E; try discriminate.
    assert (Forall P ats) as F.
    { clear E. induction ats as [|o ats IHats]; constructor; [apply IH|apply IHats]. }
    now injection E as <-.
Qed.

(** The same, reaching through the options to their attributes. *)
Lemma node_ind2 (P : node → Prop)
    (H : ∀ d, (∀ os o ats, d_options d = Given os → o ∈ os →
                 d_attributes (entries o) = Given ats → Forall P ats) →
              (∀ ats, d_attributes d = Given ats → Forall P ats) →
              P (Node d)) :
  ∀ n, P n.
Proof.
  intros n.
  enough (P n ∧ ∀ ats, d_attributes (entries n) = Given ats → Forall P ats) by tauto.
  induction n as [d Hos Hats] using node_ind1.
  assert (∀ ats, d_attributes d = Given ats → Forall P ats) as Hats'.
  { intros ats E. eapply Forall_impl; [exact (Hats ats E)|]. intros x Hx. apply Hx. }
  split; [|exact Hats'].
  apply H; [|exact Hats'].
  intros os o ats E Ho Ea. specialize (Hos os E).
  rewrite Forall_forall in Hos. exact (proj2 (Hos o Ho) ats Ea).
Qed.

(** ** Flattening *)

Lemma form_prefix_None nm v : form_prefix nm None v = form_prefix nm (Some "") v.
Proof. reflexivity. Qed.

Lemma flat_entry_None n : flat_entry n None = flat_entry n (Some "").
Proof.
  destruct n as [[nm ty lb df rq vl os ats uh cn dy wa fi dt]].
  now destruct ty.
Qed.

Lemma flatten_options_None nm os :
  flatten_options nm None os = flatten_options nm (Some "") os.
Proof.
  induction os as [|o os IH]; [reflexivity|].
  cbn [flatten_options]. rewrite IH. reflexivity.
Qed.

Lemma flatten_param_None n : flatten_param n None = flatten_param n (Some "").
Proof.
  rewrite !flatten_param_eq, flat_entry_None.
  destruct (d_options (entries n)); try reflexivity.
  now rewrite flatten_options_None.
Qed.

Lemma flatten_None l : flatten l None = flatten l (Some "").
Proof.
  induction l as [|n l IH]; [reflexivity|].
  cbn [flatten]. now rewrite IH, flatten_param_None.
Qed.

Lemma form_prefix_good nm p v :
  good_prefix p = true →
  form_prefix nm (Some p) v =
    match v with
    | VNone => Ok (p +:+ nm +:+ KEYWORD_PARAMS)
    | VStr o =>
        Ok ((p +:+ nm +:+ KEYWORD_PARAMS) +:+ KEYWORD_OPTION +:+ o +:+ KEYWORD_SEPARATOR)
    | _ => Raise TypeError
    end.
Proof.
  unfold good_prefix, form_prefix. intros H.
  destruct (String.eqb_spec p "") as [->|Hp]; [reflexivity|].
  cbn [orb] in H. rewrite H. reflexivity.
Qed.

Lemma good_prefix_params p nm : good_prefix (p +:+ nm +:+ KEYWORD_PARAMS) = true.
Proof.
  unfold good_prefix.
  replace (p +:+ nm +:+ KEYWORD_PARAMS)
    with ((p +:+ nm +:+ "_parameters") +:+ KEYWORD_SEPARATOR).
  - rewrite endswith_app by discriminate. apply orb_true_r.
  - unfold KEYWORD_PARAMS, KEYWORD_SEPARATOR. now rewrite !app_assoc.
Qed.

Lemma good_prefix_option q o :
  good_prefix (q +:+ KEYWORD_OPTION +:+ o +:+ KEYWORD_SEPARATOR) = true.
Proof.
  unfold good_prefix.
  replace (q +:+ KEYWORD_OPTION +:+ o +:+ KEYWORD_SEPARATOR)
    with ((q +:+ KEYWORD_OPTION +:+ o) +:+ KEYWORD_SEPARATOR).
  - rewrite endswith_app by discriminate. apply orb_true_r.
  - now rewrite !app_assoc.
Qed.

Lemma names_app a b : names (a ++ b) = names a ++ names b.
Proof. apply map_app. Qed.

Lemma form_prefix_with_separator nm prefix v :
  form_prefix nm prefix v =
    match v with
    | VNone => Ok (with_separator prefix +:+ nm +:+ KEYWORD_PARAMS)
    | VStr o =>
        Ok (with_separator prefix +:+ nm +:+ KEYWORD_PARAMS
              +:+ KEYWORD_OPTION +:+ o +:+ KEYWORD_SEPARATOR)
    | _ => Raise TypeError
    end.
Proof.
  unfold form_prefix, with_separator.
  destruct prefix as [p|];
    [destruct (String.eqb p ""); cbn [negb andb];
       [|destruct (PyStr.endswith p KEYWORD_SEPARATOR); cbn [negb]]|];
    destruct v; try reflexivity; rewrite ?app_assoc; reflexivity.
Qed.

(** C1, as stated, fails: names unique among siblings do not make the
    flat names distinct.  A top-level parameter may carry the very name
    that flattening gives to a parameter nested under an option. *)
Lemma flatten_names_collide :
  ¬ (∀ tree r, sibling_unique tree = true → flatten tree None = Ok r →
       NoDup (names r)).
Proof.
  intros H.
  specialize (H colliding_tree _ eq_refl eq_refl).
  vm_compute in H. apply NoDup_cons in H as [_ H].
  apply NoDup_cons in H as [H _]. apply H. now left.
Qed.

(** ** Loops *)

Section Loops.
Context {S A : Type} (f : A → st S unit).
Context (R : S → S → Prop) (E : exn → Prop).
Context (R_refl : ∀ s, R s s) (R_trans : ∀ s1 s2 s3, R s1 s2 → R s2 s3 → R s1 s3).

Lemma post_ret (a : unit) : post R E (st_ret a).
Proof. intros s. split; [apply R_refl|exact I]. Qed.

Lemma post_bind (m : st S unit) (k : unit → st S unit) :
  post R E m → (∀ a, post R E (k a)) → post R E (st_bind m k).
Proof.
  intros Hm Hk s. unfold st_bind. specialize (Hm s).
  destruct (m s) as [s' [a|e]]; cbn [fst snd] in *; [|exact Hm].
  destruct Hm as [Hm _]. specialize (Hk a s').
  destruct (k a s') as [s'' r]; cbn [fst snd] in *.
  destruct Hk as [Hk Hr]. split; [eapply R_trans; eassumption|exact Hr].
Qed.

Lemma post_for_each l :
  (∀ x, x ∈ l → post R E (f x)) → post R E (for_each f l).
Proof.
  induction l as [|x l IH]; intros H; cbn [for_each].
  - apply post_ret.
  - apply post_bind.
    + apply H. apply elem_of_cons. now left.
    + intros _. apply IH. intros y Hy. apply H. apply elem_of_cons. now right.
Qed.

(** A loop raises when one of its steps does, in every state that the
    earlier steps can leave. *)
Lemma for_each_raises (Inv : S → Prop) l n :
  n ∈ l →
  (∀ x, x ∈ l → post R E (f x)) →
  (∀ s s', Inv s → R s s' → Inv s') →
  (∀ s, Inv s → ∃ e, (f n s).2 = Raise e) →
  ∀ s, Inv s → ∃ e, (for_each f l s).2 = Raise e ∧ E e.
Proof.
  intros Hn Hp Hinv Hraise.
  induction l as [|x l IH]; [inversion Hn|]. intros s Hs.
  cbn [for_each]. unfold st_bind.
  assert (post R E (f x)) as Hx by (apply Hp, elem_of_cons; now left).
  specialize (Hx s).
  apply elem_of_cons in Hn as [->|Hn].
  - destruct (Hraise s Hs) as [e He].
    destruct (f x s) as [s' r]; cbn [fst snd] in *. subst r.
    exists e. split; [reflexivity|apply Hx].
  - destruct (f x s) as [s' [[]|e]]; cbn [fst snd] in *.
    + apply IH; [assumption| |eapply Hinv; [eassumption|apply Hx]].
      intros y Hy. apply Hp, elem_of_cons. now right.
    + exists e. split; [reflexivity|apply Hx].
Qed.

End Loops.

(** ** Default injection *)

Lemma injects_refl Q s : injects Q s s.
Proof. split; [reflexivity|]. intros k v H1 H2. congruence. Qed.

Lemma injects_trans Q s1 s2 s3 :
  injects Q s1 s2 → injects Q s2 s3 → injects Q s1 s3.
Proof.
  intros [S12 P12] [S23 P23]. split; [etransitivity; eassumption|].
  intros k v H3 H1. destruct (s2 !! k) as [w|] eqn:H2.
  - rewrite (lookup_weaken _ _ _ _ H2 S23) in H3.
    injection H3 as <-. now apply P12.
  - now apply P23.
Qed.

Lemma add_default_post (Q : node → Prop) e :
  Q e → post (injects Q) is_KeyError (add_default e).
Proof.
  intros He s. unfold add_default.
  destruct (s !! name e) as [w|] eqn:Hs;
    [split; [apply injects_refl|exact I]|].
  destruct (d_required (entries e)) as [[|]|] eqn:Hr;
    try (split; [apply injects_refl|exact I]).
  destruct (d_default (entries e)) as [dv|] eqn:Hd;
    [|split; [apply injects_refl|exact I]].
  destruct (d_type (entries e)) as [t|] eqn:Ht;
    [|split; [apply injects_refl|now eexists]].
  destruct (ptype_eqb t TYPE_DICT) eqn:Hty;
    [split; [apply injects_refl|exact I]|].
  split; [|exact I]. cbn [fst]. split; [now apply insert_subseteq|].
  intros k v Hk Hk'. apply lookup_insert_Some in Hk as [[<- <-]|[_ Hk]];
    [|congruence].
  exists e. repeat split; try assumption.
  exists t. split; [assumption|]. intros ->. discriminate.
Qed.

Lemma required_options_post (Q : node → Prop) n :
  (∀ os o ats m, d_options (entries n) = Given os → o ∈ os →
     d_attributes (entries o) = Given ats → in_tree m ats → Q m) →
  post (injects Q) is_KeyError (required_options n).
Proof.
  revert Q. induction n as [d IHos _] using node_ind2. intros Q HQ.
  destruct d as [nm ty lb df rq vl os ats uh cn dy wa fi dt].
  cbn [required_options entries d_required d_options] in *.
  destruct rq as [[|]|]; try (apply post_ret; apply injects_refl).
  destruct os as [| |os]; try (apply post_ret; apply injects_refl).
  apply post_for_each; [apply injects_refl|apply injects_trans|].
  intros o Ho s.
  destruct (d_value (entries o)) as [v|];
    [|split; [apply injects_refl|now eexists]].
  destruct (s !! name _) as [w|];
    [|split; [apply injects_refl|now eexists]].
  destruct (py_eq v w); [|split; [apply injects_refl|exact I]].
  destruct (d_attributes (entries o)) as [| |attrs] eqn:Ha;
    try (split; [apply injects_refl|exact I]).
  apply post_bind; [apply injects_trans| |intros _].
  - apply post_for_each; [apply injects_refl|apply injects_trans|].
    intros x Hx. apply add_default_post.
    eapply HQ; [reflexivity|exact Ho|exact Ha|]. now apply in_here.
  - apply post_for_each; [apply injects_refl|apply injects_trans|].
    intros x Hx.
    pose proof (IHos os o attrs eq_refl Ho Ha) as F.
    rewrite Forall_forall in F. apply (F x Hx).
    intros os' o' ats' m Eos' Ho' Ea' Hm.
    eapply HQ; [reflexivity|exact Ho|exact Ha|].
    eapply in_option; eassumption.
Qed.

Lemma append_required_defaults_post tree :
  post (injects (λ m, in_tree m tree)) is_KeyError
    (append_required_defaults (Some tree)).
Proof.
  unfold append_required_defaults.
  apply post_bind; [apply injects_trans| |intros _];
    (apply post_for_each; [apply injects_refl|apply injects_trans|]).
  - intros x Hx. apply add_default_post. now apply in_here.
  - intros x Hx. apply required_options_post.
    intros os o ats m Eos Ho Ea Hm. eapply in_option; eassumption.
Qed.

Lemma ptype_eqb_DICT t : ptype_eqb t TYPE_DICT = true → t = TYPE_DICT.
Proof. now destruct t. Qed.

Lemma add_default_other e s k :
  k ≠ name e → (add_default e s).1 !! k = s !! k.
Proof.
  intros Hk. unfold add_default.
  destruct (s !! name e); [reflexivity|].
  destruct (d_required (entries e)) as [[|]|]; try reflexivity.
  destruct (d_default (entries e)); [|reflexivity].
  destruct (d_type (entries e)) as [t|]; [|reflexivity].
  destruct (ptype_eqb t TYPE_DICT); [reflexivity|].
  cbn [fst]. now apply lookup_insert_ne.
Qed.

Lemma add_defaults_present l n dv :
  NoDup (names l) → n ∈ l →
  d_required (entries n) = Some true → d_default (entries n) = Some dv →
  d_type (entries n) ≠ Some TYPE_DICT →
  ∀ s s', s !! name n = None →
    for_each add_default l s = (s', Ok tt) → s' !! name n = Some dv.
Proof.
  intros ND Hn Hr Hd Ht.
  induction l as [|x l IH]; [inversion Hn|]. intros s s' Hs.
  cbn [names map] in ND. apply NoDup_cons in ND as [Hx ND].
  cbn [for_each]. unfold st_bind.
  apply elem_of_cons in Hn as [<-|Hn].
  - unfold add_default at 1. rewrite Hs, Hr, Hd.
    destruct (d_type (entries n)) as [t|]; [|discriminate].
    destruct (ptype_eqb t TYPE_DICT) eqn:Hty;
      [apply ptype_eqb_DICT in Hty; congruence|].
    intros E.
    pose proof (post_for_each add_default (injects (λ _, True)) is_KeyError
                  (injects_refl _) (injects_trans _) l) as Hp.
    destruct (Hp (λ x _, add_default_post _ x I) (<[name n:=dv]> s)) as [[Hsub _] _].
    rewrite E in Hsub. cbn [fst] in Hsub.
    eapply lookup_weaken; [|exact Hsub]. apply lookup_insert_eq.
  - pose proof (add_default_other x s (name n)) as Ho.
    destruct (add_default x s) as [s1 [[]|e]]; [|discriminate].
    cbn [fst] in Ho. apply IH; [assumption..|].
    rewrite Ho; [assumption|]. intros E. apply Hx. rewrite <- E.
    apply list_elem_of_In, in_map, list_elem_of_In, Hn.
Qed.

Example append_required_defaults_required_tree :
  append_required_defaults (Some required_tree) {["z" := VInt 9]}
  = ({["z" := VInt 9; "a" := VInt 1; "s" := VStr "o1"; "b" := VInt 2]}, Ok tt).
Proof. vm_compute. reflexivity. Qed.

(** C4: after [append_required_defaults(kwargs, tree)], for a tree
    whose top-level names are distinct: every key that [kwargs] had
    keeps its value; when the call returns, every top-level node that
    is required, declares a default, is not of type DICT and was
    absent from [kwargs] is mapped to its default; and every key that
    was added is the name of a required parameter of the tree that is
    not of type DICT, mapped to that parameter's default, so that a
    name carried by DICT parameters only is never added. *)
Theorem append_required_defaults_adds (tree : list node) (kwargs : gmap string val) :
  NoDup (names tree) →
  (∀ k v, kwargs !! k = Some v →
     (append_required_defaults (Some tree) kwargs).1 !! k = Some v)
  ∧ ((append_required_defaults (Some tree) kwargs).2 = Ok tt →
     ∀ n dv, n ∈ tree → kwargs !! name n = None →
       d_required (entries n) = Some true → d_default (entries n) = Some dv →
       d_type (entries n) ≠ Some TYPE_DICT →
       (append_required_defaults (Some tree) kwargs).1 !! name n = Some dv)
  ∧ (∀ k v, (append_required_defaults (Some tree) kwargs).1 !! k = Some v →
       kwargs !! k = None →
       ∃ m, in_tree m tree ∧ name m = k ∧ defaulted m v)
  ∧ (∀ k, kwargs !! k = None →
       (∀ m, in_tree m tree → name m = k → d_type (entries m) = Some TYPE_DICT) →
       (append_required_defaults (Some tree) kwargs).1 !! k = None).
Proof.
  intros ND.
  destruct (append_required_defaults_post tree kwargs) as [[Hsub Hnew] _].
  split; [|split; [|split]].
  - intros k v Hk. eapply lookup_weaken; eassumption.
  - intros Hok n dv Hn Hk Hr Hd Ht.
    unfold append_required_defaults, st_bind in *.
    destruct (for_each add_default tree kwargs) as [s1 [[]|e]] eqn:E1;
      [|discriminate].
    pose proof (add_defaults_present tree n dv ND Hn Hr Hd Ht kwargs s1 Hk E1) as H1.
    pose proof (post_for_each required_options (injects (λ _, True)) is_KeyError
                  (injects_refl _) (injects_trans _) tree) as Hp.
    destruct (Hp (λ x _, required_options_post _ x (λ _ _ _ _ _ _ _ _, I)) s1)
      as [[Hs _] _].
    eapply lookup_weaken; eassumption.
  - exact Hnew.
  - intros k Hk Hall.
    destruct ((append_required_defaults (Some tree) kwargs).1 !! k) as [v|] eqn:E;
      [|reflexivity].
    destruct (Hnew k v E Hk) as (m & Hm & Hnm & _ & _ & t & Ht & Hne).
    rewrite (Hall m Hm Hnm) in Ht. congruence.
Qed.

Lemma append_required_defaults_adds_witness :
  NoDup (names required_tree)
  ∧ (append_required_defaults (Some required_tree) {["z" := VInt 9]}).1 !! "z"
    = Some (VInt 9)
  ∧ (append_required_defaults (Some required_tree) {["z" := VInt 9]}).1 !! "a"
    = Some (VInt 1)
  ∧ (append_required_defaults (Some required_tree) {["z" := VInt 9]}).1 !! "d"
    = None.
Proof.
  assert (NoDup (names required_tree)) as ND
    by (apply (bool_decide_unpack _); vm_compute; exact I).
  destruct (append_required_defaults_adds required_tree {["z" := VInt 9]} ND)
    as (H1 & H2 & _ & H4).
  split; [exact ND|]. split; [|split].
  - apply H1. reflexivity.
  - apply (H2 eq_refl (required_leaf "a" TYPE_INT (VInt 1)) (VInt 1));
      [apply elem_of_cons; now left|reflexivity..|discriminate].
  - vm_compute. reflexivity.
Defined.

Lemma required_options_raises n o os s :
  d_required (entries n) = Some true →
  d_options (entries n) = Given (o :: os) →
  s !! name n = None →
  ∃ e, (required_options n s).2 = Raise e.
Proof.
  destruct n as [[nm ty lb df rq vl ops ats uh cn dy wa fi dt]].
  unfold name. cbn [entries d_required d_options d_name]. intros -> -> Hs.
  cbn [required_options entries d_required d_options for_each].
  unfold st_bind, name. cbn [entries d_name].
  destruct (d_value (entries o)); [|now eexists].
  rewrite Hs. now eexists.
Qed.

(** C10, as stated, fails: a required parameter with an option,
    without default and absent from [kwargs] does not always make [append_required_defaults]
    fail, even when names are unique among siblings: in
    [shadow_tree] the recursion into the selected option of the
    sibling [t] maps the name [s] before the second loop reaches the
    parameter [s], and the call returns with [t] and [s] added. *)
Lemma required_options_may_return :
  ¬ (∀ (tree : list node) (kwargs : gmap string val) (n o : node) (os : list node),
       sibling_unique tree = true →
       n ∈ tree →
       d_required (entries n) = Some true →
       d_options (entries n) = Given (o :: os) →
       d_default (entries n) = None →
       kwargs !! name n = None →
       ∃ e, (append_required_defaults (Some tree) kwargs).2 = Raise e).
Proof.
  intros Hall.
  destruct (Hall shadow_tree ∅
              (required_select "s" None
                 [an_option "first" "o1" [required_leaf "b" TYPE_INT (VInt 2)]])
              (an_option "first" "o1" [required_leaf "b" TYPE_INT (VInt 2)]) [])
    as [e He]; try reflexivity.
  - apply elem_of_cons. right. apply elem_of_cons. now left.
  - vm_compute in He. discriminate.
Qed.

(** C10, amended: [append_required_defaults] reads [kwargs[name]]
    unguarded in its second loop.  If a required node of the list
    carries at least one option, its name is absent from [kwargs], and no parameter of
    the tree with that name declares a default (so that nothing maps
    the name in the first loop or in a recursive call), then the call
    does not skip the node: it raises a [KeyError]. *)
Theorem append_required_defaults_KeyError (tree : list node)
    (kwargs : gmap string val) (n o : node) (os : list node) :
  n ∈ tree →
  d_required (entries n) = Some true →
  d_options (entries n) = Given (o :: os) →
  kwargs !! name n = None →
  (∀ m, in_tree m tree → name m = name n → d_default (entries m) = None) →
  ∃ k, (append_required_defaults (Some tree) kwargs).2 = Raise (KeyError k).
Proof.
  intros Hn Hr Ho Hk Hnd.
  set (Q := λ m, in_tree m tree).
  assert (∀ s s', s !! name n = None → injects Q s s' → s' !! name n = None)
    as Hinv.
  { intros s s' Hs [_ Hnew]. destruct (s' !! name n) as [v|] eqn:E; [|reflexivity].
    destruct (Hnew _ _ E Hs) as (m & Hm & Hnm & _ & Hd & _).
    rewrite (Hnd m Hm Hnm) in Hd. discriminate. }
  unfold append_required_defaults, st_bind.
  pose proof (post_for_each add_default (injects Q) is_KeyError
                (injects_refl _) (injects_trans _) tree
                (λ x Hx, add_default_post Q x (in_here _ _ Hx)) kwargs) as H1.
  destruct (for_each add_default tree kwargs) as [s1 [[]|e]]; cbn [fst snd] in *.
  - destruct (for_each_raises required_options (injects Q) is_KeyError
                (λ s, s !! name n = None) tree n)
      with (s := s1) as (e & He & [k ->]).
    + exact Hn.
    + intros x Hx. apply required_options_post.
      intros os' o' ats m Eos Ho' Ea Hm. eapply in_option; eassumption.
    + exact Hinv.
    + intros s Hs. eapply required_options_raises; eassumption.
    + eapply Hinv; [exact Hk|apply H1].
    + exists k. destruct (for_each required_options tree s1). exact He.
  - destruct H1 as [_ [k ->]]. now exists k.
Qed.

Lemma append_required_defaults_KeyError_witness :
  ∃ k, (append_required_defaults (Some undefaulted_tree) ∅).2 = Raise (KeyError k).
Proof.
  apply (append_required_defaults_KeyError undefaulted_tree ∅
           (required_select "s" None
              [an_option "first" "o1" [required_leaf "b" TYPE_INT (VInt 2)]])
           (an_option "first" "o1" [required_leaf "b" TYPE_INT (VInt 2)]) []).
  - apply elem_of_cons. right. apply elem_of_cons. now left.
  - reflexivity.
  - reflexivity.
  - reflexivity.
  - intros m Hm Hnm.
    assert (∀ l, in_tree m l → Forall (λ x, name x = "s" → d_default (entries x) = None) l
              → (∀ x os o ats, x ∈ l → d_options (entries x) = Given os → o ∈ os →
                   d_attributes (entries o) = Given ats →
                   Forall (λ y, name y ≠ "s" ∧ d_options (entries y) = Missing
                                ∧ d_attributes (entries y) = Missing) ats)
              → (∀ x, x ∈ l → d_attributes (entries x) = Missing)
              → name m = "s" → d_default (entries m) = None) as Hgen.
    { intros l Hl F Hopt Hatt Es. destruct Hl as [l Hl|l x os o ats Hx Eo Ho Ea Hl|l x ats Hx Ea Hl].
      - rewrite Forall_forall in F. now apply F.
      - specialize (Hopt x os o ats Hx Eo Ho Ea). rewrite Forall_forall in Hopt.
        destruct Hl as [? Hl|? y ? ? ? Hy Eo' _ _ _|? y ? Hy Ea' _].
        + destruct (Hopt _ Hl) as [Hne _]. contradiction.
        + destruct (Hopt _ Hy) as (_ & E & _). congruence.
        + destruct (Hopt _ Hy) as (_ & _ & E). congruence.
      - rewrite (Hatt x Hx) in Ea. discriminate. }
    apply (Hgen undefaulted_tree Hm); [| | |exact Hnm].
    + repeat constructor; discriminate.
    + intros x os o ats Hx Eo Ho Ea.
      repeat (apply elem_of_cons in Hx as [->|Hx]); [discriminate| |inversion Hx].
      injection Eo as <-.
      repeat (apply elem_of_cons in Ho as [->|Ho]); [|inversion Ho].
      injection Ea as <-. repeat constructor; discriminate.
    + intros x Hx.
      repeat (apply elem_of_cons in Hx as [->|Hx]); [reflexivity..|inversion Hx].
Defined.

(** ** Filling in defaults *)

Lemma fill_param_eq data fub (param : node) :
  fill_param data fub param =
    (let new_p :=
       match data !! name param with
       | Some v => set_default v (entries param)
       | None => entries param
       end in
     let! new_p :=
       match d_attributes (entries param) with
       | Given attrs =>
           let! r := fill_defaults attrs data fub in
           Ok (set_attributes (Given r) new_p)
       | _ => Ok new_p
       end in
     let! new_p :=
       match d_options (entries param) with
       | Given options =>
           let! new_options :=
             if bool_decide (is_Some (data !! name param)) || fub
             then
               let! selected := selected_values data (entries param) in
               mapM (fill_option data fub selected) options
             else Ok options in
           Ok (set_options (Given new_options) new_p)
       | _ => Ok new_p
       end in
     Ok (Node new_p)).
Proof. now destruct param as [[nm ty lb df rq vl os ats uh cn dy wa fi dt]]. Qed.

Ltac case_res H :=
  unfold res_bind in H;
  repeat match type of H with
    | context [match ?x with _ => _ end] =>
        lazymatch x with
        | context [match _ with _ => _ end] => fail
        | _ => destruct x eqn:?; try discriminate H
        end
    end.

(** [fill_defaults] keeps the value under ['value']. *)
Lemma fill_param_value data fub n r :
  fill_param data fub n = Ok r → d_value (entries r) = d_value (entries n).
Proof.
  rewrite fill_param_eq. destruct n as [d]. cbn [entries]. cbv zeta.
  intros H. case_res H; injection H as <-; reflexivity.
Qed.

Lemma mapM_idem {A} (f : A → res A) l l' :
  Forall (λ x, ∀ y, f x = Ok y → f y = Ok y) l →
  mapM f l = Ok l' → mapM f l' = Ok l'.
Proof.
  intros F. revert l'. induction F as [|x l Hx F IH]; intros l' H; cbn [mapM] in H.
  - now injection H as <-.
  - destruct (f x) as [y|] eqn:Ey; [|discriminate]. cbn [res_bind] in H.
    destruct (mapM f l) as [ys|] eqn:Eys; [|discriminate]. cbn [res_bind] in H.
    injection H as <-. cbn [mapM]. now rewrite (Hx y eq_refl), (IH ys eq_refl).
Qed.

Lemma fill_option_idem data fub sel o :
  (∀ r, fill_param data fub o = Ok r → fill_param data fub r = Ok r) →
  ∀ y, fill_option data fub sel o = Ok y → fill_option data fub sel y = Ok y.
Proof.
  intros IH y H. unfold fill_option in *.
  destruct (get_value (entries o)) as [v|] eqn:Ev; [|discriminate].
  cbn [res_bind] in H.
  destruct (py_in v sel) as [b|] eqn:Eb; [|discriminate]. cbn [res_bind] in H.
  destruct (b || fub) eqn:Ebf.
  - unfold get_value in *. rewrite (fill_param_value _ _ _ _ H).
    destruct (d_value (entries o)); [|discriminate]. injection Ev as ->.
    cbn [res_bind]. rewrite Eb. cbn [res_bind]. rewrite Ebf. now apply IH.
  - injection H as <-. rewrite Ev. cbn [res_bind]. rewrite Eb. cbn [res_bind].
    now rewrite Ebf.
Qed.

Lemma fill_param_idem data fub n :
  ∀ r, fill_param data fub n = Ok r → fill_param data fub r = Ok r.
Proof.
  induction n as [d IHos IHats] using node_ind1. intros r H.
  rewrite fill_param_eq in H. cbv zeta in H.
  destruct d as [nm ty lb df rq vl os ats uh cn dy wa fi dt].
  unfold selected_values, get_type, name in *.
  cbn [entries d_name d_type d_options d_attributes] in *.
  assert (∀ ats', ats = Given ats' → ∀ l, fill_defaults ats' data fub = Ok l →
            fill_defaults l data fub = Ok l) as Hats.
  { intros ats' E l Hl. eapply mapM_idem; [|exact Hl]. exact (IHats ats' E). }
  assert (∀ os' sel, os = Given os' → ∀ l,
            mapM (fill_option data fub sel) os' = Ok l →
            mapM (fill_option data fub sel) l = Ok l) as Hos.
  { intros os' sel E l Hl. eapply mapM_idem; [|exact Hl].
    eapply Forall_impl; [exact (IHos os' E)|].
    intros o Ho. now apply fill_option_idem. }
  clear IHos IHats.
  destruct (data !! nm) as [v|] eqn:Hd;
    destruct ats as [| |ats]; destruct os as [| |os];
    unfold set_default, set_attributes, set_options in H;
    cbn [d_name d_type d_label d_default d_required d_value d_options d_attributes
         d_ui_hidden d_conditions d_dynamic d_warning d_filterable d_datatype] in H;
    case_res H; injection H as <-;
    rewrite fill_param_eq; cbv zeta;
    unfold selected_values, get_type, name, set_default, set_attributes, set_options;
    cbn [entries res_bind
         d_name d_type d_label d_default d_required d_value d_options d_attributes
         d_ui_hidden d_conditions d_dynamic d_warning d_filterable d_datatype];
    rewrite ?Hd;
    repeat match goal with
      | E : fill_defaults ?a data fub = Ok ?l |- _ =>
          rewrite (Hats a eq_refl l E); clear E; cbn [res_bind]
      | E : mapM (fill_option data fub ?sel) ?o = Ok ?l |- _ =>
          rewrite (Hos o sel eq_refl l E); clear E; cbn [res_bind]
      | E : ?x = _ |- context [?x] => rewrite E; cbn [res_bind]
      end;
    try reflexivity.
Qed.

(** C8: [fill_defaults] is idempotent.  For every tree, every data
    mapping and both values of [fill_unselected_branches], applying
    [fill_defaults] to its own result gives that result again; when
    the first call raises, so does the composition, with the same
    exception. *)
Theorem fill_defaults_idempotent (tree : list node) (data : gmap string val)
    (fill_unselected_branches : bool) :
  (let! once := fill_defaults tree data fill_unselected_branches in
   fill_defaults once data fill_unselected_branches)
  = fill_defaults tree data fill_unselected_branches.
Proof.
  destruct (fill_defaults tree data fill_unselected_branches) as [r|e] eqn:E;
    [|reflexivity].
  cbn [res_bind]. eapply mapM_idem; [|exact E].
  apply Forall_forall. intros n _. apply fill_param_idem.
Qed.

(** ** The store *)

Section Frame.
Context (K : obj → Prop) (n : nat).


















End Frame.






Example fill_defaults_in_select_heap :
  fill_defaults_in 2 0%nat {["s" := VStr "o1"]} false select_heap
  = ([ OList [1%nat];
       ODict (Dict "s" (Some TYPE_SELECT) None None None None (Given 2%nat) Missing
                   None None None None None None);
       OList [8%nat];
       ODict (Dict "first" None None None None (Some (VStr "o1")) Missing Missing
                   None None None None None None);
       OList [5%nat];
       ODict (Dict "s" (Some TYPE_SELECT) None (Some (VStr "o1")) None None
                   (Given 2%nat) Missing None None None None None None);
       OList [3%nat];
       OList [8%nat];
       ODict (Dict "first" None None None None (Some (VStr "o1")) Missing Missing
                   None None None None None None) ],
     Ok 4%nat).
Proof. vm_compute. reflexivity. Qed.

(** *** What [fill_defaults] returns *)


Section Copies.
Context (n : nat).

Lemma copies_refl h :
  (∀ p d, h !! p = Some (ODict d) → options_below n d) → copies n h h.
Proof.
  intros Hc. split; [lia|]. split; [exact Hc|]. split; [auto|].
  intros p l _ Hp. exists l. split; [exact Hp|auto].
Qed.

Lemma copies_trans h1 h2 h3 : copies n h1 h2 → copies n h2 h3 → copies n h1 h3.
Proof.
  intros (L1 & C1 & D1 & F1) (L2 & C2 & D2 & F2).
  split; [lia|]. split; [exact C2|]. split; [auto|].
  intros p l Hp Hl. destruct (F1 p l Hp Hl) as (l' & Hl' & H1).
  destruct (F2 p l' Hp Hl') as (l'' & Hl'' & H2).
  exists l''. split; [exact Hl''|]. intros x Hx.
  destruct (H2 x Hx) as [Hx'|Hf]; [|now right].
  destruct (H1 x Hx') as [Hx0|[Hn Hd]]; [now left|].
  right. split; [exact Hn|auto].
Qed.



Lemma hoare_bind {A B} (P : heap → Prop) (Q : heap → A → Prop) (R : heap → B → Prop)
    (c : st heap A) (k : A → st heap B) :
  hoare n P c Q → (∀ a, hoare n (λ h, Q h a) (k a) R) → hoare n P (st_bind c k) R.
Proof.
  intros Hc Hk h Hh Hcl HP. unfold st_bind.
  destruct (Hc h Hh Hcl HP) as [C1 R1].
  destruct (c h) as [h1 [a|e]]; cbn [fst snd] in *; [|split; [exact C1|exact I]].
  destruct (Hk a h1) as [C2 R2];
    [destruct C1; lia|exact (proj1 (proj2 C1))|exact R1|].
  destruct (k a h1) as [h2 r]; cbn [fst snd] in *.
  split; [eapply copies_trans; eassumption|exact R2].
Qed.


(** A fact that does not depend on the store. *)
Lemma hoare_pure {A} (φ : Prop) (P : heap → Prop) (Q : heap → A → Prop) (c : st heap A) :
  (φ → hoare n P c Q) → hoare n (λ h, P h ∧ φ) c Q.
Proof. intros Hc h Hh Hcl [HP Hφ]. now apply Hc. Qed.


Lemma hoare_skip {A} (P : heap → Prop) (a : A) : hoare n P (st_ret a) (λ h _, P h).
Proof. intros h Hh Hcl HP. split; [now apply copies_refl|exact HP]. Qed.

Lemma hoare_raise {A} (P : heap → Prop) (Q : heap → A → Prop) e :
  hoare n P (st_raise e) Q.
Proof. intros h Hh Hcl HP. split; [now apply copies_refl|exact I]. Qed.

Lemma hoare_lift {A} (P : heap → Prop) (r : res A) :
  hoare n P (lift r) (λ h _, P h).
Proof.
  intros h Hh Hcl HP. split; [now apply copies_refl|]. cbn. now destruct r.
Qed.

Lemma hoare_read_dict (P : heap → Prop) p :
  hoare n P (read_dict p) (λ h d, P h ∧ options_below n d).
Proof.
  intros h Hh Hcl HP. unfold read_dict.
  destruct (h !! p) as [[d|l]|] eqn:E; cbn [fst snd];
    (split; [now apply copies_refl|]); try exact I.
  split; [exact HP|eauto].
Qed.

Lemma hoare_read_list (P : heap → Prop) p :
  hoare n P (read_list p) (λ h _, P h).
Proof.
  intros h Hh Hcl HP. unfold read_list.
  destruct (h !! p) as [[d|l]|] eqn:E; cbn [fst snd];
    (split; [now apply copies_refl|]); try exact I.
  exact HP.
Qed.












End Copies.



Lemma hoare_read_dict_then n {B} (P : heap → Prop) (R : heap → B → Prop) p
    (k : dict loc → st heap B) :
  (∀ d, options_below n d → hoare n P (k d) R) →
  hoare n P (st_bind (read_dict p) k) R.
Proof.
  intros Hk. eapply hoare_bind; [apply hoare_read_dict|].
  intros d. apply (hoare_pure n (options_below n d) P R). apply Hk.
Qed.

Lemma hoare_then n {A B} (P : heap → Prop) (R : heap → B → Prop)
    (c : st heap A) (k : A → st heap B) :
  hoare n P c (λ h _, P h) → (∀ a, hoare n P (k a) R) → hoare n P (st_bind c k) R.
Proof. intros Hc Hk. eapply hoare_bind; [exact Hc|]. intros a. apply Hk. Qed.

Ltac hoare_step :=
  first
    [ apply hoare_skip
    | apply hoare_raise
    | apply hoare_read_dict_then; intros ? ?
    | apply hoare_then; [first [apply hoare_lift | apply hoare_read_list]|intros ?] ].





(** C7, as stated, fails: with [coupling] unchecked and saved as
    [linear], the attributes [a] and [b] of the option are returned
    only if they are checked themselves; with nothing else in the
    selection dictionary the returned list is empty. *)
Lemma promoted_only_if_checked :
  ¬ (∀ sd label_a label_b,
       sd !! "coupling" = Some (Selection false (VStr "linear")) →
       ∃ h' r items,
         select_simulator_inputs 3 (Some 0%nat) sd "" (coupling_heap label_a label_b)
         = (h', Ok (Some r))
         ∧ h' !! r = Some (OList items) ∧ 6%nat ∈ items ∧ 7%nat ∈ items).
Proof.
  intros H.
  destruct (H {["coupling" := Selection false (VStr "linear")]} "A" "B")
    as (h' & r & items & E & Hr & H6 & _); [reflexivity|].
  vm_compute in E. injection E as <- <-. vm_compute in Hr. injection Hr as <-.
  inversion H6.
Qed.

(** C7, amended: given the field [coupling] with the options [linear]
    and [sigmoidal], [coupling] unchecked with the saved value
    [linear], the option [linear] carrying the attributes [a] and [b],
    and [a] and [b] checked themselves, the returned list holds [a]
    and [b] and not [coupling]; the label of each is [linear__]
    followed by its label (the option's value, a separator, the empty
    prefix, a separator), and its default is its saved value. *)
Theorem select_simulator_inputs_promotes (label_a label_b : string)
    (saved_a saved_b : val) (fuel : nat) :
  select_simulator_inputs (S (S fuel)) (Some 0%nat)
    {[ "coupling" := Selection false (VStr "linear");
       "a" := Selection true saved_a;
       "b" := Selection true saved_b ]}
    "" (coupling_heap label_a label_b)
  = ([ OList [1%nat];
       ODict (Dict "coupling" (Some TYPE_SELECT) (Some "Coupling") None None None
                   (Given 2%nat) Missing None None None None None None);
       OList [3%nat; 4%nat];
       ODict (Dict "Linear" None None None None (Some (VStr "linear")) Missing
                   (Given 5%nat) None None None None None None);
       ODict (Dict "Sigmoidal" None None None None (Some (VStr "sigmoidal")) Missing
                   Missing None None None None None None);
       OList [6%nat; 7%nat];
       ODict (set_default saved_a
                (set_label ("linear__" +:+ label_a) (sim_leaf "a" label_a)));
       ODict (set_default saved_b
                (set_label ("linear__" +:+ label_b) (sim_leaf "b" label_b)));
       OList [6%nat; 7%nat];
       OList [6%nat; 7%nat] ],
     Ok (Some 8%nat)).
Proof. destruct fuel; vm_compute; reflexivity. Qed.

(** ** Option materialization *)

Lemma length_app_string a b :
  String.length (a +:+ b) = (String.length a + String.length b)%nat.
Proof.
  induction a as [|c a IH]; rewrite ?app_cons, ?app_nil_l; [reflexivity|].
  cbn [String.length]. now rewrite IH.
Qed.

Lemma take_app_string a b : PyStr.take (String.length a) (a +:+ b) = a.
Proof.
  induction a as [|c a IH]; rewrite ?app_cons, ?app_nil_l; [reflexivity|].
  cbn [String.length PyStr.take]. now rewrite IH.
Qed.

(** [(s + ',')[:-1]] is [s]. *)
Lemma slice_to_comma s : PyStr.slice_to (s +:+ ",") (-1) = s.
Proof.
  unfold PyStr.slice_to, PyStr.bound. cbn [Z.ltb Z.compare].
  rewrite length_app_string. cbn [String.length].
  replace (Z.to_nat (Z.of_nat (String.length s + 1) + -1)) with (String.length s)
    by lia.
  apply take_app_string.
Qed.

Lemma all_field_values_acc l acc :
  all_field_values l acc = acc +:+ all_field_values l "".
Proof.
  revert acc. induction l as [|v l IH]; intros acc; cbn [all_field_values].
  - now rewrite app_nil_r.
  - rewrite IH, (IH ("" +:+ _)). now rewrite !app_assoc, ?app_nil_l.
Qed.

Lemma all_field_values_join l :
  l ≠ [] →
  all_field_values l "" = PyStr.join "," (map value_2 l) +:+ ",".
Proof.
  induction l as [|v l IH]; [congruence|]. intros _.
  cbn [all_field_values map]. rewrite all_field_values_acc, app_nil_l.
  destruct l as [|w l]; [cbn [all_field_values PyStr.join]; now rewrite app_nil_r|].
  rewrite IH by discriminate. cbn [PyStr.join map].
  now rewrite !app_assoc.
Qed.

Section Materialized.
Context `{Store}.

Lemma populate_values_eq data_list t category_key complex :
  (∀ key, category_key = Some key → is_Some (get_category_by_id key)) →
  _populate_values data_list t category_key complex
  = Ok ((if adds_all category_key (length data_list)
         then [all_option data_list] else [])
        ++ map (row_option t complex) data_list).
Proof.
  intros Hc. unfold _populate_values, adds_all.
  destruct category_key as [key|]; [|reflexivity].
  destruct (Hc key eq_refl) as [c ->].
  destruct (negb (display c) && negb (rawinput c)); [|reflexivity].
  cbn [andb]. destruct (bool_decide (1 < length data_list)%nat) eqn:E;
    [|reflexivity].
  apply bool_decide_eq_true in E. unfold all_option.
  rewrite all_field_values_join, slice_to_comma; [reflexivity|].
  intros ->. cbn in E. lia.
Qed.

Lemma last_value_populated t complex pre rows :
  rows ≠ [] →
  ∃ gid, last_value (pre ++ map (row_option t complex) rows) = Ok gid.
Proof.
  intros Hr. destruct (exists_last Hr) as (rows' & r & ->).
  unfold last_value. rewrite map_app. cbn [map]. rewrite List.app_assoc, last_snoc.
  cbn. now eexists.
Qed.

Lemma fill_tree_param_datatype (param : node) (path cls : string) (project_id : Z)
    (category_key : option Z) (rows : list row) (total_count : nat)
    (log : list string) :
  d_ui_hidden (entries param) ≠ Some true →
  d_type (entries param) = Some (TYPE_CLASS path) →
  d_dynamic (entries param) = None →
  (∀ a l, d_attributes (entries param) ≠ Given (a :: l)) →
  get_class_instance (TYPE_CLASS path) = Some cls →
  get_values_of_datatype project_id cls (add_visible (d_conditions (entries param)))
    MAXIMUM_DATA_TYPES_DISPLAYED = (rows, total_count) →
  (∀ key, category_key = Some key → is_Some (get_category_by_id key)) →
  ∃ n,
    fill_tree_param project_id category_key param log = (log, Ok (Some n))
    ∧ d_options (entries n)
      = Given ((if adds_all category_key (length rows)
                then [all_option rows] else [])
               ++ map (row_option (TYPE_CLASS path) None) rows)
    ∧ d_warning (entries n)
      = (if bool_decide (MAXIMUM_DATA_TYPES_DISPLAYED < total_count)%nat
         then Some WARNING_OVERFLOW else d_warning (entries param)).
Proof.
  destruct param as [[nm ty lb df rq vl os ats uh cn dy wa fi dt]].
  cbn [entries d_ui_hidden d_type d_dynamic d_attributes d_conditions d_warning].
  intros Huh -> -> Hats Hcls Hrows Hcat.
  cbn [fill_tree_param entries d_ui_hidden d_type d_dynamic d_attributes
       d_conditions in_STATIC_ACCEPTED_TYPES].
  rewrite bool_decide_eq_false_2 by assumption.
  unfold st_bind at 1. unfold _get_available_datatypes. rewrite Hcls.
  unfold st_ret at 1. rewrite Hrows. cbn [fst snd].
  assert (match ats with
          | Given ((_ :: _) as attrs) =>
              do! r := st_filter_map (fill_tree_param project_id category_key) attrs in
              st_ret (Some r)
          | _ => st_ret None
          end = st_ret None) as ->.
  { destruct ats as [| |[|a l]]; try reflexivity. exfalso. now eapply Hats. }
  unfold st_bind at 1, st_ret at 1. rewrite populate_values_eq by assumption.
  unfold st_bind at 1, lift at 1.
  set (values := _ ++ map _ rows).
  match goal with
  | |- context [if ?c then (do! _ := lift (last_value values) in _) else _] =>
      destruct c eqn:Ec
  end.
  - destruct (last_value_populated (TYPE_CLASS path) None
                (if adds_all category_key (length rows) then [all_option rows] else [])
                rows) as [gid Hgid].
    { intros ->. apply andb_true_iff in Ec as [Ec _].
      apply andb_true_iff in Ec as [_ Ec]. apply bool_decide_eq_true in Ec.
      unfold values in Ec. unfold adds_all in Ec.
      destruct category_key as [key|]; [|cbn in Ec; lia].
      destruct (get_category_by_id key); [|cbn in Ec; lia].
      rewrite andb_false_r in Ec. cbn in Ec. lia. }
    fold values in Hgid. unfold st_bind at 1, lift at 1. rewrite Hgid.
    unfold st_bind, st_ret. eexists. split; [reflexivity|].
    split; [reflexivity|].
    cbn [entries d_warning set_attributes set_datatype set_options set_type
         set_filterable set_default].
    destruct (bool_decide (MAXIMUM_DATA_TYPES_DISPLAYED < total_count)%nat);
      destruct cn; reflexivity.
  - unfold st_bind, st_ret. eexists. split; [reflexivity|].
    split; [reflexivity|].
    cbn [entries d_warning set_attributes set_datatype set_options set_type
         set_filterable set_default].
    destruct (bool_decide (MAXIMUM_DATA_TYPES_DISPLAYED < total_count)%nat);
      destruct cn; reflexivity.
Qed.

(** C5, amended: for a datatype node (not hidden, not dynamic, with
    no attributes of its own) whose class the store knows, and a
    category key that names a category if it is given,
    [fill_input_tree_with_options] gives the node one option per row
    that the store returned, after the option [All] when the category
    is neither display nor raw input and there is more than one row;
    the value of [All] joins the identifiers of the rows with commas.
    When the store reports more entities than the limit of 50, the
    node carries the overflow warning.  So 51 entities under the limit
    of 50 give the warning and 50 options, or 51 with [All]; and 2
    entities under a category that is neither display nor raw input
    give 3 options. *)
Theorem fill_input_tree_with_options_datatype (param : node) (path cls : string)
    (project_id : Z) (category_key : option Z) (rows : list row)
    (total_count : nat) (log : list string) :
  d_ui_hidden (entries param) ≠ Some true →
  d_type (entries param) = Some (TYPE_CLASS path) →
  d_dynamic (entries param) = None →
  (∀ a l, d_attributes (entries param) ≠ Given (a :: l)) →
  get_class_instance (TYPE_CLASS path) = Some cls →
  get_values_of_datatype project_id cls (add_visible (d_conditions (entries param)))
    MAXIMUM_DATA_TYPES_DISPLAYED = (rows, total_count) →
  (∀ key, category_key = Some key → is_Some (get_category_by_id key)) →
  ∃ n options,
    fill_input_tree_with_options [param] project_id category_key log
    = (log, Ok [n])
    ∧ d_options (entries n) = Given options
    ∧ options = (if adds_all category_key (length rows)
                 then [all_option rows] else [])
                ++ map (row_option (TYPE_CLASS path) None) rows
    ∧ ((50 < total_count)%nat → d_warning (entries n) = Some WARNING_OVERFLOW)
    ∧ (length rows = 50%nat →
       length options = if adds_all category_key 50 then 51%nat else 50%nat)
    ∧ (∀ r1 r2, rows = [r1; r2] → adds_all category_key 2 = true →
       options
       = [ Node (Dict "All" None None None None
                      (Some (VStr (value_2 r1 +:+ "," +:+ value_2 r2)))
                      Missing Missing None None None None None None);
           row_option (TYPE_CLASS path) None r1;
           row_option (TYPE_CLASS path) None r2 ]).
Proof.
  intros Huh Hty Hdy Hats Hcls Hrows Hcat.
  destruct (fill_tree_param_datatype param path cls project_id category_key rows
              total_count log Huh Hty Hdy Hats Hcls Hrows Hcat)
    as (n & En & Eo & Ew).
  exists n. eexists. unfold fill_input_tree_with_options.
  cbn [st_filter_map]. unfold st_bind. rewrite En. unfold st_ret.
  split; [reflexivity|]. split; [exact Eo|]. split; [reflexivity|].
  split; [|split].
  - intros Ht. rewrite Ew. unfold MAXIMUM_DATA_TYPES_DISPLAYED.
    now rewrite bool_decide_eq_true_2.
  - intros Hl. rewrite length_app, length_map, Hl.
    now destruct (adds_all category_key 50).
  - intros r1 r2 -> Ha. cbn [length]. rewrite Ha. reflexivity.
Qed.

End Materialized.

(** C5, as stated, fails: with 51 entities in the store, the limit of
    50 and a category that is neither display nor raw input, the node
    receives 51 options, [All] before the 50 of the rows. *)
Lemma overflow_with_all_option :
  ¬ (∀ (S : Store) param path cls project_id category_key rows log,
       d_ui_hidden (entries param) ≠ Some true →
       d_type (entries param) = Some (TYPE_CLASS path) →
       d_dynamic (entries param) = None →
       (∀ a l, d_attributes (entries param) ≠ Given (a :: l)) →
       get_class_instance (TYPE_CLASS path) = Some cls →
       get_values_of_datatype project_id cls
         (add_visible (d_conditions (entries param))) MAXIMUM_DATA_TYPES_DISPLAYED
       = (rows, 51%nat) →
       length rows = 50%nat →
       ∃ n options,
         fill_input_tree_with_options [param] project_id category_key log
         = (log, Ok [n])
         ∧ d_options (entries n) = Given options
         ∧ length options = 50%nat
         ∧ d_warning (entries n) = Some WARNING_OVERFLOW).
Proof.
  intros Hclaim.
  destruct (Hclaim (entity_store (entities 51)) datatype_leaf
              "tvb.datatypes.Example" "tvb.datatypes.Example" 1 (Some 1)
              (entities 50) [])
    as (n & options & En & Eo & El & _);
    try reflexivity; try discriminate.
  destruct (@fill_input_tree_with_options_datatype (entity_store (entities 51))
              datatype_leaf "tvb.datatypes.Example" "tvb.datatypes.Example" 1
              (Some 1) (entities 50) 51%nat [])
    as (n' & options' & En' & Eo' & _ & _ & Hl & _);
    try reflexivity; try discriminate.
  { intros key [= <-]. now eexists. }
  rewrite En in En'. injection En' as <-. rewrite Eo in Eo'. injection Eo' as <-.
  specialize (Hl eq_refl). rewrite El in Hl. vm_compute in Hl. discriminate.
Qed.

Lemma fill_input_tree_with_options_datatype_witness :
  ∃ n options,
    @fill_input_tree_with_options (entity_store (entities 51)) [datatype_leaf] 1
      (Some 2) []
    = ([], Ok [n])
    ∧ d_options (entries n) = Given options
    ∧ length options = 50%nat
    ∧ d_warning (entries n) = Some WARNING_OVERFLOW.
Proof.
  destruct (@fill_input_tree_with_options_datatype (entity_store (entities 51))
              datatype_leaf "tvb.datatypes.Example" "tvb.datatypes.Example" 1
              (Some 2) (entities 50) 51%nat [])
    as (n & options & En & Eo & _ & Hw & Hl & _);
    try reflexivity; try discriminate.
  { intros key [= <-]. now eexists. }
  exists n, options. split; [exact En|]. split; [exact Eo|].
  split; [exact (Hl eq_refl)|]. apply Hw. lia.
Defined.

(** ** Submission parsing *)

Section Parsing.
Context `{Externals}.

(** A row whose name is submitted, whose parent (if its name holds
    [_parameters_]) has its option among the submitted ones, that no
    DICT field has taken, and that passes the check of required
    values, is converted by its type. *)
Lemma convert_row_coerce (validation_required : bool) (row : flat_row)
    (t : ptype) (v : val) (c : conversion) :
  row_type row = Some t → t ≠ TYPE_DICT →
  kwargs c !! row_name row = Some v →
  _is_parent_not_submitted (row_name row) (kwargs c) = Ok false →
  row_name row ∉ to_skip_dict_subargs c →
  validation_required && row_required row && py_eq v (VStr "") = false →
  convert_row validation_required row c = guarded row (coerce row t) c.
Proof.
  intros Ht Hd Hv Hp Hs Hr. unfold convert_row. rewrite Ht.
  unfold st_bind at 1. rewrite Hv, Hr.
  unfold guarded. f_equal.
  assert (convert_body row t c = coerce row t c) as ->; [|reflexivity].
  unfold convert_body.
  assert ((do! skipped := (λ c, (c, Ok (bool_decide (row_name row ∈ to_skip_dict_subargs c)))) in
           if (skipped : bool) then st_ret tt
           else
             do! present := (λ c, (c, Ok (bool_decide (is_Some (kwargs c !! row_name row))))) in
             do! go :=
               if (present : bool) then
                 do! not_submitted :=
                   (λ c, (c, _is_parent_not_submitted (row_name row) (kwargs c))) in
                 if (not_submitted : bool) then
                   λ c, (set_kwargs (delete (row_name row)) c, Ok false)
                 else st_ret true
               else
                 do! kwa_name :=
                   (λ c, let r := _find_field_submitted_name (row_name row) true
                                    (kwargs c, log c) in
                         (set_log (λ _, r.1.2) (set_kwargs (λ _, r.1.1) c), r.2)) in
                 match kwa_name with
                 | None => st_ret false
                 | Some kwa_name =>
                     do! v := get_kwarg kwa_name in
                     λ c, (set_kwargs (insert (row_name row) v) c, Ok true)
                 end in
             if (go : bool) then coerce row t else st_ret tt) c
          = coerce row t c) as E.
  { unfold st_bind at 1. rewrite bool_decide_eq_false_2 by assumption.
    unfold st_bind at 1. rewrite Hv.
    rewrite bool_decide_eq_true_2 by (now eexists).
    unfold st_bind at 1. unfold st_bind at 1.
    rewrite Hp. reflexivity. }
  destruct t; try exact E. congruence.
Qed.

(** One turn of the loop, for a field that is submitted, whose parent
    has its option among the submitted ones, that no DICT field has
    taken and that passes the check of required values: a BOOL field
    is given [bool] of the submitted value; an INT field is given
    [None] for [None], the empty text and the text [None], and a
    FLOAT field for the empty text and the text [None]; and an INT
    field whose value is none of these and on which [int] raises (an
    exception that is not one of the framework) raises
    [InvalidParameterException], when the row has a label. *)
Lemma convert_row_sentinels (validation_required : bool) (row : flat_row)
    (v : val) (c : conversion) :
  kwargs c !! row_name row = Some v →
  _is_parent_not_submitted (row_name row) (kwargs c) = Ok false →
  row_name row ∉ to_skip_dict_subargs c →
  validation_required && row_required row && py_eq v (VStr "") = false →
  (row_type row = Some TYPE_BOOL →
     convert_row validation_required row c
     = (set_kwa (insert (row_name row) (Atom (AVal (VBool (py_bool v))))) c, Ok tt)
     ∧ py_bool (VStr "") = false ∧ py_bool (VStr "None") = true)
  ∧ (row_type row = Some TYPE_INT →
     existsb (py_eq v) [VNone; VStr ""; VStr "None"] = true →
     convert_row validation_required row c
     = (set_kwa (insert (row_name row) (Atom (AVal VNone))) c, Ok tt))
  ∧ (row_type row = Some TYPE_FLOAT →
     existsb (py_eq v) [VStr ""; VStr "None"] = true →
     convert_row validation_required row c
     = (set_kwa (insert (row_name row) (Atom (AVal VNone))) c, Ok tt))
  ∧ (row_type row = Some TYPE_INT →
     existsb (py_eq v) [VNone; VStr ""; VStr "None"] = false →
     ∀ e label,
       py_int v = Raise e →
       (∀ msg, e ≠ InvalidParameterException msg) → (∀ msg, e ≠ TVBException msg) →
       (∀ what, e ≠ OutOfModel what) →
       row_label row = Some label →
       convert_row validation_required row c
       = (c, Raise (InvalidParameterException
                      (py_format "Invalid or missing value in field %s [%s]"
                         [AVal (VStr label); AVal (VStr (row_name row))])))).
Proof.
  intros Hv Hp Hs Hr.
  split; [|split; [|split]].
  - intros Ht. split; [|split; reflexivity].
    rewrite (convert_row_coerce _ _ TYPE_BOOL v) by (assumption || discriminate).
    unfold guarded, coerce, st_bind, get_kwarg. rewrite Hv. reflexivity.
  - intros Ht Hin.
    rewrite (convert_row_coerce _ _ TYPE_INT v) by (assumption || discriminate).
    unfold guarded, coerce, st_bind, get_kwarg. rewrite Hv, Hin. reflexivity.
  - intros Ht Hin.
    rewrite (convert_row_coerce _ _ TYPE_FLOAT v) by (assumption || discriminate).
    unfold guarded, coerce, st_bind, get_kwarg. rewrite Hv, Hin. reflexivity.
  - intros Ht Hin e label He Hne1 Hne2 Hne3 Hl.
    rewrite (convert_row_coerce _ _ TYPE_INT v) by (assumption || discriminate).
    unfold guarded, coerce, st_bind, get_kwarg, lift, get_label.
    rewrite Hv, Hin, He, Hl. cbn [res_bind].
    destruct e; try reflexivity;
      [now destruct (Hne1 msg)|now destruct (Hne2 msg)|now destruct (Hne3 what)].
Qed.

End Parsing.

Section RangeValidation.
Context `{Externals}.

Lemma set_log_nil (c : conversion) : set_log (λ l, l ++ []) c = c.
Proof. destruct c. unfold set_log. cbn. now rewrite List.app_nil_r. Qed.

Lemma validate_value_eq (value : atom) (row : flat_row) label mn mx c :
  row_label row = Some label → row_minValue row = Some mn →
  row_maxValue row = Some mx →
  _validate_range_for_value_input value row c
  = (set_log (λ l, l ++ if out_of_range value mn mx
                        then [value_warning label (row_name row) mn mx value]
                        else []) c,
     Ok tt).
Proof.
  intros Hl Hmn Hmx.
  unfold _validate_range_for_value_input, out_of_range, value_warning, st_bind,
    lift, get_minValue, get_maxValue, get_label, warning, st_ret.
  rewrite Hl, Hmn, Hmx.
  destruct (py_lt value mn); cbn [orb]; [reflexivity|].
  destruct (py_lt mx value); [reflexivity|]. now rewrite set_log_nil.
Qed.

Lemma validate_array_eq (array lo hi : atom) (row : flat_row) label mn mx c :
  row_label row = Some label → row_minValue row = Some mn →
  row_maxValue row = Some mx →
  array_min array = Ok lo → array_max array = Ok hi →
  _validate_range_for_array_input array row c
  = (set_log (λ l, l ++ if py_lt lo mn || py_lt mx hi
                        then [array_warning label (row_name row) mn mx lo hi]
                        else []) c,
     Ok tt).
Proof.
  intros Hl Hmn Hmx Hlo Hhi.
  unfold _validate_range_for_array_input, array_warning, st_bind,
    lift, get_minValue, get_maxValue, get_label, warning, st_ret.
  rewrite Hl, Hmn, Hmx, Hlo, Hhi.
  destruct (py_lt lo mn); cbn [orb]; [reflexivity|].
  destruct (py_lt mx hi); [reflexivity|]. now rewrite set_log_nil.
Qed.

(** One turn of the loop, for a field of type INT, FLOAT or ARRAY
    with a label and the bounds [minValue] and [maxValue] (submitted,
    its parent having its option among the submitted ones, not taken
    by a DICT field, and past the check of required values): whenever
    the conversion of the submitted value itself succeeds, the turn
    returns, the converted value is stored under the name of the
    field unchanged, and a value outside the bounds only adds one
    warning to the log. *)
Lemma range_validation_warns (validation_required : bool) (row : flat_row)
    (v : val) (c : conversion) (label : string) (mn mx : atom) :
  kwargs c !! row_name row = Some v →
  _is_parent_not_submitted (row_name row) (kwargs c) = Ok false →
  row_name row ∉ to_skip_dict_subargs c →
  validation_required && row_required row && py_eq v (VStr "") = false →
  row_label row = Some label →
  row_minValue row = Some mn → row_maxValue row = Some mx →
  (row_type row = Some TYPE_INT →
     existsb (py_eq v) [VNone; VStr ""; VStr "None"] = false →
     ∀ z, py_int v = Ok z →
       convert_row validation_required row c
       = (stored (row_name row) (AVal (VInt z))
            (if out_of_range (AVal (VInt z)) mn mx
             then [value_warning label (row_name row) mn mx (AVal (VInt z))]
             else []) c,
          Ok tt))
  ∧ (row_type row = Some TYPE_FLOAT →
     existsb (py_eq v) [VStr ""; VStr "None"] = false →
     ∀ x, py_float v = Ok x →
       convert_row validation_required row c
       = (stored (row_name row) (AExt x)
            (if out_of_range (AExt x) mn mx
             then [value_warning label (row_name row) mn mx (AExt x)]
             else []) c,
          Ok tt))
  ∧ (row_type row = Some TYPE_ARRAY →
     ∀ messages array lo hi,
       _convert_to_array v row = (messages, Ok array) →
       array_min array = Ok lo → array_max array = Ok hi →
       convert_row validation_required row c
       = (stored (row_name row) array
            (if py_lt lo mn || py_lt mx hi
             then [array_warning label (row_name row) mn mx lo hi]
             else [])
            (set_log (λ l, l ++ messages) c),
          Ok tt))
  ∧ out_of_range (AVal (VInt 15)) (AVal (VInt 0)) (AVal (VInt 10)) = true.
Proof.
  intros Hv Hp Hs Hr Hl Hmn Hmx.
  assert (has_range row = true) as Hrange.
  { unfold has_range. rewrite Hmn, Hmx. reflexivity. }
  split; [|split; [|split; [|reflexivity]]].
  - intros Ht Hin z Hz.
    rewrite (convert_row_coerce _ _ TYPE_INT v) by (assumption || discriminate).
    unfold guarded, coerce. unfold st_bind at 1. unfold get_kwarg at 1.
    rewrite Hv, Hin. unfold st_bind at 1, lift at 1. rewrite Hz.
    unfold st_bind at 1, put_kwa at 1. rewrite Hrange.
    now rewrite (validate_value_eq _ _ label mn mx).
  - intros Ht Hin x Hx.
    rewrite (convert_row_coerce _ _ TYPE_FLOAT v) by (assumption || discriminate).
    unfold guarded, coerce. unfold st_bind at 1. unfold get_kwarg at 1.
    rewrite Hv, Hin. unfold st_bind at 1, lift at 1. rewrite Hx.
    unfold st_bind at 1, put_kwa at 1. rewrite Hrange.
    now rewrite (validate_value_eq _ _ label mn mx).
  - intros Ht messages array lo hi Ha Hlo Hhi.
    rewrite (convert_row_coerce _ _ TYPE_ARRAY v) by (assumption || discriminate).
    unfold guarded, coerce. unfold st_bind at 1. unfold get_kwarg at 1.
    rewrite Hv. unfold st_bind at 1. rewrite Ha. cbn [fst snd].
    unfold st_bind at 1, put_kwa at 1. rewrite Hrange.
    now rewrite (validate_array_eq _ lo hi _ label mn mx).
Qed.

End RangeValidation.

Section Dictionaries.
Context `{Externals}.


(** A row that a DICT field has taken is passed over. *)
Lemma convert_row_skipped (validation_required : bool) (row : flat_row)
    (t : ptype) (c : conversion) :
  row_type row = Some t → t ≠ TYPE_DICT →
  row_name row ∈ to_skip_dict_subargs c →
  validation_required && row_required row
    && match kwargs c !! row_name row with
       | Some v => py_eq v (VStr "")
       | None => false
       end = false →
  convert_row validation_required row c = (c, Ok tt).
Proof.
  intros Ht Hd Hs Hr. unfold convert_row. rewrite Ht.
  unfold st_bind at 1. rewrite Hr. unfold guarded.
  assert (convert_body row t c = (c, Ok tt)) as ->; [|reflexivity].
  unfold convert_body.
  destruct t; try congruence;
    (unfold st_bind at 1; rewrite bool_decide_eq_true_2 by assumption; reflexivity).
Qed.

End Dictionaries.

(** ** Further properties of flattening *)

Lemma res_bind_Ok {A B} (m : res A) (k : A → res B) b :
  res_bind m k = Ok b → ∃ a, m = Ok a ∧ k a = Ok b.
Proof. destruct m as [a|e]; [eauto|discriminate]. Qed.

Lemma res_bind_Raise {A B} (m : res A) (k : A → res B) e :
  res_bind m k = Raise e → m = Raise e ∨ ∃ a, m = Ok a ∧ k a = Raise e.
Proof. destruct m as [a|e']; [eauto|]. intros [= ->]. now left. Qed.

(** What holds of the result of flattening a list, from what holds of
    the result of flattening each parameter. *)
Lemma flatten_Forall (Q : node → Prop) l prefix r :
  Forall (λ n, ∀ prefix r, flatten_param n prefix = Ok r → Forall Q r) l →
  flatten l prefix = Ok r → Forall Q r.
Proof.
  intros F. revert r. induction F as [|n l Hn F IH]; intros r; cbn [flatten].
  - intros [= <-]. constructor.
  - intros (a & Ea & (b & Eb & [= <-])%res_bind_Ok)%res_bind_Ok.
    apply Forall_app. split; [eapply Hn; eassumption|now apply IH].
Qed.

Lemma flatten_param_Forall (Q : node → Prop) :
  (∀ n prefix, Q (flat_entry n prefix)) →
  ∀ n prefix r, flatten_param n prefix = Ok r → Forall Q r.
Proof.
  intros HQ n. induction n as [d IHos IHats] using node_ind2.
  intros prefix r. rewrite flatten_param_eq.
  intros (fo & Efo & (fa & Efa & [= <-])%res_bind_Ok)%res_bind_Ok.
  constructor; [apply HQ|]. apply Forall_app. split.
  - cbn [entries] in Efo. destruct (d_options d) as [| |os] eqn:Eos;
      try (injection Efo as <-; constructor).
    assert (∀ o ats, o ∈ os → d_attributes (entries o) = Given ats →
              Forall (λ n, ∀ prefix r, flatten_param n prefix = Ok r → Forall Q r) ats)
      as Hos by (intros o ats Ho Ea; exact (IHos os o ats eq_refl Ho Ea)).
    clear IHos IHats Eos Efa.
    revert fo Efo. induction os as [|o os IH]; intros fo; cbn [flatten_options].
    + intros [= <-]. constructor.
    + intros (x & Ex & (y & Ey & [= <-])%res_bind_Ok)%res_bind_Ok.
      apply Forall_app. split.
      * unfold flatten_option in Ex.
        destruct (d_attributes (entries o)) as [| |ats] eqn:Ea;
          try (injection Ex as <-; constructor).
        apply res_bind_Ok in Ex as (v & _ & (p & _ & Ex)%res_bind_Ok).
        eapply flatten_Forall; [|exact Ex].
        eapply (Hos o ats); [apply elem_of_cons; now left|exact Ea].
      * apply IH; [|exact Ey]. intros o' ats' Ho' Ea'.
        eapply (Hos o' ats'); [apply elem_of_cons; now right|exact Ea'].
  - unfold flatten_attributes in Efa. cbn [entries] in Efa.
    destruct (d_attributes d) as [| |ats] eqn:Ea;
      try (injection Efa as <-; constructor).
    apply res_bind_Ok in Efa as (p & _ & Efa).
    eapply flatten_Forall; [|exact Efa]. exact (IHats ats eq_refl).
Qed.

Lemma stripped_flat_entry n prefix : stripped (flat_entry n prefix).
Proof.
  destruct n as [[nm ty lb df rq vl os ats uh cn dy wa fi dt]].
  unfold flat_entry, stripped. cbn [entries d_type].
  destruct prefix, ty; now split.
Qed.

(** X1: Every entry that [flatten] returns has its options and its
    attributes set to [None]. *)
Theorem flatten_strips (l : list node) (prefix : option string) (r : list node) :
  flatten l prefix = Ok r → Forall stripped r.
Proof.
  apply flatten_Forall, Forall_forall. intros n _.
  apply flatten_param_Forall, stripped_flat_entry.
Qed.

Lemma flatten_strips_witness :
  flatten flat_tree None
  = Ok [ Node (set_options Null (set_attributes Null
                 (entries (a_select "P" [an_option "Opt" "O" [leaf "c" TYPE_INT]]))));
         Node (set_options Null (set_attributes Null
                 (set_name "P_parameters_option_O_c" (entries (leaf "c" TYPE_INT)))));
         Node (set_options Null (set_attributes Null (entries (leaf "Q" TYPE_INT)))) ]
  ∧ Forall stripped
      [ Node (set_options Null (set_attributes Null
                (entries (a_select "P" [an_option "Opt" "O" [leaf "c" TYPE_INT]]))));
        Node (set_options Null (set_attributes Null
                (set_name "P_parameters_option_O_c" (entries (leaf "c" TYPE_INT)))));
        Node (set_options Null (set_attributes Null (entries (leaf "Q" TYPE_INT)))) ].
Proof.
  split; [vm_compute; reflexivity|].
  apply (flatten_strips flat_tree None). vm_compute. reflexivity.
Defined.

(** X2: Flattening a list that is made of two is flattening each and
    appending the results; the first exception met is raised. *)
Theorem flatten_app (l1 l2 : list node) (prefix : option string) :
  flatten (l1 ++ l2) prefix
  = (let! a := flatten l1 prefix in
     let! b := flatten l2 prefix in
     Ok (a ++ b)).
Proof.
  induction l1 as [|n l1 IH]; cbn [flatten app res_bind].
  - now destruct (flatten l2 prefix).
  - rewrite IH. destruct (flatten_param n prefix) as [r|e]; [|reflexivity].
    cbn [res_bind]. destruct (flatten l1 prefix) as [a|e]; [|reflexivity].
    cbn [res_bind]. destruct (flatten l2 prefix) as [b|e]; [|reflexivity].
    cbn [res_bind]. now rewrite List.app_assoc.
Qed.

Lemma form_prefix_Raise nm prefix v e :
  form_prefix nm prefix v = Raise e → e = TypeError.
Proof. unfold form_prefix. destruct v; intros [=]; congruence. Qed.

Lemma get_value_Raise {L} (d : dict L) e :
  get_value d = Raise e → e = KeyError "value".
Proof. unfold get_value. destruct (d_value d); intros [=]; congruence. Qed.

Lemma flatten_Raise_list (E : exn → Prop) l prefix e :
  Forall (λ n, ∀ prefix e, flatten_param n prefix = Raise e → E e) l →
  flatten l prefix = Raise e → E e.
Proof.
  intros F. induction F as [|n l Hn F IH]; cbn [flatten]; [discriminate|].
  intros [Hp|(a & _ & [Hl|(b & _ & [=])]%res_bind_Raise)]%res_bind_Raise.
  - eapply Hn, Hp.
  - now apply IH.
Qed.

Lemma flatten_param_Raise n :
  ∀ prefix e, flatten_param n prefix = Raise e → flatten_error e.
Proof.
  induction n as [d IHos IHats] using node_ind2.
  intros prefix e. rewrite flatten_param_eq.
  intros [Hos|(fo & _ & [Hats|(fa & _ & [=])]%res_bind_Raise)]%res_bind_Raise.
  - cbn [entries] in Hos. destruct (d_options d) as [| |os] eqn:Eos; try discriminate.
    assert (∀ o ats, o ∈ os → d_attributes (entries o) = Given ats →
              Forall (λ n, ∀ prefix e, flatten_param n prefix = Raise e → flatten_error e) ats)
      as H by (intros o ats Ho Ea; exact (IHos os o ats eq_refl Ho Ea)).
    clear IHos IHats Eos.
    induction os as [|o os IH]; cbn [flatten_options] in Hos; [discriminate|].
    apply res_bind_Raise in Hos as [Ho|(x & _ & [Hr|(y & _ & [=])]%res_bind_Raise)].
    + unfold flatten_option in Ho.
      destruct (d_attributes (entries o)) as [| |ats] eqn:Ea; try discriminate.
      apply res_bind_Raise in Ho as [Hv|(v & _ & [Hp|(p & _ & Hl)]%res_bind_Raise)].
      * left. eapply get_value_Raise, Hv.
      * right. eapply form_prefix_Raise, Hp.
      * eapply flatten_Raise_list; [|exact Hl].
        apply (H o ats); [apply elem_of_cons; now left|exact Ea].
    + apply IH; [exact Hr|]. intros o' ats' Ho' Ea'.
      apply (H o' ats'); [apply elem_of_cons; now right|exact Ea'].
  - unfold flatten_attributes in Hats. cbn [entries] in Hats.
    destruct (d_attributes d) as [| |ats] eqn:Ea; try discriminate.
    apply res_bind_Raise in Hats as [Hp|(p & _ & Hl)].
    + cbv in Hp. destruct prefix as [[|]|]; discriminate.
    + eapply flatten_Raise_list; [|exact Hl]. exact (IHats ats eq_refl).
Qed.

(** X3: The only exceptions of [flatten] are the [KeyError] of an option
    that has attributes and no value, and the [TypeError] of an option
    value that is not a text. *)
Theorem flatten_raises_only (l : list node) (prefix : option string) (e : exn) :
  flatten l prefix = Raise e → flatten_error e.
Proof.
  apply flatten_Raise_list, Forall_forall. intros n _. apply flatten_param_Raise.
Qed.

Lemma flatten_raises_only_witness :
  flatten valueless_tree None = Raise (KeyError "value")
  ∧ flatten numbered_tree None = Raise TypeError
  ∧ flatten_error (KeyError "value").
Proof.
  split; [reflexivity|]. split; [reflexivity|].
  apply (flatten_raises_only valueless_tree None). reflexivity.
Defined.

Lemma valued_node_eq (n : node) :
  valued_node n =
    match d_options (entries n) with
    | Given os => forallb valued_option os
    | _ => true
    end
    && match d_attributes (entries n) with
       | Given attrs => valued attrs
       | _ => true
       end.
Proof. now destruct n as [[nm ty lb df rq vl os ats uh cn dy wa fi dt]]. Qed.

Lemma flatten_returns_list l :
  Forall (λ n, valued_node n = true → ∀ prefix, ∃ r, flatten_param n prefix = Ok r) l →
  valued l = true → ∀ prefix, ∃ r, flatten l prefix = Ok r.
Proof.
  intros F. induction F as [|n l Hn F IH]; cbn [valued forallb flatten].
  - intros _ prefix. now eexists.
  - intros [Vn Vl]%andb_prop prefix.
    destruct (Hn Vn prefix) as [a ->]. destruct (IH Vl prefix) as [b ->].
    cbn [res_bind]. now eexists.
Qed.

Lemma flatten_param_returns n :
  valued_node n = true → ∀ prefix, ∃ r, flatten_param n prefix = Ok r.
Proof.
  induction n as [d IHos IHats] using node_ind2.
  rewrite valued_node_eq. cbn [entries]. intros [Vos Vats]%andb_prop prefix.
  rewrite flatten_param_eq. cbn [entries].
  assert (∃ fo, match d_options d with
                | Given options => flatten_options (name (Node d)) prefix options
                | _ => Ok []
                end = Ok fo) as [fo ->].
  { destruct (d_options d) as [| |os] eqn:Eos; try (now eexists).
    assert (∀ o ats, o ∈ os → d_attributes (entries o) = Given ats →
              Forall (λ n, valued_node n = true →
                           ∀ prefix, ∃ r, flatten_param n prefix = Ok r) ats)
      as H by (intros o ats Ho Ea; exact (IHos os o ats eq_refl Ho Ea)).
    clear IHos IHats Eos Vats.
    induction os as [|o os IH]; cbn [flatten_options forallb] in *; [now eexists|].
    apply andb_prop in Vos as [Vo Vos].
    destruct IH as [y ->]; [exact Vos| |].
    { intros o' ats' Ho' Ea'. apply (H o' ats'); [apply elem_of_cons; now right|exact Ea']. }
    assert (∃ x, flatten_option (name (Node d)) prefix o = Ok x) as [x ->];
      [|cbn [res_bind]; now eexists].
    unfold flatten_option, valued_option in *.
    destruct (d_attributes (entries o)) as [| |ats] eqn:Ea; try (now eexists).
    unfold get_value. destruct (d_value (entries o)) as [[| | |v|]|]; try discriminate.
    cbn [res_bind form_prefix].
    eapply flatten_returns_list; [|exact Vo].
    apply (H o ats); [apply elem_of_cons; now left|exact Ea]. }
  cbn [res_bind]. unfold flatten_attributes. cbn [entries].
  destruct (d_attributes d) as [| |ats] eqn:Ea; try (now eexists).
  cbn [form_prefix res_bind].
  match goal with
  | |- context [flatten ats ?p] =>
      destruct (flatten_returns_list ats (IHats ats eq_refl) Vats p) as [r ->]
  end.
  now eexists.
Qed.

(** X4: [flatten] returns a list for every tree in which each option that
    has attributes has a text for its value, under every prefix. *)
Theorem flatten_returns (l : list node) (prefix : option string) :
  valued l = true → ∃ r, flatten l prefix = Ok r.
Proof.
  intros V. apply flatten_returns_list; [|exact V].
  apply Forall_forall. intros n _. apply flatten_param_returns.
Qed.

Lemma flatten_returns_witness :
  valued flat_tree = true ∧ ∃ r, flatten flat_tree (Some "x") = Ok r.
Proof.
  split; [reflexivity|]. apply (flatten_returns flat_tree (Some "x")). reflexivity.
Defined.

(** ** Further properties of [fill_defaults] *)

Lemma mapM_id {A} (f : A → res A) l :
  Forall (λ x, f x = Ok x) l → mapM f l = Ok l.
Proof.
  intros F. induction F as [|x l Hx F IH]; [reflexivity|].
  cbn [mapM]. now rewrite Hx, IH.
Qed.

Lemma fill_param_nothing n : fill_param ∅ false n = Ok n.
Proof.
  induction n as [d IHos IHats] using node_ind1.
  rewrite fill_param_eq. unfold name. cbn [entries]. rewrite lookup_empty.
  cbv zeta. unfold fill_defaults.
  destruct d as [nm ty lb df rq vl os ats uh cn dy wa fi dt].
  cbn [d_attributes d_options] in *.
  destruct ats as [| |ats]; cbn [res_bind];
    try rewrite (mapM_id _ ats (IHats ats eq_refl)); cbn [res_bind];
    destruct os as [| |os]; reflexivity.
Qed.

(** X5: With no submitted data and [fill_unselected_branches] false,
    [fill_defaults] returns a tree equal to the one it was given. *)
Theorem fill_defaults_nothing (adapter_interface : list node) :
  fill_defaults adapter_interface ∅ false = Ok adapter_interface.
Proof.
  apply mapM_id, Forall_forall. intros n _. apply fill_param_nothing.
Qed.

Lemma mapM_Forall2 {A B} (f : A → res B) (R : A → B → Prop) l r :
  (∀ x y, f x = Ok y → R x y) → mapM f l = Ok r → Forall2 R l r.
Proof.
  intros Hf. revert r. induction l as [|x l IH]; intros r; cbn [mapM].
  - intros [= <-]. constructor.
  - intros (y & Ey & (ys & Eys & [= <-])%res_bind_Ok)%res_bind_Ok.
    constructor; [now apply Hf|now apply IH].
Qed.

Lemma fill_param_refilled data fub p q :
  fill_param data fub p = Ok q → refilled data p q.
Proof.
  rewrite fill_param_eq. cbv zeta.
  intros (d1 & E1 & (d2 & E2 & [= <-])%res_bind_Ok)%res_bind_Ok.
  unfold refilled. cbn [entries].
  set (d0 := match data !! name p with
             | Some v => set_default v (entries p)
             | None => entries p
             end) in *.
  assert (d_options d0 = d_options (entries p)
          ∧ d_attributes d0 = d_attributes (entries p)) as [Ho Ha].
  { subst d0. destruct (data !! name p); now destruct p as [[]]. }
  assert (set_options Null (set_attributes Null d1) = set_options Null (set_attributes Null d0)
          ∧ d_options d1 = d_options d0
          ∧ has_key (d_attributes d1) = has_key (d_attributes d0)) as (S1 & O1 & A1).
  { destruct (d_attributes (entries p)) as [| |ats] eqn:Ea.
    - injection E1 as <-. auto.
    - injection E1 as <-. auto.
    - apply res_bind_Ok in E1 as (r & _ & [= <-]).
      rewrite Ha. now destruct d0. }
  assert (set_options Null (set_attributes Null d2) = set_options Null (set_attributes Null d1)
          ∧ has_key (d_options d2) = has_key (d_options d1)
          ∧ d_attributes d2 = d_attributes d1) as (S2 & O2 & A2).
  { destruct (d_options (entries p)) as [| |os] eqn:Eo.
    - injection E2 as <-. auto.
    - injection E2 as <-. auto.
    - apply res_bind_Ok in E2 as (r & _ & [= <-]).
      rewrite O1, Ho. now destruct d1. }
  rewrite S2, S1, O2, O1, Ho, A2, A1, Ha. auto.
Qed.

(** X6: [fill_defaults] returns one parameter for each parameter it was
    given, in order: its default is the submitted value when the name
    was submitted, its options and attributes are present when they
    were, and its other entries are those of the given parameter. *)
Theorem fill_defaults_refills (adapter_interface : list node)
    (data : gmap string val) (fill_unselected_branches : bool) (result : list node) :
  fill_defaults adapter_interface data fill_unselected_branches = Ok result →
  Forall2 (refilled data) adapter_interface result.
Proof.
  apply mapM_Forall2. intros p q. apply fill_param_refilled.
Qed.

Lemma fill_defaults_refills_witness :
  fill_defaults [leaf "a" TYPE_INT; leaf "b" TYPE_INT] {["a" := VInt 7]} false
  = Ok [Node (set_default (VInt 7) (entries (leaf "a" TYPE_INT))); leaf "b" TYPE_INT]
  ∧ Forall2 (refilled {["a" := VInt 7]})
      [leaf "a" TYPE_INT; leaf "b" TYPE_INT]
      [Node (set_default (VInt 7) (entries (leaf "a" TYPE_INT))); leaf "b" TYPE_INT].
Proof.
  split; [vm_compute; reflexivity|].
  apply (fill_defaults_refills _ {["a" := VInt 7]} false). vm_compute. reflexivity.
Defined.

(** ** Further properties of the option materialization *)

Ltac case_st H :=
  unfold st_bind, st_ret, st_raise, lift in H;
  repeat match type of H with
    | context [match ?x with _ => _ end] =>
        lazymatch x with
        | context [match _ with _ => _ end] => fail
        | _ => destruct x eqn:?; try discriminate H
        end
    end.

Section MaterializedMore.
Context `{Store}.

Lemma st_filter_map_names {S A} (f : A → st S (option node)) (nm : A → string)
    (keep : A → bool) l :
  (∀ x s s' r, f x s = (s', Ok r) →
     match r with Some n => keep x = true ∧ name n = nm x | None => keep x = false end) →
  ∀ s s' r, st_filter_map f l s = (s', Ok r) →
    names r = map nm (List.filter keep l).
Proof.
  intros Hf. induction l as [|x l IH]; intros s s' r; cbn [st_filter_map].
  - unfold st_ret. intros [= _ <-]. reflexivity.
  - unfold st_bind at 1. destruct (f x s) as [s1 [y|e]] eqn:Ey; [|discriminate].
    unfold st_bind at 1. destruct (st_filter_map f l s1) as [s2 [ys|e]] eqn:Eys;
      [|discriminate].
    unfold st_ret. intros [= _ <-]. specialize (Hf _ _ _ _ Ey).
    specialize (IH _ _ _ Eys). cbn [List.filter].
    destruct y as [n|].
    + destruct Hf as [-> Hn]. cbn [names map]. fold (names ys). now rewrite IH, Hn.
    + now rewrite Hf.
Qed.

Lemma fill_tree_param_name project_id category_key param log log' r :
  fill_tree_param project_id category_key param log = (log', Ok r) →
  match r with
  | Some n => negb (hidden param) = true ∧ name n = name param
  | None => negb (hidden param) = false
  end.
Proof.
  destruct param as [[nm ty lb df rq vl os ats uh cn dy wa fi dt]].
  unfold hidden, name.
  cbn [fill_tree_param entries d_ui_hidden d_type d_dynamic d_attributes d_options
       d_conditions d_name d_required d_default].
  destruct (bool_decide (uh = Some true)) eqn:Eh.
  - unfold st_ret. now intros [= _ <-].
  - intros Hr. case_st Hr; injection Hr as _ <-; split; reflexivity.
Qed.

(** X7: [fill_input_tree_with_options] leaves out the parameters of the
    list that are hidden and returns one parameter for each of the
    others, in order and under the same name. *)
Theorem fill_input_tree_with_options_names (attributes_list : list node)
    (project_id : Z) (category_key : option Z) (log log' : list string)
    (result : list node) :
  fill_input_tree_with_options attributes_list project_id category_key log
  = (log', Ok result) →
  names result = names (List.filter (λ param, negb (hidden param)) attributes_list).
Proof.
  apply st_filter_map_names. intros param s s' r. apply fill_tree_param_name.
Qed.

Lemma static_node_eq (n : node) :
  static_node n =
    negb (hidden n)
    && match d_type (entries n) with
       | Some t => in_STATIC_ACCEPTED_TYPES t
       | None => true
       end
    && match d_options (entries n) with
       | Given os =>
           negb (bool_decide (d_required (entries n) = Some true)
                 && bool_decide (0 < length os)%nat
                 && default_unset (entries n))
           && static_tree os
       | _ => true
       end
    && match d_attributes (entries n) with
       | Given attrs => static_tree attrs
       | _ => true
       end.
Proof. now destruct n as [[nm ty lb df rq vl os ats uh cn dy wa fi dt]]. Qed.

Lemma st_filter_map_id {S A} (f : A → st S (option A)) l :
  Forall (λ x, ∀ s, f x s = (s, Ok (Some x))) l →
  ∀ s, st_filter_map f l s = (s, Ok l).
Proof.
  intros F. induction F as [|x l Hx F IH]; intros s; [reflexivity|].
  cbn [st_filter_map]. unfold st_bind at 1. rewrite Hx.
  unfold st_bind at 1. rewrite IH. reflexivity.
Qed.

Lemma static_tree_Forall (P : node → Prop) l :
  Forall (λ n, static_node n = true → P n) l →
  static_tree l = true → Forall P l.
Proof.
  intros F. induction F as [|n l Hn F IH]; [constructor|].
  cbn [static_tree forallb]. intros [Sn Sl]%andb_prop. constructor; auto.
Qed.

Lemma fill_tree_param_static project_id category_key n :
  static_node n = true →
  ∀ log, fill_tree_param project_id category_key n log = (log, Ok (Some n)).
Proof.
  induction n as [d IHos IHats] using node_ind1.
  rewrite static_node_eq. unfold hidden. cbn [entries].
  intros [[[Hh Ht]%andb_prop Ho]%andb_prop Ha]%andb_prop log.
  apply negb_true_iff in Hh.
  destruct d as [nm ty lb df rq vl os ats uh cn dy wa fi dt].
  cbn [d_ui_hidden d_type d_options d_attributes d_required d_default] in *.
  cbn [fill_tree_param entries d_ui_hidden d_type d_dynamic d_attributes d_options
       d_conditions d_name d_required d_default].
  rewrite Hh.
  assert (∀ l, static_tree l = true →
               Forall (λ x, static_node x = true →
                            ∀ s, fill_tree_param project_id category_key x s
                                 = (s, Ok (Some x))) l →
               ∀ s, st_filter_map (fill_tree_param project_id category_key) l s
                    = (s, Ok l)) as Hl.
  { intros l Sl F. apply st_filter_map_id.
    eapply static_tree_Forall; [|exact Sl]. exact F. }
  assert (∀ s, match ats with
               | Given attrs =>
                   st_filter_map (fill_tree_param project_id category_key) attrs s
                   = (s, Ok attrs)
               | _ => True
               end) as Hats.
  { intros s. destruct ats as [| |ats]; try exact I.
    apply Hl; [exact Ha|exact (IHats ats eq_refl)]. }
  assert (∀ s, match os with
               | Given options =>
                   st_filter_map (fill_tree_param project_id category_key) options s
                   = (s, Ok options)
               | _ => True
               end) as Hos.
  { intros s. destruct os as [| |os]; try exact I.
    apply andb_prop in Ho as [_ Ho].
    apply Hl; [exact Ho|exact (IHos os eq_refl)]. }
  assert (match os with
          | Given options =>
              bool_decide (rq = Some true) && bool_decide (0 < length options)%nat
              && default_unset
                   (set_options (Given options)
                      (Dict nm ty lb df rq vl (Given options) ats uh cn dy wa fi dt))
              = false
          | _ => True
          end) as Hreq.
  { destruct os as [| |os]; try exact I.
    apply andb_prop in Ho as [Ho _]. apply negb_true_iff in Ho. exact Ho. }
  clear IHos IHats Hl Ho Ha.
  assert (∀ b : bool, b = true → ∀ A (x y : A), (if b then x else y) = x) as Hif
    by (now intros b ->).
  destruct ty as [t|]; [rewrite (Hif _ Ht)|]; clear Hif Ht.
  all: unfold st_bind at 1.
  all: destruct os as [| |os].
  all: try (unfold st_bind at 1; rewrite (Hos log);
            cbn [d_required set_options]; cbn [d_required set_options] in Hreq;
            rewrite Hreq).
  all: unfold st_ret at 1; unfold st_bind at 1.
  all: destruct ats as [| |ats]; try reflexivity.
  all: unfold st_bind at 1; rewrite (Hats log); reflexivity.
Qed.

(** X8: A tree of shown parameters of static types, in which no required
    parameter with options lacks a default, comes back from
    [fill_input_tree_with_options] as it is, and nothing is logged,
    whatever the store holds. *)
Theorem fill_input_tree_with_options_static (attributes_list : list node)
    (project_id : Z) (category_key : option Z) (log : list string) :
  static_tree attributes_list = true →
  fill_input_tree_with_options attributes_list project_id category_key log
  = (log, Ok attributes_list).
Proof.
  intros St. apply st_filter_map_id.
  eapply static_tree_Forall; [|exact St].
  apply Forall_forall. intros n _. apply fill_tree_param_static.
Qed.

End MaterializedMore.

Lemma fill_input_tree_with_options_names_witness :
  @fill_input_tree_with_options (entity_store (entities 2)) shown_tree 7 None []
  = ([], Ok [ leaf "a" TYPE_INT;
              Node (Dict "data" (Some TYPE_SELECT) (Some "data") None None None
                         (Given [ @row_option (entity_store (entities 2))
                                    (TYPE_CLASS "tvb.datatypes.Example") None (entity 0);
                                  @row_option (entity_store (entities 2))
                                    (TYPE_CLASS "tvb.datatypes.Example") None (entity 1) ])
                         (Given []) None None None None (Some VNone)
                         (Some "tvb.datatypes.Example")) ])
  ∧ names [ leaf "a" TYPE_INT;
            Node (Dict "data" (Some TYPE_SELECT) (Some "data") None None None
                       (Given [ @row_option (entity_store (entities 2))
                                  (TYPE_CLASS "tvb.datatypes.Example") None (entity 0);
                                @row_option (entity_store (entities 2))
                                  (TYPE_CLASS "tvb.datatypes.Example") None (entity 1) ])
                       (Given []) None None None None (Some VNone)
                       (Some "tvb.datatypes.Example")) ]
    = names (List.filter (λ param, negb (hidden param)) shown_tree).
Proof.
  split; [vm_compute; reflexivity|].
  apply (@fill_input_tree_with_options_names (entity_store (entities 2))
           shown_tree 7 None [] []).
  vm_compute. reflexivity.
Defined.

Lemma fill_input_tree_with_options_static_witness :
  static_tree flat_tree = true
  ∧ @fill_input_tree_with_options (entity_store []) flat_tree 7 (Some 3) ["x"]
    = (["x"], Ok flat_tree).
Proof.
  split; [reflexivity|].
  apply (@fill_input_tree_with_options_static (entity_store []) flat_tree 7 (Some 3) ["x"]).
  reflexivity.
Defined.

(** ** Names for the parameters page *)

Lemma prepare_param_eq prefix add_option_prefix (param : node) :
  prepare_param prefix add_option_prefix param =
    (let new_name :=
       match prefix, d_type (entries param) with
       | Some p, Some _ => p +:+ name param
       | _, _ => name param
       end in
     let prepared_param :=
       match prefix, d_type (entries param) with
       | Some p, Some _ => set_name new_name (entries param)
       | _, _ => entries param
       end in
     let! prepared_param :=
       match d_options (entries param) with
       | Given options =>
           if untyped_or_static (entries param) then
             let! new_prefix := form_prefix (name param) prefix VNone in
             let! r := prepare_param_names options (Some new_prefix)
                         (is_selection (entries param)) in
             Ok (set_options (Given r) prepared_param)
           else Ok prepared_param
       | _ => Ok prepared_param
       end in
     let! prepared_param :=
       match d_attributes (entries param) with
       | Given attrs =>
           let! new_prefix :=
             attributes_prefix (entries param) new_name prefix add_option_prefix in
           let! r := prepare_param_names attrs new_prefix false in
           Ok (set_attributes (Given r) prepared_param)
       | _ => Ok prepared_param
       end in
     Ok (Node prepared_param)).
Proof. now destruct param as [[nm ty lb df rq vl os ats uh cn dy wa fi dt]]. Qed.

Lemma param_names_eq (n : node) :
  param_names n =
    name n
    :: match d_options (entries n) with
       | Given os => options_names os
       | _ => []
       end
    ++ match d_attributes (entries n) with
       | Given attrs => tree_names attrs
       | _ => []
       end.
Proof. now destruct n as [[nm ty lb df rq vl os ats uh cn dy wa fi dt]]. Qed.

Lemma page_node_eq (n : node) :
  page_node n =
    bool_decide (is_Some (d_type (entries n)))
    && match d_options (entries n) with
       | Given os => is_selection (entries n) && forallb page_option os
       | _ => true
       end
    && match d_attributes (entries n) with
       | Given attrs =>
           (match d_type (entries n) with
            | Some t => ptype_eqb t TYPE_DICT
            | None => false
            end || bool_decide (attrs = []))
           && page_tree attrs
       | _ => true
       end.
Proof. now destruct n as [[nm ty lb df rq vl os ats uh cn dy wa fi dt]]. Qed.

Lemma names_agree_list l :
  Forall names_agree l → page_tree l = true →
  ∀ prefix, good_opt prefix = true →
    ∃ r f, prepare_param_names l prefix false = Ok r ∧ flatten l prefix = Ok f
           ∧ names f = tree_names r.
Proof.
  intros F. induction F as [|n l Hn F IH];
    cbn [page_tree forallb]; intros Hp prefix Hg.
  - exists [], []. now repeat split.
  - apply andb_prop in Hp as [Hpn Hpl].
    destruct (Hn Hpn prefix Hg) as (r & f & Er & Ef & En).
    destruct (IH Hpl prefix Hg) as (rs & fs & Ers & Efs & Ens).
    exists (r :: rs), (f ++ fs). unfold prepare_param_names in *.
    cbn [mapM flatten]. rewrite Er, Ers, Ef, Efs. cbn [res_bind].
    repeat split. rewrite names_app, En, Ens. reflexivity.
Qed.

Lemma with_separator_good prefix :
  good_opt prefix = true →
  with_separator prefix = match prefix with Some p => p | None => "" end.
Proof.
  destruct prefix as [p|]; [|reflexivity]. unfold good_opt, good_prefix, with_separator.
  destruct (String.eqb_spec p "") as [->|Hp]; [reflexivity|].
  cbn [orb]. now intros ->.
Qed.

Lemma names_agree_option nm prefix o :
  good_opt prefix = true →
  page_option o = true →
  (∀ ats, d_attributes (entries o) = Given ats → Forall names_agree ats) →
  ∃ o' fo,
    prepare_param (Some (with_separator prefix +:+ nm +:+ KEYWORD_PARAMS)) true o = Ok o'
    ∧ flatten_option nm prefix o = Ok fo
    ∧ names fo = option_names o'.
Proof.
  intros Hg Hp IH. unfold page_option in Hp.
  apply andb_prop in Hp as [[Ht Ho]%andb_prop Ha].
  apply bool_decide_eq_true in Ht. apply negb_true_iff, bool_decide_eq_false in Ho.
  rewrite prepare_param_eq. unfold flatten_option, option_names, attributes_prefix.
  rewrite Ht. cbv zeta.
  destruct (d_options (entries o)) as [| |os] eqn:Eo;
    [| |exfalso; apply Ho; now eexists].
  all: cbn [res_bind].
  all: destruct (d_attributes (entries o)) as [| |ats] eqn:Ea.
  all: try (eexists _, []; split; [reflexivity|]; split; [reflexivity|];
            cbn [entries]; now rewrite Ea).
  all: unfold get_value.
  all: destruct (d_value (entries o)) as [[| | |v|]|]; try discriminate.
  all: cbn [res_bind].
  all: rewrite form_prefix_with_separator; cbn [res_bind].
  all: replace ((((with_separator prefix +:+ nm +:+ KEYWORD_PARAMS) +:+ KEYWORD_OPTION)
                 +:+ v) +:+ KEYWORD_SEPARATOR)
         with (with_separator prefix +:+ nm +:+ KEYWORD_PARAMS +:+ KEYWORD_OPTION
               +:+ v +:+ KEYWORD_SEPARATOR) by (now rewrite !app_assoc).
  all: destruct (names_agree_list ats (IH ats eq_refl) Ha
                   (Some (with_separator prefix +:+ nm +:+ KEYWORD_PARAMS
                          +:+ KEYWORD_OPTION +:+ v +:+ KEYWORD_SEPARATOR)))
         as (r & f & Er & Ef & En).
  all: try (cbn [good_opt];
            replace (with_separator prefix +:+ nm +:+ KEYWORD_PARAMS
                     +:+ KEYWORD_OPTION +:+ v +:+ KEYWORD_SEPARATOR)
              with ((with_separator prefix +:+ nm +:+ KEYWORD_PARAMS)
                    +:+ KEYWORD_OPTION +:+ v +:+ KEYWORD_SEPARATOR)
              by (now rewrite !app_assoc);
            apply good_prefix_option).
  all: rewrite Er, Ef; cbn [res_bind].
  all: eexists _, f; repeat split.
  all: cbn [entries d_attributes set_attributes]; exact En.
Qed.

Lemma names_agree_options nm prefix os :
  good_opt prefix = true →
  forallb page_option os = true →
  (∀ o ats, o ∈ os → d_attributes (entries o) = Given ats → Forall names_agree ats) →
  ∃ r fo,
    prepare_param_names os (Some (with_separator prefix +:+ nm +:+ KEYWORD_PARAMS)) true
    = Ok r
    ∧ flatten_options nm prefix os = Ok fo
    ∧ names fo = options_names r.
Proof.
  intros Hg. induction os as [|o os IH]; cbn [forallb]; intros Hp Hos.
  - exists [], []. now repeat split.
  - apply andb_prop in Hp as [Hpo Hpos].
    destruct (names_agree_option nm prefix o Hg Hpo) as (o' & fo & Eo & Efo & Eno).
    { intros ats. apply Hos, elem_of_cons. now left. }
    destruct (IH Hpos) as (r & fos & Er & Efos & Enos).
    { intros o1 ats Ho1. apply Hos, elem_of_cons. now right. }
    exists (o' :: r), (fo ++ fos). unfold prepare_param_names in *.
    cbn [mapM flatten_options]. rewrite Eo, Er, Efo, Efos. cbn [res_bind].
    repeat split. rewrite names_app, Eno, Enos. reflexivity.
Qed.

Lemma is_selection_static {L} (d : dict L) :
  is_selection d = true → untyped_or_static d = true.
Proof.
  unfold is_selection, untyped_or_static. destruct (d_type d) as [[]|]; auto.
Qed.

(** The options of a parameter of a page tree, in both functions;
    [d0] is the copy that [prepare_param_names] updates. *)
Lemma names_agree_options_of d prefix (d0 : dict (list node)) :
  good_opt prefix = true →
  match d_options d with
  | Given os => is_selection d && forallb page_option os
  | _ => true
  end = true →
  (∀ os o ats, d_options d = Given os → o ∈ os →
     d_attributes (entries o) = Given ats → Forall names_agree ats) →
  ∃ r fo,
    match d_options d with
    | Given options =>
        if untyped_or_static d then
          let! new_prefix := form_prefix (d_name d) prefix VNone in
          let! r := prepare_param_names options (Some new_prefix) (is_selection d) in
          Ok (set_options (Given r) d0)
        else Ok d0
    | _ => Ok d0
    end
    = Ok match d_options d with
         | Given _ => set_options (Given r) d0
         | _ => d0
         end
    ∧ match d_options d with
      | Given options => flatten_options (d_name d) prefix options
      | _ => Ok []
      end = Ok fo
    ∧ names fo = match d_options d with
                 | Given _ => options_names r
                 | _ => []
                 end.
Proof.
  intros Hg Hp IH. destruct (d_options d) as [| |os] eqn:Eo;
    try (exists [], []; now repeat split).
  apply andb_prop in Hp as [Hs Hp].
  destruct (names_agree_options (d_name d) prefix os Hg Hp (λ o ats, IH os o ats eq_refl))
    as (r & fo & Er & Ef & En).
  exists r, fo. rewrite (is_selection_static d Hs), form_prefix_with_separator, Hs.
  cbn [res_bind]. rewrite Er. cbn [res_bind]. now repeat split.
Qed.

(** The attributes of a parameter of a page tree, in both functions. *)
Lemma names_agree_attributes_of d t prefix (d0 : dict (list node)) :
  good_opt prefix = true →
  d_type d = Some t →
  match d_attributes d with
  | Given attrs =>
      (ptype_eqb t TYPE_DICT || bool_decide (attrs = [])) && page_tree attrs
  | _ => true
  end = true →
  (∀ ats, d_attributes d = Given ats → Forall names_agree ats) →
  ∃ r fa,
    match d_attributes d with
    | Given attrs =>
        let! new_prefix :=
          attributes_prefix d
            match prefix with Some p => p +:+ d_name d | None => d_name d end
            prefix false in
        let! r := prepare_param_names attrs new_prefix false in
        Ok (set_attributes (Given r) d0)
    | _ => Ok d0
    end
    = Ok match d_attributes d with
         | Given _ => set_attributes (Given r) d0
         | _ => d0
         end
    ∧ flatten_attributes (Node d) prefix = Ok fa
    ∧ names fa = match d_attributes d with
                 | Given _ => tree_names r
                 | _ => []
                 end.
Proof.
  intros Hg Ht Hp IH. unfold flatten_attributes, attributes_prefix, name.
  cbn [entries]. rewrite Ht.
  destruct (d_attributes d) as [| |ats] eqn:Ea;
    try (exists [], []; now repeat split).
  apply andb_prop in Hp as [Hd Hp]. cbn [res_bind].
  rewrite form_prefix_with_separator. cbn [res_bind].
  destruct (ptype_eqb t TYPE_DICT) eqn:Ed; cbn [res_bind].
  - destruct (names_agree_list ats (IH ats eq_refl) Hp
                (Some (with_separator prefix +:+ d_name d +:+ KEYWORD_PARAMS)))
      as (r & fa & Er & Ef & En); [apply good_prefix_params|].
    exists r, fa. rewrite Ef.
    replace (match prefix with Some p => p +:+ d_name d | None => d_name d end
             +:+ KEYWORD_PARAMS)
      with (with_separator prefix +:+ d_name d +:+ KEYWORD_PARAMS).
    + rewrite Er. cbn [res_bind]. now repeat split.
    + rewrite (with_separator_good prefix Hg).
      destruct prefix as [p|]; [now rewrite app_assoc|reflexivity].
  - cbn [orb] in Hd. apply bool_decide_eq_true in Hd. subst ats.
    exists [], []. now repeat split.
Qed.

Lemma names_agree_node n : names_agree n.
Proof.
  induction n as [d IHos IHats] using node_ind2.
  unfold names_agree. rewrite page_node_eq. cbn [entries].
  intros [[Ht Ho]%andb_prop Ha]%andb_prop prefix Hg.
  apply bool_decide_eq_true in Ht. destruct Ht as [t Ht]. rewrite Ht in Ha.
  rewrite prepare_param_eq, flatten_param_eq. unfold name. cbn [entries].
  rewrite Ht. cbv beta iota zeta.
  destruct prefix as [p|].
  all: match goal with
       | |- context [flatten_attributes _ ?pre] =>
           match goal with
           | |- context [Ok (set_options (Given _) ?d0)] =>
               destruct (names_agree_options_of d pre d0 Hg Ho IHos)
                 as (ro & fo & Ero & Efo & Eno);
               rewrite Ero, Efo; cbn [res_bind];
               match goal with
               | |- context [set_attributes (Given _) ?d1] =>
                   destruct (names_agree_attributes_of d t pre d1 Hg Ht Ha IHats)
                     as (ra & fa & Era & Efa & Ena);
                   cbv beta iota in Era; rewrite Era, Efa; cbn [res_bind]
               end
           end
       end.
  all: eexists _, _; split; [reflexivity|]; split; [reflexivity|].
  all: rewrite param_names_eq; cbn [names map]; fold (names (fo ++ fa)).
  all: rewrite names_app, Eno, Ena.
  all: unfold flat_entry, name; cbn [entries]; rewrite ?Ht.
  all: destruct (d_options d) eqn:Eo; destruct (d_attributes d) eqn:Ea.
  all: cbn [d_name d_options d_attributes set_name set_options set_attributes].
  all: rewrite ?Eo, ?Ea; reflexivity.
Qed.

(** X9: on a page tree (every parameter typed; options held by select
    or multiple-select parameters, untyped, without options of their
    own, and with a text value when they have attributes; non-empty
    attributes held by parameters of type dict), [prepare_param_names]
    and [flatten] both return, and the names that [flatten] lists are
    the names that [prepare_param_names] gave, in the same order. *)
Theorem prepare_param_names_agrees_with_flatten (attributes_list : list node) :
  page_tree attributes_list = true →
  ∃ prepared flat,
    prepare_param_names attributes_list None false = Ok prepared
    ∧ flatten attributes_list None = Ok flat
    ∧ names flat = tree_names prepared.
Proof.
  intros Hp. apply names_agree_list; [|exact Hp|reflexivity].
  apply Forall_forall. intros n _. apply names_agree_node.
Qed.

Lemma prepare_param_names_agrees_with_flatten_witness :
  page_tree page_example = true
  ∧ (∃ prepared flat,
       prepare_param_names page_example None false = Ok prepared
       ∧ flatten page_example None = Ok flat
       ∧ names flat = tree_names prepared)
  ∧ (∀ flat, flatten page_example None = Ok flat →
       names flat = [ "model"; "model_parameters_option_A_x";
                      "model_parameters_option_A_w";
                      "model_parameters_option_A_w_parameters_k"; "dt" ]).
Proof.
  split; [reflexivity|]. split.
  - apply (prepare_param_names_agrees_with_flatten page_example). reflexivity.
  - intros flat. vm_compute. now intros [= <-].
Defined.

(** ** Further properties of the conversion *)

Section ConversionMore.
Context `{Externals}.




End ConversionMore.


Section ConversionKeys.
Context `{Externals}.
Context (Pa Pk : string → Prop).

Lemma grows_refl c : grows Pa Pk c c.
Proof. split; auto. Qed.

Lemma grows_trans c1 c2 c3 :
  grows Pa Pk c1 c2 → grows Pa Pk c2 c3 → grows Pa Pk c1 c3.
Proof.
  intros [A12 K12] [A23 K23]. split; intros k Hk.
  - destruct (A23 k Hk) as [H2|]; auto.
  - destruct (K23 k Hk) as [H2|]; auto.
Qed.

Lemma changes_bind {A B} (m : st conversion A) (k : A → st conversion B) :
  changes Pa Pk m → (∀ a, changes Pa Pk (k a)) → changes Pa Pk (st_bind m k).
Proof.
  intros Hm Hk c. unfold st_bind. specialize (Hm c).
  destruct (m c) as [c' [a|e]]; cbn [fst] in *; [|exact Hm].
  specialize (Hk a c'). destruct (k a c') as [c'' r]; cbn [fst] in *.
  eapply grows_trans; eassumption.
Qed.

Lemma changes_quiet {A} (m : st conversion A) : quiet m → changes Pa Pk m.
Proof.
  intros Hm c. destruct (Hm c) as [Ha Hk]. split; intros k; rewrite ?Ha, ?Hk; auto.
Qed.

Lemma quiet_bind {A B} (m : st conversion A) (k : A → st conversion B) :
  quiet m → (∀ a, quiet (k a)) → quiet (st_bind m k).
Proof.
  intros Hm Hk c. unfold st_bind. specialize (Hm c).
  destruct (m c) as [c' [a|e]]; cbn [fst] in *; [|exact Hm].
  specialize (Hk a c'). destruct (k a c') as [c'' r]; cbn [fst] in *.
  destruct Hm as [<- <-]. exact Hk.
Qed.

Lemma quiet_lift {A} (r : res A) : quiet (lift r).
Proof. intros c. now split. Qed.

Lemma quiet_ret {A} (a : A) : quiet (st_ret a).
Proof. intros c. now split. Qed.

Lemma quiet_warning message : quiet (warning message).
Proof. intros c. now split. Qed.

Lemma quiet_validate_value value row : quiet (_validate_range_for_value_input value row).
Proof.
  unfold _validate_range_for_value_input.
  repeat first [ apply quiet_bind; [|intros ?] | apply quiet_lift | apply quiet_warning
               | apply quiet_ret
               | match goal with |- quiet (if ?b then _ else _) => destruct b end ].
Qed.

Lemma quiet_validate_array array row : quiet (_validate_range_for_array_input array row).
Proof.
  unfold _validate_range_for_array_input.
  repeat first [ apply quiet_bind; [|intros ?] | apply quiet_lift | apply quiet_warning
               | apply quiet_ret
               | match goal with |- quiet (if ?b then _ else _) => destruct b end ].
Qed.

Lemma changes_put_kwa key v : Pa key → changes Pa Pk (put_kwa key v).
Proof.
  intros Hkey c. split; intros k; cbn; [|auto].
  destruct (decide (k = key)) as [->|Hne]; [auto|].
  rewrite lookup_insert_ne by congruence. auto.
Qed.

Lemma changes_for_each {A} (f : A → st conversion unit) l :
  (∀ x, changes Pa Pk (f x)) → changes Pa Pk (for_each f l).
Proof.
  intros Hf. induction l as [|x l IH]; cbn [for_each].
  - intros c. apply grows_refl.
  - apply changes_bind; [apply Hf|intros _; exact IH].
Qed.

End ConversionKeys.

Lemma foldr_delete_is_Some {A} (m : gmap string A) ks k :
  is_Some (foldr delete m ks !! k) → is_Some (m !! k).
Proof.
  induction ks as [|x ks IH]; cbn [foldr]; [auto|].
  intros Hk. apply IH. destruct (decide (x = k)) as [->|Hne].
  - rewrite lookup_delete_eq in Hk. now destruct Hk.
  - now rewrite lookup_delete_ne in Hk.
Qed.

Section ConversionRows.
Context `{Externals}.

Ltac quiet_step :=
  first [ apply quiet_validate_value | apply quiet_validate_array
        | apply quiet_bind; [|intros ?] | apply quiet_lift | apply quiet_ret
        | apply quiet_warning
        | (intros ?; split; reflexivity)
        | match goal with |- quiet (match ?x with _ => _ end) => destruct x end ].

Lemma changes_weaken {A} (Pa Pk Pa' Pk' : string → Prop) (m : st conversion A) :
  (∀ k, Pa k → Pa' k) → (∀ k, Pk k → Pk' k) →
  changes Pa Pk m → changes Pa' Pk' m.
Proof.
  intros Ha Hk Hm c. destruct (Hm c) as [Ga Gk]. split; intros k Hs.
  - destruct (Ga k Hs); auto.
  - destruct (Gk k Hs); auto.
Qed.

Lemma find_among_keys flat_name prefix sufix clean count options :
  ∀ dls s k,
    is_Some ((find_among flat_name prefix sufix clean count dls options s).1.1 !! k) →
    is_Some (s.1 !! k).
Proof.
  induction options as [|o options IH]; intros dls s k; cbn [find_among].
  - unfold st_ret. cbn [fst]. auto.
  - unfold st_bind at 1, lift at 1.
    destruct (py_str o) as [text|e]; [|cbn [fst]; auto].
    unfold st_bind at 1.
    set (cleaned := (if clean then _ else st_ret tt) s).
    assert (∀ k, is_Some (cleaned.1.1 !! k) → is_Some (s.1 !! k)) as Hc.
    { subst cleaned. destruct clean; [|auto]. cbn [fst]. intros k'.
      apply foldr_delete_is_Some. }
    assert (∃ s1, cleaned = (s1, Ok tt)) as [s1 E1].
    { subst cleaned. destruct clean; eexists; reflexivity. }
    rewrite E1 in *. cbn [fst] in Hc. unfold st_bind at 1.
    destruct (bool_decide (is_Some (s1.1 !! _))); [unfold st_ret; cbn [fst]; auto|].
    intros Hk. apply Hc. eapply IH, Hk.
Qed.

Lemma find_field_keys flat_name clean s k :
  is_Some ((_find_field_submitted_name flat_name clean s).1.1 !! k) →
  is_Some (s.1 !! k).
Proof.
  unfold _find_field_submitted_name.
  destruct (negb (PyStr.contains flat_name KEYWORD_PARAMS)); [cbn [fst]; auto|].
  unfold st_bind at 1.
  destruct (s.1 !! PyStr.slice_to flat_name (PyStr.find flat_name KEYWORD_PARAMS));
    [|cbn [fst]; auto].
  unfold st_bind at 1, lift at 1.
  destruct (py_iter _) as [options|e]; [|cbn [fst]; auto].
  apply find_among_keys.
Qed.

Lemma changes_coerce row t :
  changes (λ k, k = row_name row ∨ k = row_name row +:+ "_gid")
          (λ k, k = row_name row) (coerce row t).
Proof.
  unfold coerce. apply changes_bind; [apply changes_quiet; repeat quiet_step|].
  intros submitted.
  destruct t;
    repeat first
      [ apply changes_quiet; solve [repeat quiet_step]
      | apply changes_put_kwa; auto
      | apply changes_bind; [|intros ?]
      | match goal with
        | |- changes _ _ (match ?x with _ => _ end) => destruct x
        end ].
Qed.

Lemma changes_convert_body row t :
  changes (λ k, k = row_name row ∨ k = row_name row +:+ "_gid")
          (λ k, k = row_name row) (convert_body row t).
Proof.
  assert (changes (λ k, k = row_name row ∨ k = row_name row +:+ "_gid")
            (λ k, k = row_name row)
            (do! skipped :=
               (λ c, (c, Ok (bool_decide (row_name row ∈ to_skip_dict_subargs c)))) in
             if (skipped : bool) then st_ret tt
             else
               do! present :=
                 (λ c, (c, Ok (bool_decide (is_Some (kwargs c !! row_name row))))) in
               do! go :=
                 if (present : bool) then
                   do! not_submitted :=
                     (λ c, (c, _is_parent_not_submitted (row_name row) (kwargs c))) in
                   if (not_submitted : bool) then
                     λ c, (set_kwargs (delete (row_name row)) c, Ok false)
                   else st_ret true
                 else
                   do! kwa_name :=
                     (λ c, let r := _find_field_submitted_name (row_name row) true
                                      (kwargs c, log c) in
                           (set_log (λ _, r.1.2) (set_kwargs (λ _, r.1.1) c), r.2)) in
                   match kwa_name with
                   | None => st_ret false
                   | Some kwa_name =>
                       do! v := get_kwarg kwa_name in
                       λ c, (set_kwargs (insert (row_name row) v) c, Ok true)
                   end in
               if (go : bool) then coerce row t else st_ret tt)) as Hplain.
  { apply changes_bind; [apply changes_quiet; repeat quiet_step|].
    intros [|]; [apply changes_quiet; repeat quiet_step|].
    apply changes_bind; [apply changes_quiet; repeat quiet_step|].
    intros present. apply changes_bind.
    - destruct present.
      + apply changes_bind; [apply changes_quiet; repeat quiet_step|].
        intros [|]; [|apply changes_quiet; repeat quiet_step].
        intros c. split; intros k; cbn; [auto|].
        intros Hk. left. destruct (decide (k = row_name row)) as [->|Hne].
        * rewrite lookup_delete_eq in Hk. now destruct Hk.
        * now rewrite lookup_delete_ne in Hk by congruence.
      + apply changes_bind.
        * intros c. split; intros k; cbn; [auto|].
          intros Hk. left. exact (find_field_keys _ _ (kwargs c, log c) k Hk).
        * intros [kwa_name|]; [|apply changes_quiet; repeat quiet_step].
          apply changes_bind; [apply changes_quiet; repeat quiet_step|].
          intros v c. split; intros k; cbn; [auto|].
          destruct (decide (k = row_name row)) as [->|Hne]; [auto|].
          rewrite lookup_insert_ne by congruence. auto.
    - intros [|]; [apply changes_coerce|apply changes_quiet; repeat quiet_step]. }
  destruct t; try exact Hplain. clear Hplain.
  unfold convert_body.
  apply changes_bind; [apply changes_quiet; repeat quiet_step|].
  intros found. apply changes_bind; [apply changes_put_kwa; auto|].
  intros _. apply changes_for_each. intros key c. split; intros k; cbn; [|auto].
  intros Hk. left. destruct (decide (k = key)) as [->|Hne].
  - rewrite lookup_delete_eq in Hk. now destruct Hk.
  - now rewrite lookup_delete_ne in Hk by congruence.
Qed.

Lemma changes_convert_row validation_required row :
  changes (λ k, k = row_name row ∨ k = row_name row +:+ "_gid")
          (λ k, k = row_name row) (convert_row validation_required row).
Proof.
  unfold convert_row. destruct (row_type row) as [t|];
    [|apply changes_quiet; repeat quiet_step].
  apply changes_bind; [apply changes_quiet; repeat quiet_step|].
  intros submitted.
  destruct (_ && _); [apply changes_quiet; repeat quiet_step|].
  intros c. unfold guarded. pose proof (changes_convert_body row t c) as Hc.
  destruct (convert_body row t c) as [c' [a|e]]; [exact Hc|].
  now destruct e.
Qed.

End ConversionRows.

Section ConversionResult.
Context `{Externals}.

Lemma changes_for_each_in {A} (Pa Pk : string → Prop) (f : A → st conversion unit) l :
  (∀ x, x ∈ l → changes Pa Pk (f x)) → changes Pa Pk (for_each f l).
Proof.
  induction l as [|x l IH]; intros Hf; cbn [for_each].
  - intros c. apply grows_refl.
  - apply changes_bind.
    + apply Hf, elem_of_cons. now left.
    + intros _. apply IH. intros y Hy. apply Hf, elem_of_cons. now right.
Qed.

Lemma changes_convert_ui_inputs rows validation_required :
  changes (declared rows) (named rows) (for_each (convert_row validation_required) rows).
Proof.
  apply changes_for_each_in. intros row Hrow.
  eapply changes_weaken; [| |apply changes_convert_row].
  - intros k Hk. now exists row.
  - intros k Hk. now exists row.
Qed.

(** X11: whether [convert_ui_inputs] returns or raises, every key of
    the dictionary [kwa] that it has built is the name of a row of the
    interface, or such a name followed by [_gid]: a submitted key
    that the interface does not declare is not passed on. *)
Theorem convert_ui_inputs_kwa_declared (flat_input_interface : list flat_row)
    (submitted : gmap string val) (md : metadata) (validation_required : bool)
    (log0 : list string) (c : conversion) (r : res collapsed) (k : string) :
  convert_ui_inputs flat_input_interface submitted md validation_required log0 = (c, r) →
  is_Some (kwa c !! k) →
  declared flat_input_interface k.
Proof.
  unfold convert_ui_inputs, st_bind. intros Hc Hk.
  pose proof (changes_convert_ui_inputs flat_input_interface validation_required
                (Conversion submitted ∅ [] [] log0 md)) as [Ha _].
  destruct (for_each _ _ _) as [c1 [[]|e1]]; cbn [fst] in Ha;
    injection Hc as <- _; destruct (Ha k Hk) as [Hin|Hd]; try exact Hd;
    cbn [kwa] in Hin; rewrite lookup_empty in Hin; now destruct Hin.
Qed.

(** X12: [convert_ui_inputs] adds to the submitted dictionary of its
    caller no key but names of rows of the interface. *)
Theorem convert_ui_inputs_kwargs_named (flat_input_interface : list flat_row)
    (submitted : gmap string val) (md : metadata) (validation_required : bool)
    (log0 : list string) (c : conversion) (r : res collapsed) (k : string) :
  convert_ui_inputs flat_input_interface submitted md validation_required log0 = (c, r) →
  is_Some (kwargs c !! k) →
  is_Some (submitted !! k) ∨ named flat_input_interface k.
Proof.
  unfold convert_ui_inputs, st_bind. intros Hc Hk.
  pose proof (changes_convert_ui_inputs flat_input_interface validation_required
                (Conversion submitted ∅ [] [] log0 md)) as [_ Hg].
  destruct (for_each _ _ _) as [c1 [[]|e1]]; cbn [fst] in Hg;
    injection Hc as <- _; exact (Hg k Hk).
Qed.

End ConversionResult.

Lemma convert_ui_inputs_kwa_declared_witness :
  @convert_ui_inputs text_natives text_externals
    [text_row "count" TYPE_INT "Count"]
    {["count" := VStr "3"; "other" := VStr "x"]} tt true []
  = (@Conversion text_natives {["count" := VStr "3"; "other" := VStr "x"]}
       {["count" := @Atom text_natives (@AVal text_natives (VInt 3))]} [] [] [] tt,
     Ok [])
  ∧ @declared text_natives [text_row "count" TYPE_INT "Count"] "count".
Proof.
  split; [vm_compute; reflexivity|].
  apply (@convert_ui_inputs_kwa_declared text_natives text_externals
           [text_row "count" TYPE_INT "Count"]
           {["count" := VStr "3"; "other" := VStr "x"]} tt true []
           (@Conversion text_natives {["count" := VStr "3"; "other" := VStr "x"]}
              {["count" := @Atom text_natives (@AVal text_natives (VInt 3))]} [] [] [] tt)
           (Ok []) "count").
  - vm_compute. reflexivity.
  - vm_compute. eexists. reflexivity.
Defined.

Lemma convert_ui_inputs_kwargs_named_witness :
  is_Some (({["count" := VStr "3"; "other" := VStr "x"]} : gmap string val) !! "other")
  ∨ @named text_natives [text_row "count" TYPE_INT "Count"] "other".
Proof.
  apply (@convert_ui_inputs_kwargs_named text_natives text_externals
           [text_row "count" TYPE_INT "Count"]
           {["count" := VStr "3"; "other" := VStr "x"]} tt true []
           (@Conversion text_natives {["count" := VStr "3"; "other" := VStr "x"]}
              {["count" := @Atom text_natives (@AVal text_natives (VInt 3))]} [] [] [] tt)
           (Ok []) "other").
  - vm_compute. reflexivity.
  - vm_compute. eexists. reflexivity.
Defined.

(** ** Further properties of the submitted texts *)

Lemma remove_char_free c s : free c s = true → PyStr.remove_char c s = s.
Proof.
  induction s as [|a s IH]; [reflexivity|]. cbn [free PyStr.remove_char].
  intros [Ha Hs]%andb_prop. apply negb_true_iff in Ha. rewrite Ha.
  now rewrite IH.
Qed.

Lemma free_app c a b : free c (a +:+ b) = free c a && free c b.
Proof.
  induction a as [|x a IH]; rewrite ?app_cons, ?app_nil_l; [reflexivity|].
  cbn [free]. rewrite IH. now rewrite andb_assoc.
Qed.

Lemma free_join c l :
  free c "," = true → Forall (λ x, free c x = true) l → free c (PyStr.join "," l) = true.
Proof.
  intros Hc F. induction F as [|x l Hx F IH]; [reflexivity|].
  destruct l as [|y l]; [exact Hx|].
  change (PyStr.join "," (x :: y :: l)) with (x +:+ "," +:+ PyStr.join "," (y :: l)).
  rewrite !free_app, Hx, Hc, IH. reflexivity.
Qed.

Lemma startswith_nil s : PyStr.startswith s "" = true.
Proof. now destruct s. Qed.

Lemma split_aux_free x :
  free "," x = true →
  ∀ fuel cur, (String.length x < fuel)%nat →
    PyStr.split_aux fuel "," cur x = [cur +:+ x].
Proof.
  induction x as [|a x IH]; intros Hx fuel cur Hf.
  - destruct fuel; [cbn in Hf; lia|]. cbn [PyStr.split_aux]. now rewrite app_nil_r.
  - cbn [free] in Hx. apply andb_prop in Hx as [Ha Hx]. apply negb_true_iff in Ha.
    destruct fuel as [|fuel]; [cbn in Hf; lia|].
    cbn [PyStr.split_aux PyStr.startswith]. rewrite Ascii.eqb_sym, Ha.
    rewrite IH by (assumption || cbn [String.length] in Hf; lia).
    now rewrite app_assoc, app_cons, app_nil_l.
Qed.

Lemma split_aux_sep x r :
  free "," x = true →
  ∀ fuel cur, (String.length x < fuel)%nat →
    PyStr.split_aux fuel "," cur (x +:+ "," +:+ r)
    = (cur +:+ x) :: PyStr.split_aux (fuel - String.length x - 1) "," "" r.
Proof.
  induction x as [|a x IH]; intros Hx fuel cur Hf.
  - destruct fuel as [|fuel]; [cbn in Hf; lia|].
    rewrite app_nil_l, app_cons, app_nil_l, app_nil_r.
    cbn [PyStr.split_aux PyStr.startswith String.length PyStr.drop].
    rewrite Ascii.eqb_refl, startswith_nil. f_equal. f_equal. lia.
  - cbn [free] in Hx. apply andb_prop in Hx as [Ha Hx]. apply negb_true_iff in Ha.
    destruct fuel as [|fuel]; [cbn in Hf; lia|].
    rewrite app_cons.
    cbn [PyStr.split_aux PyStr.startswith]. rewrite Ascii.eqb_sym, Ha.
    rewrite IH by (assumption || cbn [String.length] in Hf; lia).
    rewrite app_assoc, app_cons, app_nil_l. cbn [String.length].
    f_equal.
Qed.

Lemma split_aux_join l :
  Forall (λ x, free "," x = true) l →
  ∀ x fuel cur, free "," x = true →
    (String.length (PyStr.join "," (x :: l)) < fuel)%nat →
    PyStr.split_aux fuel "," cur (PyStr.join "," (x :: l)) = (cur +:+ x) :: l.
Proof.
  intros F. induction F as [|y l Hy F IH]; intros x fuel cur Hx Hf.
  - cbn [PyStr.join] in *. now apply split_aux_free.
  - change (PyStr.join "," (x :: y :: l)) with (x +:+ "," +:+ PyStr.join "," (y :: l)) in *.
    rewrite !length_app_string in Hf. cbn [String.length] in Hf.
    rewrite split_aux_sep by (assumption || lia).
    rewrite IH by (assumption || lia). now rewrite app_nil_l.
Qed.

Lemma split_join l :
  l ≠ [] → Forall (λ x, free "," x = true) l →
  PyStr.split (PyStr.join "," l) "," = l.
Proof.
  intros Hl F. destruct l as [|x l]; [congruence|].
  apply Forall_cons in F as [Hx F]. unfold PyStr.split.
  rewrite split_aux_join by (assumption || lia). now rewrite app_nil_l.
Qed.

Lemma plain_free s :
  plain s = true → free "," s = true ∧ free "[" s = true ∧ free "]" s = true.
Proof. unfold plain. now intros [[? ?]%andb_prop ?]%andb_prop. Qed.

Lemma submitted_join (values : list string) :
  values ≠ [] → Forall (λ v, plain v = true) values →
  _compute_submit_option_select (VStr (PyStr.join "," values))
  = VList (map VStr values).
Proof.
  intros Hv F. unfold _compute_submit_option_select.
  rewrite (remove_char_free "[").
  - rewrite (remove_char_free "]").
    + rewrite split_join; [reflexivity|exact Hv|].
      eapply Forall_impl; [exact F|]. intros v Hp. now apply plain_free in Hp.
    + apply free_join; [reflexivity|].
      eapply Forall_impl; [exact F|]. intros v Hp. now apply plain_free in Hp.
  - apply free_join; [reflexivity|].
    eapply Forall_impl; [exact F|]. intros v Hp. now apply plain_free in Hp.
Qed.

(** X13: a text made of texts without comma and square bracket,
    joined by commas, is read by [_compute_submit_option_select] as
    the list of those texts. *)
Theorem compute_submit_option_select_join (values : list string) :
  values ≠ [] → Forall (λ v, plain v = true) values →
  _compute_submit_option_select (VStr (PyStr.join "," values))
  = VList (map VStr values).
Proof. exact (submitted_join values). Qed.

Lemma compute_submit_option_select_join_witness :
  _compute_submit_option_select (VStr (PyStr.join "," ["gid0"; "gid1"; "gid2"]))
  = VList (map VStr ["gid0"; "gid1"; "gid2"]).
Proof.
  apply (compute_submit_option_select_join ["gid0"; "gid1"; "gid2"]).
  - discriminate.
  - repeat constructor.
Defined.

Section AllOption.
Context `{Store}.

(** X14: when [_populate_values] puts the option [All] before the
    options of the rows (a category that is neither display nor raw
    input, more than one row), and no identifier of a row holds a
    comma or a square bracket, the value of [All], as
    [_compute_submit_option_select] reads it, is the list of the
    identifiers of all the rows, in order. *)
Theorem populate_values_all_selects_all (data_list : list row) (type_ : ptype)
    (key : Z) (cat : category) (complex_dt_attributes : option (list node)) :
  get_category_by_id key = Some cat →
  display cat = false → rawinput cat = false →
  (1 < length data_list)%nat →
  Forall (λ value, plain (value_2 value) = true) data_list →
  ∃ all v,
    _populate_values data_list type_ (Some key) complex_dt_attributes
    = Ok (all :: map (row_option type_ complex_dt_attributes) data_list)
    ∧ d_value (entries all) = Some v
    ∧ _compute_submit_option_select v
      = VList (map (λ value, VStr (value_2 value)) data_list).
Proof.
  intros Hc Hd Hr Hl F.
  rewrite populate_values_eq by (intros k [= <-]; rewrite Hc; now eexists).
  unfold adds_all. rewrite Hc, Hd, Hr. cbn [negb andb].
  rewrite bool_decide_eq_true_2 by exact Hl. cbn [app].
  eexists _, _. split; [reflexivity|]. split; [reflexivity|].
  rewrite submitted_join.
  - now rewrite map_map.
  - destruct data_list; [cbn in Hl; lia|discriminate].
  - apply Forall_map. exact F.
Qed.

End AllOption.

Lemma populate_values_all_selects_all_witness :
  ∃ all v,
    @_populate_values (entity_store (entities 3)) (entities 3)
      (TYPE_CLASS "tvb.datatypes.Example") (Some 1) None
    = Ok (all :: map (@row_option (entity_store (entities 3))
                        (TYPE_CLASS "tvb.datatypes.Example") None) (entities 3))
    ∧ d_value (entries all) = Some v
    ∧ _compute_submit_option_select v
      = VList (map (λ value, VStr (value_2 value)) (entities 3)).
Proof.
  apply (@populate_values_all_selects_all (entity_store (entities 3)) (entities 3)
           (TYPE_CLASS "tvb.datatypes.Example") 1 (Category false false) None).
  - reflexivity.
  - reflexivity.
  - reflexivity.
  - vm_compute. lia.
  - vm_compute. repeat constructor.
Defined.

(** ** Reading a flat name back *)

Lemma find_nat_under a s t :
  underscore_free a = true →
  PyStr.startswith (String "_" s) (String "_" t) = true →
  PyStr.find_nat (a +:+ String "_" s) (String "_" t) = Some (String.length a).
Proof.
  intros Ha Hs. induction a as [|x a IH]; rewrite ?app_cons, ?app_nil_l.
  - destruct s; cbn [PyStr.find_nat]; now rewrite Hs.
  - cbn [underscore_free] in Ha. apply andb_prop in Ha as [Hx Ha].
    apply negb_true_iff in Hx.
    cbn [PyStr.find_nat PyStr.startswith]. rewrite Ascii.eqb_sym, Hx.
    rewrite IH by assumption. reflexivity.
Qed.

Lemma startswith_token q rest t u :
  underscore_free q = true → underscore_free t = true →
  PyStr.startswith (q +:+ String "_" rest) (t +:+ String "_" u) = true → q = t.
Proof.
  revert t. induction q as [|x q IH]; intros [|y t] Hq Ht;
    rewrite ?app_cons, ?app_nil_l; cbn [PyStr.startswith underscore_free] in *.
  - reflexivity.
  - apply andb_prop in Ht as [Hy _]. apply negb_true_iff in Hy. now rewrite Hy.
  - apply andb_prop in Hq as [Hx _]. apply negb_true_iff in Hx.
    now rewrite Ascii.eqb_sym, Hx.
  - apply andb_prop in Hq as [_ Hq]. apply andb_prop in Ht as [_ Ht].
    destruct (Ascii.eqb_spec y x) as [->|]; [|discriminate].
    intros Hs. f_equal. now apply IH.
Qed.

Lemma find_nat_cons x s sub :
  PyStr.find_nat (String x s) sub
  = if PyStr.startswith (String x s) sub then Some O else S <$> PyStr.find_nat s sub.
Proof. reflexivity. Qed.

Lemma find_nat_option p rest :
  underscore_free p = true → PyStr.endswith p "option" = false →
  PyStr.find_nat (p +:+ "_parameters_option_" +:+ rest) KEYWORD_OPTION
  = Some (String.length p + 12)%nat.
Proof.
  intros Hp He. induction p as [|x p IH]; [|rewrite app_cons].
  - now destruct rest.
  - assert (PyStr.startswith (String x (p +:+ "_parameters_option_" +:+ rest))
              KEYWORD_OPTION = false) as Hs.
    { destruct (PyStr.startswith _ _) eqn:Hs; [|reflexivity].
      rewrite <- app_cons in Hs.
      apply (startswith_token (String x p) ("parameters_option_" +:+ rest)
               "option" "") in Hs; [|assumption|reflexivity].
      rewrite Hs in He. discriminate. }
    cbn [PyStr.endswith] in He.
    destruct (String.eqb (String x p) "option"); [discriminate|].
    cbn [underscore_free] in Hp. apply andb_prop in Hp as [_ Hp].
    rewrite find_nat_cons, Hs, IH by assumption. reflexivity.
Qed.

Lemma drop_app_string a n b :
  PyStr.drop (String.length a + n) (a +:+ b) = PyStr.drop n b.
Proof.
  induction a as [|x a IH]; rewrite ?app_cons, ?app_nil_l; [reflexivity|].
  cbn [String.length PyStr.drop Nat.add]. exact IH.
Qed.

Lemma slice_to_app a b : PyStr.slice_to (a +:+ b) (Z.of_nat (String.length a)) = a.
Proof.
  unfold PyStr.slice_to, PyStr.bound.
  destruct (Z.ltb_spec (Z.of_nat (String.length a)) 0) as [Hlt|_]; [lia|].
  rewrite Nat2Z.id. apply take_app_string.
Qed.

Lemma slice_from_app a n b :
  PyStr.slice_from (a +:+ b) (Z.of_nat (String.length a + n))
  = PyStr.drop n b.
Proof.
  unfold PyStr.slice_from, PyStr.bound.
  destruct (Z.ltb_spec (Z.of_nat (String.length a + n)) 0) as [Hlt|_]; [lia|].
  rewrite Nat2Z.id. apply drop_app_string.
Qed.

(** X15: the name that [form_prefix] makes for a parameter under the
    option [v] of the top-level parameter [parent] is read back by
    [_is_parent_not_submitted]: when the name of the parent and the
    value of the option hold no underscore, and the name of the parent
    does not end in [option], the parent that is looked up in the
    submitted dictionary is [parent] (a [KeyError] when it is not
    there) and the option that is looked for among the submitted ones
    is [v]. *)
Theorem is_parent_not_submitted_reads_form_prefix (parent v child pre : string)
    (kwargs : gmap string val) :
  underscore_free parent = true → PyStr.endswith parent "option" = false →
  underscore_free v = true →
  form_prefix parent None (VStr v) = Ok pre →
  _is_parent_not_submitted (pre +:+ child) kwargs
  = match kwargs !! parent with
    | None => Raise (KeyError parent)
    | Some submitted =>
        let submitted_option := _compute_submit_option_select submitted in
        if negb (py_bool submitted_option) then Ok true
        else
          let! found := py_in (VStr v) submitted_option in
          Ok (negb found)
    end.
Proof.
  intros Hp He Hv Hpre. unfold form_prefix in Hpre. injection Hpre as <-.
  match goal with
  | |- _is_parent_not_submitted ?name _ = _ =>
      replace name
        with (parent +:+ "_parameters_option_" +:+ v +:+ String "_" child)
        by (unfold KEYWORD_PARAMS, KEYWORD_OPTION, KEYWORD_SEPARATOR;
            rewrite !app_assoc, ?app_nil_l; reflexivity)
  end.
  set (att := parent +:+ "_parameters_option_" +:+ v +:+ String "_" child).
  assert (PyStr.find_nat att KEYWORD_PARAMS = Some (String.length parent)) as Hfp.
  { subst att. change ("_parameters_option_" +:+ v +:+ String "_" child)
      with (String "_" ("parameters_option_" +:+ v +:+ String "_" child)).
    apply find_nat_under; [exact Hp|].
    rewrite !app_cons, app_nil_l. cbn. rewrite ?startswith_nil. reflexivity. }
  assert (PyStr.find_nat att KEYWORD_OPTION = Some (String.length parent + 12)%nat)
    as Hfo by (apply find_nat_option; assumption).
  unfold _is_parent_not_submitted, PyStr.contains, PyStr.find.
  rewrite Hfp, Hfo. rewrite bool_decide_eq_true_2 by (now eexists).
  cbv zeta.
  replace (PyStr.slice_to att (Z.of_nat (String.length parent))) with parent
    by (symmetry; apply slice_to_app).
  replace (PyStr.slice_from att (Z.of_nat (String.length parent + 12) + 7))
    with (v +:+ String "_" child).
  2: { replace (Z.of_nat (String.length parent + 12) + 7)
         with (Z.of_nat (String.length parent + 19)) by lia.
       subst att. rewrite slice_from_app. reflexivity. }
  assert (PyStr.find_nat (v +:+ String "_" child) KEYWORD_SEPARATOR
          = Some (String.length v)) as Hfs.
  { apply find_nat_under; [exact Hv|]. cbn. rewrite ?startswith_nil. reflexivity. }
  rewrite Hfs, slice_to_app. reflexivity.
Qed.

Lemma is_parent_not_submitted_reads_form_prefix_witness :
  _is_parent_not_submitted "model_parameters_option_A_x" {["model" := VStr "B"]}
  = match ({["model" := VStr "B"]} : gmap string val) !! "model" with
    | None => Raise (KeyError "model")
    | Some submitted =>
        let submitted_option := _compute_submit_option_select submitted in
        if negb (py_bool submitted_option) then Ok true
        else
          let! found := py_in (VStr "A") submitted_option in
          Ok (negb found)
    end
  ∧ _is_parent_not_submitted "model_parameters_option_A_x" {["model" := VStr "B"]}
    = Ok true
  ∧ _is_parent_not_submitted "model_parameters_option_A_x" {["model" := VStr "A"]}
    = Ok false.
Proof.
  split; [|split; vm_compute; reflexivity].
  apply (is_parent_not_submitted_reads_form_prefix "model" "A" "x"
           "model_parameters_option_A_" {["model" := VStr "B"]});
    reflexivity.
Defined.

(** ** Datatype parameters *)

Section DatatypeParameters.
Context `{Store}.

Lemma fill_tree_param_class (param : node) (path : string) (project_id : Z)
    (category_key : option Z) (log : list string) :
  hidden param = false →
  d_type (entries param) = Some (TYPE_CLASS path) →
  (∀ a l, d_attributes (entries param) ≠ Given (a :: l)) →
  (∀ key, category_key = Some key → is_Some (get_category_by_id key)) →
  let t := TYPE_CLASS path in
  let rows := (found_for project_id t param).1 in
  match d_dynamic (entries param), d_default (entries param) with
  | Some _, None =>
      fill_tree_param project_id category_key param log
      = (log_for t log, Raise (KeyError "default"))
  | Some _, Some (VStr s) =>
      ∃ n, fill_tree_param project_id category_key param log
           = (log_for t log, Ok (Some n))
           ∧ d_options (entries n) = Given [dynamic_option s]
           ∧ d_type (entries n) = Some TYPE_SELECT
           ∧ d_datatype (entries n) = Some path
           ∧ d_attributes (entries n) = Given []
  | Some _, Some _ => True
  | None, _ =>
      ∃ n, fill_tree_param project_id category_key param log
           = (log_for t log, Ok (Some n))
           ∧ d_options (entries n) = Given (values_for t category_key rows)
           ∧ d_type (entries n) = Some TYPE_SELECT
           ∧ d_datatype (entries n) = Some path
           ∧ d_attributes (entries n) = Given []
           ∧ d_filterable (entries n) = Some (get_filters_for_type t)
  end.
Proof.
  destruct param as [[nm ty lb df rq vl os ats uh cn dy wa fi dt]].
  unfold hidden, found_for, log_for, values_for.
  cbn [entries d_ui_hidden d_type d_dynamic d_attributes d_conditions d_default].
  intros Huh -> Hats Hcat. cbv zeta.
  set (found := match get_class_instance (TYPE_CLASS path) with
                | Some data_class =>
                    get_values_of_datatype project_id data_class (add_visible cn)
                      MAXIMUM_DATA_TYPES_DISPLAYED
                | None => ([], O)
                end).
  set (log' := match get_class_instance (TYPE_CLASS path) with
               | Some _ => log
               | None => log ++ ["Invalid Class specification:" +:+ type_name (TYPE_CLASS path)]
               end).
  assert (match get_class_instance (TYPE_CLASS path) with
          | Some data_class =>
              st_ret (get_values_of_datatype project_id data_class (add_visible cn)
                        MAXIMUM_DATA_TYPES_DISPLAYED)
          | None =>
              λ log0 : list string,
                (log0 ++ ["Invalid Class specification:" +:+ type_name (TYPE_CLASS path)],
                 Ok ([], O))
          end log = (log', Ok found)) as Hfound.
  { subst found log'. now destruct (get_class_instance (TYPE_CLASS path)). }
  assert (match ats with
          | Given ((_ :: _) as attrs) =>
              do! r := st_filter_map (fill_tree_param project_id category_key) attrs in
              st_ret (Some r)
          | _ => st_ret None
          end = st_ret None) as Hnone.
  { destruct ats as [| |[|a l]]; try reflexivity. exfalso. now eapply Hats. }
  set (values := (if adds_all category_key (length found.1)
                  then [all_option found.1] else [])
                 ++ map (row_option (TYPE_CLASS path) None) found.1).
  assert ((0 < length values)%nat → ∃ gid, last_value values = Ok gid) as Hlast.
  { intros Hlen. apply last_value_populated. intros Hnil.
    unfold values in Hlen. rewrite Hnil in Hlen. unfold adds_all in Hlen.
    destruct category_key as [key|]; [|cbn in Hlen; lia].
    destruct (get_category_by_id key); [|cbn in Hlen; lia].
    rewrite andb_false_r in Hlen. cbn in Hlen. lia. }
  clearbody found log'.
  destruct dy as [dyn|]; [destruct df as [[| | |s|]|]|]; try exact I.
  all: cbn [fill_tree_param entries d_ui_hidden d_type d_dynamic d_attributes
            d_conditions d_default in_STATIC_ACCEPTED_TYPES].
  all: rewrite Huh.
  all: unfold st_bind at 1; unfold _get_available_datatypes; rewrite Hfound, Hnone.
  all: unfold st_bind at 1, st_ret at 1; rewrite populate_values_eq by assumption.
  all: unfold st_bind at 1, lift at 1; fold values.
  all: match goal with
       | |- context [if ?c then (do! _ := lift (last_value _) in _) else _] =>
           destruct c eqn:Ec;
           [ apply andb_true_iff in Ec as [Ec _];
             apply andb_true_iff in Ec as [_ Ec]; apply bool_decide_eq_true in Ec;
             destruct (Hlast Ec) as [gid Hgid];
             unfold st_bind at 1, lift at 1; rewrite Hgid
           | ]
       end.
  all: unfold st_bind, st_ret, st_raise.
  all: try reflexivity.
  all: eexists; (split; [reflexivity|]); repeat split.
Qed.

(** X16: a datatype parameter that is not hidden, is dynamic, has a
    text for default and no attributes of its own (none or an empty
    list) gets, when the category key is [None] or names a category
    and whatever rows the store returns for it, exactly one option,
    whose name and value are the default of the parameter; it becomes
    a select that records its former type under ['datatype'], with an
    empty list of attributes. *)
Theorem fill_input_tree_with_options_dynamic (param : node) (path s : string)
    (dyn : val) (project_id : Z) (category_key : option Z) (log : list string) :
  hidden param = false →
  d_type (entries param) = Some (TYPE_CLASS path) →
  d_dynamic (entries param) = Some dyn →
  d_default (entries param) = Some (VStr s) →
  (∀ a l, d_attributes (entries param) ≠ Given (a :: l)) →
  (∀ key, category_key = Some key → is_Some (get_category_by_id key)) →
  ∃ n,
    fill_input_tree_with_options [param] project_id category_key log
    = (log_for (TYPE_CLASS path) log, Ok [n])
    ∧ d_options (entries n) = Given [dynamic_option s]
    ∧ d_type (entries n) = Some TYPE_SELECT
    ∧ d_datatype (entries n) = Some path
    ∧ d_attributes (entries n) = Given [].
Proof.
  intros Hh Ht Hd Hdf Ha Hc.
  pose proof (fill_tree_param_class param path project_id category_key log Hh Ht Ha Hc)
    as Hp.
  cbv zeta in Hp. rewrite Hd, Hdf in Hp. destruct Hp as (n & En & Hn).
  exists n. split; [|exact Hn].
  unfold fill_input_tree_with_options. cbn [st_filter_map].
  unfold st_bind at 1. rewrite En. reflexivity.
Qed.

(** X17: a datatype parameter that is not hidden, is dynamic, has no
    default and no attributes of its own (none or an empty list)
    makes [fill_input_tree_with_options] raise [KeyError('default')]
    when the category key is [None] or names a category, whatever
    follows the parameter in the list. *)
Theorem fill_input_tree_with_options_dynamic_KeyError (param : node) (path : string)
    (dyn : val) (rest : list node) (project_id : Z) (category_key : option Z)
    (log : list string) :
  hidden param = false →
  d_type (entries param) = Some (TYPE_CLASS path) →
  d_dynamic (entries param) = Some dyn →
  d_default (entries param) = None →
  (∀ a l, d_attributes (entries param) ≠ Given (a :: l)) →
  (∀ key, category_key = Some key → is_Some (get_category_by_id key)) →
  fill_input_tree_with_options (param :: rest) project_id category_key log
  = (log_for (TYPE_CLASS path) log, Raise (KeyError "default")).
Proof.
  intros Hh Ht Hd Hdf Ha Hc.
  pose proof (fill_tree_param_class param path project_id category_key log Hh Ht Ha Hc)
    as Hp.
  cbv zeta in Hp. rewrite Hd, Hdf in Hp.
  unfold fill_input_tree_with_options. cbn [st_filter_map].
  unfold st_bind at 1. rewrite Hp. reflexivity.
Qed.

(** X18: for a datatype parameter that is not hidden, not dynamic,
    without attributes of its own (none or an empty list) and whose
    class [_get_class_instance] does not know,
    [_get_available_datatypes] logs the warning
    [Invalid Class specification:] with the type, and the parameter
    gets an empty list of options, when the category key is [None] or
    names a category. *)
Theorem fill_input_tree_with_options_unknown_class (param : node) (path : string)
    (project_id : Z) (category_key : option Z) (log : list string) :
  hidden param = false →
  d_type (entries param) = Some (TYPE_CLASS path) →
  d_dynamic (entries param) = None →
  get_class_instance (TYPE_CLASS path) = None →
  (∀ a l, d_attributes (entries param) ≠ Given (a :: l)) →
  (∀ key, category_key = Some key → is_Some (get_category_by_id key)) →
  ∃ n,
    fill_input_tree_with_options [param] project_id category_key log
    = (log ++ ["Invalid Class specification:" +:+ path], Ok [n])
    ∧ d_options (entries n) = Given [].
Proof.
  intros Hh Ht Hd Hcls Ha Hc.
  pose proof (fill_tree_param_class param path project_id category_key log Hh Ht Ha Hc)
    as Hp.
  cbv zeta in Hp. rewrite Hd in Hp. destruct Hp as (n & En & Ho & _).
  unfold log_for, found_for in *. rewrite Hcls in *. cbn [fst] in Ho.
  exists n. split.
  - unfold fill_input_tree_with_options. cbn [st_filter_map].
    unfold st_bind at 1. rewrite En. reflexivity.
  - rewrite Ho. unfold values_for, adds_all. cbn [length map].
    destruct category_key as [key|]; [|reflexivity].
    destruct (get_category_by_id key) as [cat|]; [|reflexivity].
    now rewrite andb_false_r.
Qed.

(** X19: a datatype parameter that is not hidden, not dynamic and
    without attributes of its own (none or an empty list) becomes a
    select, when the category key is [None] or names a category: its
    type is ['select'], its former type is recorded under
    ['datatype'], ['filterable'] holds the filters of that type, its
    attributes are an empty list, and its options are those that
    [_populate_values] makes of the rows that the store returned. *)
Theorem fill_input_tree_with_options_select (param : node) (path : string)
    (project_id : Z) (category_key : option Z) (log : list string) :
  hidden param = false →
  d_type (entries param) = Some (TYPE_CLASS path) →
  d_dynamic (entries param) = None →
  (∀ a l, d_attributes (entries param) ≠ Given (a :: l)) →
  (∀ key, category_key = Some key → is_Some (get_category_by_id key)) →
  ∃ n,
    fill_input_tree_with_options [param] project_id category_key log
    = (log_for (TYPE_CLASS path) log, Ok [n])
    ∧ d_type (entries n) = Some TYPE_SELECT
    ∧ d_datatype (entries n) = Some path
    ∧ d_filterable (entries n) = Some (get_filters_for_type (TYPE_CLASS path))
    ∧ d_attributes (entries n) = Given []
    ∧ d_options (entries n)
      = Given (values_for (TYPE_CLASS path) category_key
                 (found_for project_id (TYPE_CLASS path) param).1).
Proof.
  intros Hh Ht Hd Ha Hc.
  pose proof (fill_tree_param_class param path project_id category_key log Hh Ht Ha Hc)
    as Hp.
  cbv zeta in Hp. rewrite Hd in Hp.
  destruct Hp as (n & En & Ho & Hty & Hdt & Hat & Hfi).
  exists n. split; [|now repeat split].
  unfold fill_input_tree_with_options. cbn [st_filter_map].
  unfold st_bind at 1. rewrite En. reflexivity.
Qed.

End DatatypeParameters.

Lemma fill_input_tree_with_options_dynamic_witness :
  ∃ n,
    @fill_input_tree_with_options (entity_store (entities 2))
      [dynamic_leaf (Some (VStr "gid7"))] 7 None []
    = (@log_for (entity_store (entities 2)) (TYPE_CLASS "tvb.datatypes.Example") [],
       Ok [n])
    ∧ d_options (entries n) = Given [dynamic_option "gid7"]
    ∧ d_type (entries n) = Some TYPE_SELECT
    ∧ d_datatype (entries n) = Some "tvb.datatypes.Example"
    ∧ d_attributes (entries n) = Given [].
Proof.
  apply (@fill_input_tree_with_options_dynamic (entity_store (entities 2))
           (dynamic_leaf (Some (VStr "gid7"))) "tvb.datatypes.Example" "gid7"
           (VBool true) 7 None []); try reflexivity.
  - intros a l. discriminate.
  - intros key. discriminate.
Defined.

Lemma fill_input_tree_with_options_dynamic_KeyError_witness :
  @fill_input_tree_with_options (entity_store (entities 2))
    [dynamic_leaf None; datatype_leaf] 7 None []
  = (@log_for (entity_store (entities 2)) (TYPE_CLASS "tvb.datatypes.Example") [],
     Raise (KeyError "default")).
Proof.
  apply (@fill_input_tree_with_options_dynamic_KeyError (entity_store (entities 2))
           (dynamic_leaf None) "tvb.datatypes.Example" (VBool true) [datatype_leaf]
           7 None []); try reflexivity.
  - intros a l. discriminate.
  - intros key. discriminate.
Defined.

Lemma fill_input_tree_with_options_unknown_class_witness :
  ∃ n,
    @fill_input_tree_with_options empty_store [datatype_leaf] 7 None []
    = ([] ++ ["Invalid Class specification:" +:+ "tvb.datatypes.Example"], Ok [n])
    ∧ d_options (entries n) = Given [].
Proof.
  apply (@fill_input_tree_with_options_unknown_class empty_store datatype_leaf
           "tvb.datatypes.Example" 7 None []); try reflexivity.
  - intros a l. discriminate.
  - intros key. discriminate.
Defined.

Lemma fill_input_tree_with_options_select_witness :
  ∃ n,
    @fill_input_tree_with_options (entity_store (entities 2)) [datatype_leaf] 7
      (Some 1) []
    = (@log_for (entity_store (entities 2)) (TYPE_CLASS "tvb.datatypes.Example") [],
       Ok [n])
    ∧ d_type (entries n) = Some TYPE_SELECT
    ∧ d_datatype (entries n) = Some "tvb.datatypes.Example"
    ∧ d_filterable (entries n)
      = Some (@get_filters_for_type (entity_store (entities 2))
                (TYPE_CLASS "tvb.datatypes.Example"))
    ∧ d_attributes (entries n) = Given []
    ∧ d_options (entries n)
      = Given (@values_for (entity_store (entities 2))
                 (TYPE_CLASS "tvb.datatypes.Example") (Some 1)
                 (@found_for (entity_store (entities 2)) 7
                    (TYPE_CLASS "tvb.datatypes.Example") datatype_leaf).1).
Proof.
  apply (@fill_input_tree_with_options_select (entity_store (entities 2)) datatype_leaf
           "tvb.datatypes.Example" 7 (Some 1) []); try reflexivity.
  - intros a l. discriminate.
  - intros key [= <-]. now eexists.
Defined.

Section RequiredDefault.
Context `{Store}.

Lemma st_filter_map_filter {S A} (f : A → st S (option A)) (keep : A → bool) l :
  Forall (λ x, ∀ s, f x s = (s, Ok (if keep x then Some x else None))) l →
  ∀ s, st_filter_map f l s = (s, Ok (List.filter keep l)).
Proof.
  intros F. induction F as [|x l Hx F IH]; intros s; [reflexivity|].
  cbn [st_filter_map List.filter]. unfold st_bind at 1. rewrite Hx.
  unfold st_bind at 1. rewrite IH. now destruct (keep x).
Qed.

Lemma fill_tree_param_hidden project_id category_key o log :
  hidden o = true →
  fill_tree_param project_id category_key o log = (log, Ok None).
Proof.
  destruct o as [[nm ty lb df rq vl os ats uh cn dy wa fi dt]]. unfold hidden.
  cbn [fill_tree_param entries d_ui_hidden]. now intros ->.
Qed.

(** X20: a required parameter that is not hidden, of a static type
    (or of none), with options, without a list of attributes, and
    with no default (none, [None] or ['None']), every option of which
    is hidden or is a static parameter that the function returns as
    it is, gets for its default the text of the value of the last of
    the options it was given: the last before the hidden options are
    left out, so the default can be the value of an option that the
    result does not list. *)
Theorem fill_input_tree_with_options_required_default (param : node)
    (options : list node) (last_option : node) (v : val) (s : string)
    (project_id : Z) (category_key : option Z) (log : list string) :
  hidden param = false →
  untyped_or_static (entries param) = true →
  d_required (entries param) = Some true →
  default_unset (entries param) = true →
  d_options (entries param) = Given options →
  get_list (d_attributes (entries param)) = None →
  forallb (λ o, hidden o || static_node o) options = true →
  last options = Some last_option →
  d_value (entries last_option) = Some v → py_str v = Ok s →
  fill_input_tree_with_options [param] project_id category_key log
  = (log,
     Ok [Node (set_default (VStr s)
                 (set_options (Given (List.filter (λ o, negb (hidden o)) options))
                    (entries param)))]).
Proof.
  intros Hh Ht Hr Hd Ho Ha Hos Hl Hv Hs.
  assert (∀ s0, st_filter_map (fill_tree_param project_id category_key) options s0
                = (s0, Ok (List.filter (λ o, negb (hidden o)) options))) as Hf.
  { apply st_filter_map_filter. apply Forall_forall. intros o Hin s0.
    rewrite forallb_forall in Hos. specialize (Hos o).
    rewrite <- list_elem_of_In in Hos. specialize (Hos Hin).
    destruct (hidden o) eqn:Hho; cbn [negb].
    - now apply fill_tree_param_hidden.
    - cbn [orb] in Hos. now apply fill_tree_param_static. }
  assert (last_value options = Ok s) as Hlv.
  { unfold last_value, get_value. rewrite Hl, Hv. exact Hs. }
  assert (0 < length options)%nat as Hlen.
  { destruct options; [discriminate|cbn; lia]. }
  destruct param as [[nm ty lb df rq vl os ats uh cn dy wa fi dt]].
  unfold hidden, untyped_or_static, default_unset in *.
  cbn [entries d_ui_hidden d_type d_required d_default d_options d_attributes] in *.
  subst rq os.
  unfold fill_input_tree_with_options. cbn [st_filter_map].
  unfold st_bind at 1.
  cbn [fill_tree_param entries d_ui_hidden d_type d_dynamic d_attributes d_options
       d_conditions d_name d_required d_default].
  rewrite Hh.
  assert (∀ b : bool, b = true → ∀ A (x y : A), (if b then x else y) = x) as Hif
    by (now intros b ->).
  destruct ty as [t|]; [rewrite (Hif _ Ht)|]; clear Hif Ht.
  all: unfold st_bind at 1; unfold st_bind at 1; rewrite Hf.
  all: cbn [d_required set_options default_unset d_default].
  all: rewrite bool_decide_eq_true_2 by reflexivity.
  all: rewrite bool_decide_eq_true_2 by exact Hlen.
  all: unfold default_unset; cbn [d_default set_options]; rewrite Hd; cbn [andb].
  all: unfold st_bind at 1, lift at 1; rewrite Hlv.
  all: destruct ats as [| |ats]; try discriminate; reflexivity.
Qed.

End RequiredDefault.

Lemma fill_input_tree_with_options_required_default_witness :
  @fill_input_tree_with_options empty_store [required_choice] 7 None []
  = ([],
     Ok [Node (set_default (VStr "debug")
                 (set_options
                    (Given (List.filter (λ o, negb (hidden o))
                              [plain_option "Fast" "fast"; hidden_option "Debug" "debug"]))
                    (entries required_choice)))])
  ∧ List.filter (λ o, negb (hidden o))
      [plain_option "Fast" "fast"; hidden_option "Debug" "debug"]
    = [plain_option "Fast" "fast"].
Proof.
  split; [|reflexivity].
  apply (@fill_input_tree_with_options_required_default empty_store required_choice
           [plain_option "Fast" "fast"; hidden_option "Debug" "debug"]
           (hidden_option "Debug" "debug") (VStr "debug") "debug" 7 None []);
    reflexivity.
Defined.

(** ** Filling in defaults and flattening *)

Lemma fill_param_shape data fub n r :
  fill_param data fub n = Ok r →
  name r = name n ∧ d_type (entries r) = d_type (entries n)
  ∧ match d_attributes (entries n) with
    | Given ats =>
        ∃ ats', fill_defaults ats data fub = Ok ats'
                ∧ d_attributes (entries r) = Given ats'
    | a => d_attributes (entries r) = a
    end
  ∧ match d_options (entries n) with
    | Given os =>
        ∃ os', d_options (entries r) = Given os'
               ∧ (os' = os ∨ ∃ sel, mapM (fill_option data fub sel) os = Ok os')
    | o => d_options (entries r) = o
    end.
Proof.
  rewrite fill_param_eq. cbv zeta.
  intros (d1 & E1 & (d2 & E2 & [= <-])%res_bind_Ok)%res_bind_Ok.
  destruct n as [[nm ty lb df rq vl os ats uh cn dy wa fi dt]].
  unfold name in *. cbn [entries d_name d_type d_attributes d_options] in *.
  assert (d_name d1 = nm ∧ d_type d1 = ty ∧ d_options d1 = os
          ∧ match ats with
            | Given l =>
                ∃ ats', fill_defaults l data fub = Ok ats' ∧ d_attributes d1 = Given ats'
            | a => d_attributes d1 = a
            end) as (N1 & T1 & O1 & A1).
  { destruct ats as [| |l].
    - injection E1 as <-. destruct (data !! nm); repeat split; reflexivity.
    - injection E1 as <-. destruct (data !! nm); repeat split; reflexivity.
    - apply res_bind_Ok in E1 as (r & Er & [= <-]).
      destruct (data !! nm); repeat split; try reflexivity; exists r; now split. }
  destruct os as [| |l].
  - injection E2 as <-. rewrite N1, T1, O1. repeat split. now destruct ats.
  - injection E2 as <-. rewrite N1, T1, O1. repeat split. now destruct ats.
  - apply res_bind_Ok in E2 as (os' & Eos & [= <-]).
    assert (d_attributes (set_options (Given os') d1) = d_attributes d1) as -> by reflexivity.
    cbn [d_name d_type d_options set_options]. rewrite N1, T1.
    repeat split; [now destruct ats|]. exists os'. split; [reflexivity|].
    destruct (bool_decide _ || fub).
    + apply res_bind_Ok in Eos as (sel & _ & Eos). right. now exists sel.
    + injection Eos as <-. now left.
Qed.

Lemma names_of_flatten_cons p l prefix :
  names_of (flatten (p :: l) prefix)
  = (let! a := names_of (flatten_param p prefix) in
     let! b := names_of (flatten l prefix) in
     Ok (a ++ b)).
Proof.
  cbn [flatten]. destruct (flatten_param p prefix) as [a|e]; [|reflexivity].
  cbn [res_bind names_of]. destruct (flatten l prefix) as [b|e]; [|reflexivity].
  cbn [res_bind names_of]. now rewrite names_app.
Qed.

Lemma same_flat_names_list data fub l :
  Forall (same_flat_names data fub) l →
  ∀ l', mapM (fill_param data fub) l = Ok l' →
    ∀ prefix, names_of (flatten l' prefix) = names_of (flatten l prefix).
Proof.
  intros F. induction F as [|n l Hn F IH]; intros l'; cbn [mapM].
  - now intros [= <-].
  - intros (r & Er & (rs & Ers & [= <-])%res_bind_Ok)%res_bind_Ok prefix.
    rewrite !names_of_flatten_cons, (IH rs Ers).
    destruct (Hn r Er) as [-> _]. reflexivity.
Qed.

Lemma names_of_flatten_option nm prefix o o' :
  same_attributes o o' → d_value (entries o') = d_value (entries o) →
  names_of (flatten_option nm prefix o') = names_of (flatten_option nm prefix o).
Proof.
  unfold same_attributes, flatten_option, get_value. intros Ha ->.
  destruct (d_attributes (entries o)) as [| |ats]; try (now rewrite Ha).
  destruct Ha as (ats' & -> & Hf).
  destruct (d_value (entries o)) as [v|]; [|reflexivity]. cbn [res_bind].
  destruct (form_prefix nm prefix v) as [p|e]; [|reflexivity]. cbn [res_bind].
  apply Hf.
Qed.

Lemma names_of_flatten_options_cons nm prefix o os :
  names_of (flatten_options nm prefix (o :: os))
  = (let! a := names_of (flatten_option nm prefix o) in
     let! b := names_of (flatten_options nm prefix os) in
     Ok (a ++ b)).
Proof.
  cbn [flatten_options]. destruct (flatten_option nm prefix o) as [a|e]; [|reflexivity].
  cbn [res_bind names_of].
  destruct (flatten_options nm prefix os) as [b|e]; [|reflexivity].
  cbn [res_bind names_of]. now rewrite names_app.
Qed.

Lemma same_flat_names_options data fub sel nm prefix os :
  Forall (same_flat_names data fub) os →
  ∀ os', mapM (fill_option data fub sel) os = Ok os' →
    names_of (flatten_options nm prefix os') = names_of (flatten_options nm prefix os).
Proof.
  intros F. induction F as [|o os Ho F IH]; intros os'; cbn [mapM].
  - now intros [= <-].
  - intros (o' & Eo & (rs & Ers & [= <-])%res_bind_Ok)%res_bind_Ok.
    rewrite !names_of_flatten_options_cons, (IH rs Ers).
    enough (names_of (flatten_option nm prefix o') = names_of (flatten_option nm prefix o))
      as -> by reflexivity.
    unfold fill_option in Eo.
    apply res_bind_Ok in Eo as (v & _ & (b & _ & Eo)%res_bind_Ok).
    destruct (b || fub).
    + apply names_of_flatten_option; [apply (Ho o' Eo)|].
      eapply fill_param_value, Eo.
    + now injection Eo as <-.
Qed.

Lemma same_flat_names_node data fub n : same_flat_names data fub n.
Proof.
  induction n as [d IHos IHats] using node_ind1.
  intros r Hr. destruct (fill_param_shape _ _ _ _ Hr) as (Hn & Ht & Ha & Ho).
  cbn [entries] in *.
  assert (same_attributes (Node d) r) as Hsame.
  { unfold same_attributes. cbn [entries].
    destruct (d_attributes d) as [| |ats] eqn:Ea; try exact Ha.
    destruct Ha as (ats' & Ef & Ea'). exists ats'. split; [exact Ea'|].
    apply (same_flat_names_list data fub ats (IHats ats eq_refl) ats' Ef). }
  split; [|exact Hsame]. intros prefix. rewrite !flatten_param_eq.
  assert (names_of match d_options (entries r) with
                   | Given options => flatten_options (name r) prefix options
                   | _ => Ok []
                   end
          = names_of match d_options d with
                     | Given options => flatten_options (name (Node d)) prefix options
                     | _ => Ok []
                     end) as Hos.
  { rewrite Hn. destruct (d_options d) as [| |os] eqn:Eo; try (now rewrite Ho).
    destruct Ho as (os' & -> & [->|[sel Hsel]]); [reflexivity|].
    exact (same_flat_names_options data fub sel _ prefix os (IHos os eq_refl) os' Hsel). }
  assert (names_of (flatten_attributes r prefix)
          = names_of (flatten_attributes (Node d) prefix)) as Hats.
  { unfold flatten_attributes, same_attributes in *. rewrite Hn. cbn [entries] in *.
    destruct (d_attributes d) as [| |ats]; try (now rewrite Hsame).
    destruct Hsame as (ats' & -> & Hf).
    destruct (form_prefix _ prefix VNone) as [p|e]; [|reflexivity].
    cbn [res_bind]. apply Hf. }
  cbn [entries].
  assert (name (flat_entry r prefix) = name (flat_entry (Node d) prefix)) as He.
  { unfold flat_entry, name in *. cbn [entries] in *. rewrite Ht.
    destruct prefix as [p|]; [destruct (d_type d)|]; cbn [entries d_name set_name
      set_options set_attributes]; now rewrite ?Hn. }
  destruct (match d_options (entries r) with
            | Given options => flatten_options (name r) prefix options
            | _ => Ok []
            end) as [fo|e];
    destruct (match d_options d with
              | Given options => flatten_options (name (Node d)) prefix options
              | _ => Ok []
              end) as [fo'|e']; cbn [names_of] in Hos; try discriminate;
    [|now injection Hos as ->].
  injection Hos as Hos. cbn [res_bind].
  destruct (flatten_attributes r prefix) as [fa|e];
    destruct (flatten_attributes (Node d) prefix) as [fa'|e'];
    cbn [names_of] in Hats; try discriminate; [|now injection Hats as ->].
  injection Hats as Hats. cbn [res_bind names_of names map].
  fold (names (fo ++ fa)). fold (names (fo' ++ fa')).
  rewrite !names_app, Hos, Hats. now rewrite He.
Qed.

(** X21: [fill_defaults] changes no flat name: the tree that it
    returns flattens, under every prefix, to the same names in the
    same order as the tree it was given, and raises the same
    exception when that one does. *)
Theorem fill_defaults_keeps_flat_names (adapter_interface : list node)
    (data : gmap string val) (fill_unselected_branches : bool) (result : list node)
    (prefix : option string) :
  fill_defaults adapter_interface data fill_unselected_branches = Ok result →
  names_of (flatten result prefix) = names_of (flatten adapter_interface prefix).
Proof.
  intros Hr. eapply same_flat_names_list; [|exact Hr].
  apply Forall_forall. intros n _. apply same_flat_names_node.
Qed.

Lemma fill_defaults_keeps_flat_names_witness :
  match fill_defaults page_example {["model" := VStr "A"; "dt" := VInt 2]} true with
  | Ok result =>
      names_of (flatten result None) = names_of (flatten page_example None)
  | Raise _ => False
  end
  ∧ names_of (flatten page_example None)
    = Ok [ "model"; "model_parameters_option_A_x"; "model_parameters_option_A_w";
           "model_parameters_option_A_w_parameters_k"; "dt" ].
Proof.
  split; [|vm_compute; reflexivity].
  destruct (fill_defaults page_example {["model" := VStr "A"; "dt" := VInt 2]} true)
    as [result|e] eqn:E; [|vm_compute in E; discriminate].
  apply (fill_defaults_keeps_flat_names page_example
           {["model" := VStr "A"; "dt" := VInt 2]} true result None E).
Defined.

(** ** Fields that were not submitted *)

Section Unsubmitted.
Context `{Externals}.

Lemma convert_row_unsubmitted validation_required row c :
  kwargs c !! row_name row = None →
  PyStr.contains (row_name row) KEYWORD_PARAMS = false →
  row_type row ≠ Some TYPE_DICT →
  kwa (convert_row validation_required row c).1 = kwa c
  ∧ kwargs (convert_row validation_required row c).1 = kwargs c.
Proof.
  intros Hk Hc Ht. unfold convert_row.
  destruct (row_type row) as [t|]; [|split; reflexivity].
  unfold st_bind. cbn [fst snd]. rewrite Hk, andb_false_r. unfold guarded.
  assert (convert_body row t c = (c, Ok tt)
          ∨ ∃ c', convert_body row t c = (c', Ok tt)
                  ∧ kwa c' = kwa c ∧ kwargs c' = kwargs c) as Hb.
  { assert (t ≠ TYPE_DICT) as Hd by congruence.
    destruct (bool_decide (row_name row ∈ to_skip_dict_subargs c)) eqn:Hs.
    - left. destruct t; try congruence; unfold convert_body, st_bind, st_ret;
        now rewrite Hs.
    - right. exists c.
      destruct t; try congruence; unfold convert_body, st_bind, st_ret;
        rewrite Hs, Hk; (rewrite bool_decide_eq_false_2 by (intros [? ?]; discriminate));
        unfold _find_field_submitted_name; rewrite Hc; cbn [negb fst snd];
        rewrite Hk; (rewrite bool_decide_eq_false_2 by (intros [? ?]; discriminate));
        destruct c; now repeat split. }
  destruct Hb as [->|(c' & -> & Ha & Hg)]; cbn [fst]; split.
  all: first [reflexivity|assumption].
Qed.

Lemma for_each_invariant {S A} (f : A → st S unit) (Inv : S → Prop) l :
  (∀ x, x ∈ l → ∀ s, Inv s → Inv (f x s).1) →
  ∀ s, Inv s → Inv (for_each f l s).1.
Proof.
  induction l as [|x l IH]; intros Hf s Hs; cbn [for_each]; [exact Hs|].
  unfold st_bind.
  assert (Inv (f x s).1) as Hx by (apply Hf; [apply elem_of_cons; now left|exact Hs]).
  destruct (f x s) as [s' [[]|e]]; cbn [fst] in *; [|exact Hx].
  apply IH; [|exact Hx]. intros y Hy. apply Hf, elem_of_cons. now right.
Qed.

(** X22: a key that was not submitted, that does not hold the marker
    [_parameters_], that names no row of type dict and that is not the
    name of a row followed by [_gid], is neither in the result [kwa]
    nor in the submitted dictionary when [convert_ui_inputs] is done,
    whether it returned or raised: a field that was not submitted is
    not given a value. *)
Theorem convert_ui_inputs_unsubmitted (flat_input_interface : list flat_row)
    (submitted : gmap string val) (md : metadata) (validation_required : bool)
    (log0 : list string) (c : conversion) (r : res collapsed) (k : string) :
  submitted !! k = None →
  PyStr.contains k KEYWORD_PARAMS = false →
  (∀ row, row ∈ flat_input_interface → row_name row = k →
     row_type row ≠ Some TYPE_DICT) →
  (∀ row, row ∈ flat_input_interface → k ≠ row_name row +:+ "_gid") →
  convert_ui_inputs flat_input_interface submitted md validation_required log0 = (c, r) →
  kwa c !! k = None ∧ kwargs c !! k = None.
Proof.
  intros Hk Hc Hd Hg. unfold convert_ui_inputs, st_bind.
  assert (∀ row, row ∈ flat_input_interface →
            ∀ s, kwa s !! k = None ∧ kwargs s !! k = None →
                 kwa (convert_row validation_required row s).1 !! k = None
                 ∧ kwargs (convert_row validation_required row s).1 !! k = None)
    as Hrows.
  { intros row Hrow s [Ha Hs].
    destruct (decide (row_name row = k)) as [Hn|Hn].
    - subst k.
      destruct (convert_row_unsubmitted validation_required row s Hs Hc
                  (Hd row Hrow eq_refl)) as [Ea Ek].
      rewrite Ea, Ek. now split.
    - destruct (changes_convert_row validation_required row s) as [Ga Gk]. split.
      + destruct (kwa (convert_row validation_required row s).1 !! k) eqn:E;
          [|reflexivity].
        exfalso. destruct (Ga k) as [[x Hx]|[Hx|Hx]].
        * rewrite E. now eexists.
        * congruence.
        * congruence.
        * exact (Hg row Hrow Hx).
      + destruct (kwargs (convert_row validation_required row s).1 !! k) eqn:E;
          [|reflexivity].
        exfalso. destruct (Gk k) as [[x Hx]|Hx].
        * rewrite E. now eexists.
        * congruence.
        * congruence. }
  pose proof (for_each_invariant (convert_row validation_required)
                (λ c, kwa c !! k = None ∧ kwargs c !! k = None)
                flat_input_interface Hrows) as Hinv.
  specialize (Hinv (Conversion submitted ∅ [] [] log0 md)
                (conj (lookup_empty k) Hk)).
  destruct (for_each _ _ _) as [c1 [[]|e1]]; cbn [fst] in Hinv;
    intros [= <- _]; exact Hinv.
Qed.

End Unsubmitted.

Lemma convert_ui_inputs_unsubmitted_witness :
  @kwa text_natives
    (@convert_ui_inputs text_natives text_externals
       [text_row "count" TYPE_INT "Count"; text_row "size" TYPE_INT "Size"]
       {["count" := VStr "3"]} tt true []).1 !! "size" = None
  ∧ @kwargs text_natives
      (@convert_ui_inputs text_natives text_externals
         [text_row "count" TYPE_INT "Count"; text_row "size" TYPE_INT "Size"]
         {["count" := VStr "3"]} tt true []).1 !! "size" = None.
Proof.
  apply (@convert_ui_inputs_unsubmitted text_natives text_externals
           [text_row "count" TYPE_INT "Count"; text_row "size" TYPE_INT "Size"]
           {["count" := VStr "3"]} tt true []
           (@convert_ui_inputs text_natives text_externals
              [text_row "count" TYPE_INT "Count"; text_row "size" TYPE_INT "Size"]
              {["count" := VStr "3"]} tt true []).1
           (@convert_ui_inputs text_natives text_externals
              [text_row "count" TYPE_INT "Count"; text_row "size" TYPE_INT "Size"]
              {["count" := VStr "3"]} tt true []).2 "size").
  - reflexivity.
  - reflexivity.
  - intros row Hrow _.
    apply elem_of_cons in Hrow as [->|Hrow]; [discriminate|].
    apply elem_of_cons in Hrow as [->|Hrow]; [discriminate|].
    inversion Hrow.
  - intros row Hrow.
    apply elem_of_cons in Hrow as [->|Hrow]; [discriminate|].
    apply elem_of_cons in Hrow as [->|Hrow]; [discriminate|].
    inversion Hrow.
  - now destruct (@convert_ui_inputs text_natives text_externals _ _ _ _ _).
Defined.

(** ** Default injection, repeated *)

Lemma mono_of_post Q E m : post (injects Q) E m → mono m.
Proof. intros Hp k. apply (Hp k). Qed.

Lemma mono_add_default e : mono (add_default e).
Proof. eapply mono_of_post. apply (add_default_post (λ _, True)). exact I. Qed.

Lemma mono_required_options n : mono (required_options n).
Proof. eapply mono_of_post. apply (required_options_post (λ _, True)). auto. Qed.

Lemma mono_for_each {A} (f : A → st (gmap string val) unit) l :
  (∀ x, mono (f x)) → mono (for_each f l).
Proof.
  intros Hf. induction l as [|x l IH]; intros k; cbn [for_each]; [reflexivity|].
  unfold st_bind. pose proof (Hf x k) as Hx.
  destruct (f x k) as [k1 [[]|e]]; cbn [fst] in *; [|exact Hx].
  etransitivity; [exact Hx|apply IH].
Qed.

Lemma settled_bind (m m' : st (gmap string val) unit) :
  settled m → settled m' → mono m' →
  settled (do! _ := m in m').
Proof.
  intros Hm Hm' Hmono k k2. unfold st_bind.
  destruct (m k) as [k1 [[]|e]] eqn:E1; [|discriminate].
  intros E2 k'' Hsub.
  assert (k1 ⊆ k2) as H12.
  { pose proof (Hmono k1) as Hk. now rewrite E2 in Hk. }
  rewrite (Hm k k1 E1 k'') by (etransitivity; eassumption).
  exact (Hm' k1 k2 E2 k'' Hsub).
Qed.

Lemma settled_for_each {A} (f : A → st (gmap string val) unit) l :
  (∀ x, x ∈ l → settled (f x)) → (∀ x, mono (f x)) → settled (for_each f l).
Proof.
  intros Hs Hmono. induction l as [|x l IH]; cbn [for_each].
  - intros k k' [= <-] k'' _. reflexivity.
  - apply settled_bind.
    + apply Hs, elem_of_cons. now left.
    + apply IH. intros y Hy. apply Hs, elem_of_cons. now right.
    + now apply mono_for_each.
Qed.

Lemma settled_add_default e : settled (add_default e).
Proof.
  intros k k' Hk k'' Hsub. unfold add_default in *.
  destruct (k !! name e) as [w|] eqn:Hn.
  - injection Hk as <-. now rewrite (lookup_weaken _ _ _ _ Hn Hsub).
  - destruct (k'' !! name e) as [w''|] eqn:Hn''; [reflexivity|].
    destruct (d_required (entries e)) as [[|]|]; try reflexivity.
    destruct (d_default (entries e)) as [dv|]; [|reflexivity].
    destruct (d_type (entries e)) as [t|]; [|discriminate].
    destruct (ptype_eqb t TYPE_DICT); [reflexivity|].
    injection Hk as <-.
    assert (k'' !! name e = Some dv) as Hin
      by (eapply lookup_weaken; [apply lookup_insert_eq|exact Hsub]).
    congruence.
Qed.

Lemma required_options_eq (entry : node) :
  required_options entry =
    match d_required (entries entry) with
    | Some true =>
        match d_options (entries entry) with
        | Given options => for_each (option_step (name entry)) options
        | _ => st_ret tt
        end
    | _ => st_ret tt
    end.
Proof. now destruct entry as [[nm ty lb df rq vl os ats uh cn dy wa fi dt]]. Qed.

Lemma mono_append_required_defaults tree : mono (append_required_defaults (Some tree)).
Proof. eapply mono_of_post. apply append_required_defaults_post. Qed.

Lemma mono_option_step nm o : mono (option_step nm o).
Proof.
  intros k. unfold option_step.
  destruct (d_value (entries o)) as [v|]; [|reflexivity].
  destruct (k !! nm) as [w|]; [|reflexivity].
  destruct (py_eq v w); [|reflexivity].
  destruct (d_attributes (entries o)) as [| |attrs]; try reflexivity.
  apply mono_append_required_defaults.
Qed.

Lemma settled_ret : settled (st_ret tt).
Proof. intros k k' [= <-] k'' _. reflexivity. Qed.

Lemma settled_append_list l :
  Forall (λ n, settled (required_options n)) l →
  settled (append_required_defaults (Some l)).
Proof.
  intros F. unfold append_required_defaults. apply settled_bind.
  - apply settled_for_each; [|apply mono_add_default].
    intros x _. apply settled_add_default.
  - apply settled_for_each; [|apply mono_required_options].
    intros x Hx. rewrite Forall_forall in F. now apply F.
  - apply mono_for_each, mono_required_options.
Qed.

Lemma settled_option_step nm o :
  (∀ ats, d_attributes (entries o) = Given ats →
     Forall (λ n, settled (required_options n)) ats) →
  settled (option_step nm o).
Proof.
  intros IH k k' Hk k'' Hsub.
  assert (k ⊆ k') as Hkk'.
  { pose proof (mono_option_step nm o k) as Hm. now rewrite Hk in Hm. }
  unfold option_step in *.
  destruct (d_value (entries o)) as [v|]; [|discriminate].
  destruct (k !! nm) as [w|] eqn:Hn; [|discriminate].
  assert (k'' !! nm = Some w) as ->.
  { eapply lookup_weaken; [exact Hn|]. etransitivity; eassumption. }
  destruct (py_eq v w); [|reflexivity].
  destruct (d_attributes (entries o)) as [| |attrs] eqn:Ea; try reflexivity.
  exact (settled_append_list attrs (IH attrs eq_refl) k k' Hk k'' Hsub).
Qed.

Lemma settled_required_options n : settled (required_options n).
Proof.
  induction n as [d IHos _] using node_ind2.
  rewrite required_options_eq. cbn [entries].
  destruct (d_required d) as [[|]|]; try apply settled_ret.
  destruct (d_options d) as [| |os] eqn:Eo; try apply settled_ret.
  apply settled_for_each; [|intros o; apply mono_option_step].
  intros o Ho. apply settled_option_step. intros ats Ea.
  exact (IHos os o ats eq_refl Ho Ea).
Qed.

(** X23: [append_required_defaults] is idempotent: once it has
    returned, a second call on the dictionary that it has left (or on
    a larger one) with the same tree returns and changes nothing. *)
Theorem append_required_defaults_idempotent (algorithm_inputs : list node)
    (kwargs kwargs' kwargs'' : gmap string val) :
  append_required_defaults (Some algorithm_inputs) kwargs = (kwargs', Ok tt) →
  kwargs' ⊆ kwargs'' →
  append_required_defaults (Some algorithm_inputs) kwargs'' = (kwargs'', Ok tt).
Proof.
  intros Hk Hsub.
  assert (settled (append_required_defaults (Some algorithm_inputs))) as Hs.
  { apply settled_append_list, Forall_forall. intros n _.
    apply settled_required_options. }
  exact (Hs kwargs kwargs' Hk kwargs'' Hsub).
Qed.

Lemma append_required_defaults_idempotent_witness :
  append_required_defaults (Some required_tree) ∅
  = ({["a" := VInt 1; "s" := VStr "o1"; "b" := VInt 2]}, Ok tt)
  ∧ append_required_defaults (Some required_tree)
      {["a" := VInt 1; "s" := VStr "o1"; "b" := VInt 2]}
    = ({["a" := VInt 1; "s" := VStr "o1"; "b" := VInt 2]}, Ok tt).
Proof.
  split; [vm_compute; reflexivity|].
  apply (append_required_defaults_idempotent required_tree ∅
           {["a" := VInt 1; "s" := VStr "o1"; "b" := VInt 2]}
           {["a" := VInt 1; "s" := VStr "o1"; "b" := VInt 2]}).
  - vm_compute. reflexivity.
  - reflexivity.
Defined.

(** ** Keys taken *)

Section TakenKeys.
Context `{Externals}.

Lemma gather_dictionary_taken name elementType items :
  ∀ result_dict taken_keys result taken,
    gather_dictionary name elementType items result_dict taken_keys
    = Ok (result, taken) →
    taken = taken_keys
            ++ List.filter (λ key, PyStr.contains key name && negb (String.eqb name key))
                 (map fst items).
Proof.
  induction items as [|[key v] items IH]; intros rd tk result taken;
    cbn [gather_dictionary map List.filter fst].
  - intros [= _ <-]. now rewrite List.app_nil_r.
  - destruct (PyStr.contains key name && negb (String.eqb name key)).
    + intros (a & _ & Hg)%res_bind_Ok. rewrite (IH _ _ _ _ Hg).
      now rewrite <- List.app_assoc.
    + apply IH.
Qed.

(** X24: when the parent of a row of type dict was submitted, the
    keys that [_get_dictionary] takes are the submitted keys that
    hold the name of the row anywhere in them and are not that name:
    no more and no less. *)
Theorem get_dictionary_takes (row : flat_row) (submitted : gmap string val)
    (result : gmap string atom) (taken : list string) (k : string) :
  _is_parent_not_submitted (row_name row) submitted = Ok false →
  _get_dictionary row submitted = Ok (result, taken) →
  k ∈ taken ↔ is_Some (submitted !! k)
              ∧ PyStr.contains k (row_name row) = true ∧ k ≠ row_name row.
Proof.
  intros Hp. unfold _get_dictionary. rewrite Hp. cbn [res_bind].
  intros Hg. apply gather_dictionary_taken in Hg. cbn [app] in Hg. subst taken.
  rewrite list_elem_of_In, filter_In, <- list_elem_of_In, andb_true_iff, negb_true_iff.
  rewrite list_elem_of_fmap. split.
  - intros [([k' v] & -> & Hin) [Hc Hn]]. cbn [fst] in *.
    apply elem_of_map_to_list in Hin. split; [eexists; exact Hin|split; [exact Hc|]].
    intros ->. now rewrite String.eqb_refl in Hn.
  - intros ([v Hv] & Hc & Hn). split; [|split; [exact Hc|]].
    + exists (k, v). split; [reflexivity|]. now apply elem_of_map_to_list.
    + apply String.eqb_neq. congruence.
Qed.

End TakenKeys.

Lemma get_dictionary_takes_witness :
  @_get_dictionary text_natives text_externals (dict_row "weights" "float") weights_kwargs
  = Ok ({[ "a" := @AExt text_natives "1.5"; "b" := @AExt text_natives "2.5" ]},
        ["weights_parameters_a"; "weights_parameters_b"])
  ∧ ("weights_parameters_a" ∈ ["weights_parameters_a"; "weights_parameters_b"]
     ↔ is_Some (weights_kwargs !! "weights_parameters_a")
       ∧ PyStr.contains "weights_parameters_a"
           (@row_name text_natives (dict_row "weights" "float")) = true
       ∧ "weights_parameters_a" ≠ @row_name text_natives (dict_row "weights" "float")).
Proof.
  assert (@_get_dictionary text_natives text_externals (dict_row "weights" "float")
            weights_kwargs
          = Ok ({[ "a" := @AExt text_natives "1.5"; "b" := @AExt text_natives "2.5" ]},
                ["weights_parameters_a"; "weights_parameters_b"])) as E
    by (vm_compute; reflexivity).
  split; [exact E|].
  apply (@get_dictionary_takes text_natives text_externals (dict_row "weights" "float")
           weights_kwargs
           {[ "a" := @AExt text_natives "1.5"; "b" := @AExt text_natives "2.5" ]}
           ["weights_parameters_a"; "weights_parameters_b"] "weights_parameters_a");
    [|exact E].
  vm_compute. reflexivity.
Defined.

(** ** The conversion of a whole interface *)

(** *** The parent of a flat name *)

Lemma startswith_take n s m :
  PyStr.startswith (PyStr.take n s) m = true → PyStr.startswith s m = true.
Proof.
  revert n s. induction m as [|a m IH]; intros n s; [intros _; apply startswith_nil|].
  destruct n as [|n], s as [|b s]; cbn; try discriminate.
  destruct (Ascii.eqb a b); [apply IH|discriminate].
Qed.

Lemma find_nat_take s m :
  m ≠ EmptyString →
  ∀ i, PyStr.find_nat s m = Some i → PyStr.find_nat (PyStr.take i s) m = None.
Proof.
  intros Hm. induction s as [|a s IH]; intros i.
  - destruct m; [congruence|]. cbn. discriminate.
  - cbn [PyStr.find_nat]. destruct (PyStr.startswith (String a s) m) eqn:Hs.
    + intros [= <-]. destruct m; [congruence|]. reflexivity.
    + destruct (PyStr.find_nat s m) as [j|] eqn:Hj; [|discriminate].
      intros [= <-]. cbn [PyStr.take PyStr.find_nat].
      destruct (PyStr.startswith (String a (PyStr.take j s)) m) eqn:Hs'.
      * apply (startswith_take (S j) (String a s)) in Hs'. congruence.
      * now rewrite (IH j eq_refl).
Qed.

Lemma bound_nat s (i : nat) (k : Z) :
  0 ≤ k → PyStr.bound s (Z.of_nat i + k) = (i + Z.to_nat k)%nat.
Proof.
  intros Hk. unfold PyStr.bound.
  destruct (Z.ltb_spec (Z.of_nat i + k) 0); lia.
Qed.

(** The parent name of a flat name holds no [_parameters_]. *)
Lemma parent_name_free k :
  PyStr.contains k KEYWORD_PARAMS = true →
  PyStr.contains (PyStr.slice_to k (PyStr.find k KEYWORD_PARAMS)) KEYWORD_PARAMS = false.
Proof.
  unfold PyStr.contains, PyStr.find, PyStr.slice_to.
  intros Hc. apply bool_decide_eq_true in Hc as [i Hi]. rewrite Hi.
  replace (Z.of_nat i) with (Z.of_nat i + 0) by lia.
  rewrite bound_nat by lia. rewrite Nat.add_0_r.
  rewrite (find_nat_take k KEYWORD_PARAMS ltac:(discriminate) i Hi).
  apply bool_decide_eq_false. intros [? ?]. discriminate.
Qed.

Lemma startswith_app_l x t : PyStr.startswith (x +:+ t) x = true.
Proof.
  induction x as [|a x IH]; [apply startswith_nil|].
  rewrite app_cons. cbn [PyStr.startswith]. now rewrite Ascii.eqb_refl.
Qed.

Lemma startswith_split q x :
  PyStr.startswith q x = true → ∃ t, q = x +:+ t.
Proof.
  revert q. induction x as [|a x IH]; intros q; [now exists q|].
  destruct q as [|b q]; cbn; [discriminate|].
  destruct (Ascii.eqb_spec a b) as [->|]; [|discriminate].
  intros [t ->]%IH. exists t. now rewrite app_cons.
Qed.

Lemma take_length_startswith s m :
  PyStr.startswith s m = true → PyStr.take (String.length m) s = m.
Proof.
  revert s. induction m as [|a m IH]; intros s; [now destruct s|].
  destruct s as [|b s]; cbn; [discriminate|].
  destruct (Ascii.eqb_spec a b) as [->|]; [|discriminate].
  intros Hs. now rewrite (IH s Hs).
Qed.

Lemma take_find_nat s m :
  ∀ i, PyStr.find_nat s m = Some i →
    PyStr.take (i + String.length m) s = PyStr.take i s +:+ m.
Proof.
  induction s as [|a s IH]; intros i; cbn [PyStr.find_nat].
  - destruct (PyStr.startswith "" m) eqn:Hs; [|discriminate].
    intros [= <-]. cbn [Nat.add]. now rewrite (take_length_startswith _ _ Hs).
  - destruct (PyStr.startswith (String a s) m) eqn:Hs.
    + intros [= <-]. cbn [Nat.add]. now rewrite (take_length_startswith _ _ Hs).
    + destruct (PyStr.find_nat s m) as [j|] eqn:Hj; [|discriminate].
      intros [= <-]. cbn [Nat.add PyStr.take]. now rewrite (IH j eq_refl).
Qed.

Lemma contains_app_r a m t : PyStr.contains (a +:+ m +:+ t) m = true.
Proof.
  unfold PyStr.contains. apply bool_decide_eq_true.
  induction a as [|x a IH].
  - rewrite app_nil_l. destruct (m +:+ t) eqn:E; cbn [PyStr.find_nat];
      rewrite <- E, startswith_app_l; now eexists.
  - rewrite app_cons.
    cbn [PyStr.find_nat]. destruct (PyStr.startswith _ m); [now eexists|].
    destruct IH as [j ->]. now eexists.
Qed.

(** A key that the cleaning removes holds [_parameters_]. *)
Lemma cleaned_by_marker flat_name key :
  cleaned_by flat_name key = true → PyStr.contains key KEYWORD_PARAMS = true.
Proof.
  unfold cleaned_by. intros [[Hc Hs]%andb_true_iff _]%andb_true_iff.
  unfold PyStr.contains in Hc. apply bool_decide_eq_true in Hc as [i Hi].
  unfold PyStr.find, PyStr.slice_to in Hs. rewrite Hi in Hs.
  rewrite bound_nat in Hs by lia.
  change (Z.to_nat 12) with (String.length KEYWORD_PARAMS) in Hs.
  rewrite (take_find_nat _ _ i Hi) in Hs.
  apply startswith_split in Hs as [t ->].
  rewrite !app_assoc. apply contains_app_r.
Qed.

(** *** What a row changes *)

Section Footprint.
Context `{Externals}.

(** The body of the loop for a row that is not of type DICT, by
    cases. *)
Lemma convert_body_cases (row : flat_row) (t : ptype) (c : conversion) :
  t ≠ TYPE_DICT →
  convert_body row t c
  = if bool_decide (row_name row ∈ to_skip_dict_subargs c) then (c, Ok tt)
    else
      match kwargs c !! row_name row with
      | Some _ =>
          match _is_parent_not_submitted (row_name row) (kwargs c) with
          | Ok true => (set_kwargs (delete (row_name row)) c, Ok tt)
          | Ok false => coerce row t c
          | Raise e => (c, Raise e)
          end
      | None =>
          let r := _find_field_submitted_name (row_name row) true (kwargs c, log c) in
          let c1 := set_log (λ _, r.1.2) (set_kwargs (λ _, r.1.1) c) in
          match r.2 with
          | Ok None => (c1, Ok tt)
          | Ok (Some kwa_name) =>
              match kwargs c1 !! kwa_name with
              | Some v => coerce row t (set_kwargs (insert (row_name row) v) c1)
              | None => (c1, Raise (KeyError kwa_name))
              end
          | Raise e => (c1, Raise e)
          end
      end.
Proof.
  intros Hd.
  assert ((do! skipped := (λ c, (c, Ok (bool_decide (row_name row ∈ to_skip_dict_subargs c)))) in
           if (skipped : bool) then st_ret tt
           else
             do! present := (λ c, (c, Ok (bool_decide (is_Some (kwargs c !! row_name row))))) in
             do! go :=
               if (present : bool) then
                 do! not_submitted :=
                   (λ c, (c, _is_parent_not_submitted (row_name row) (kwargs c))) in
                 if (not_submitted : bool) then
                   λ c, (set_kwargs (delete (row_name row)) c, Ok false)
                 else st_ret true
               else
                 do! kwa_name :=
                   (λ c, let r := _find_field_submitted_name (row_name row) true
                                    (kwargs c, log c) in
                         (set_log (λ _, r.1.2) (set_kwargs (λ _, r.1.1) c), r.2)) in
                 match kwa_name with
                 | None => st_ret false
                 | Some kwa_name =>
                     do! v := get_kwarg kwa_name in
                     λ c, (set_kwargs (insert (row_name row) v) c, Ok true)
                 end in
             if (go : bool) then coerce row t else st_ret tt) c
          = if bool_decide (row_name row ∈ to_skip_dict_subargs c) then (c, Ok tt)
            else
              match kwargs c !! row_name row with
              | Some _ =>
                  match _is_parent_not_submitted (row_name row) (kwargs c) with
                  | Ok true => (set_kwargs (delete (row_name row)) c, Ok tt)
                  | Ok false => coerce row t c
                  | Raise e => (c, Raise e)
                  end
              | None =>
                  let r := _find_field_submitted_name (row_name row) true
                             (kwargs c, log c) in
                  let c1 := set_log (λ _, r.1.2) (set_kwargs (λ _, r.1.1) c) in
                  match r.2 with
                  | Ok None => (c1, Ok tt)
                  | Ok (Some kwa_name) =>
                      match kwargs c1 !! kwa_name with
                      | Some v => coerce row t (set_kwargs (insert (row_name row) v) c1)
                      | None => (c1, Raise (KeyError kwa_name))
                      end
                  | Raise e => (c1, Raise e)
                  end
              end) as E.
  { unfold st_bind at 1.
    destruct (bool_decide (row_name row ∈ to_skip_dict_subargs c)); [reflexivity|].
    unfold st_bind at 1.
    destruct (kwargs c !! row_name row) as [v|] eqn:Hv.
    - rewrite bool_decide_eq_true_2 by (now eexists).
      unfold st_bind at 1. unfold st_bind at 1.
      destruct (_is_parent_not_submitted (row_name row) (kwargs c)) as [[|]|e];
        reflexivity.
    - rewrite bool_decide_eq_false_2 by (intros [? ?]; discriminate).
      unfold st_bind at 1. unfold st_bind at 1. cbv zeta.
      destruct (_find_field_submitted_name (row_name row) true (kwargs c, log c))
        as [[kw lg] [[kn|]|e]]; cbn [fst snd]; try reflexivity.
      unfold st_bind at 1, get_kwarg at 1.
      destruct (kwargs _ !! kn); reflexivity. }
  destruct t; try exact E. congruence.
Qed.

(** The state that a row leaves is the state that it found or the
    state that the body of the loop leaves. *)
Lemma convert_row_state (R : conversion → conversion → Prop)
    (validation_required : bool) (row : flat_row) (c : conversion) :
  R c c →
  (∀ t, row_type row = Some t → R c (convert_body row t c).1) →
  R c (convert_row validation_required row c).1.
Proof.
  intros Hrefl Hbody. unfold convert_row.
  destruct (row_type row) as [t|]; [|exact Hrefl].
  unfold st_bind at 1.
  destruct (_ && _).
  - unfold st_bind, lift. now destruct (get_label row).
  - unfold guarded. specialize (Hbody t eq_refl).
    destruct (convert_body row t c) as [c' [a|e]]; [exact Hbody|].
    now destruct e.
Qed.

Lemma kept_refl q c : kept q c c.
Proof. repeat split; auto. Qed.

Lemma kept_trans q c1 c2 c3 : kept q c1 c2 → kept q c2 c3 → kept q c1 c3.
Proof.
  intros (A1 & K1 & T1) (A2 & K2 & T2). split; [|split]; [congruence..|auto].
Qed.

Lemma steady_refl c : steady c c.
Proof. split; [auto|]. exists []. now rewrite List.app_nil_r. Qed.

Lemma steady_trans c1 c2 c3 : steady c1 c2 → steady c2 c3 → steady c1 c3.
Proof.
  intros [K1 [x1 L1]] [K2 [x2 L2]]. split.
  - intros p Hp. now rewrite K2, K1.
  - exists (x1 ++ x2). now rewrite L2, L1, List.app_assoc.
Qed.

Lemma coerced_refl r c : coerced r c c.
Proof. repeat split; auto. exists []. now rewrite List.app_nil_r. Qed.

Lemma coerced_trans r c1 c2 c3 : coerced r c1 c2 → coerced r c2 c3 → coerced r c1 c3.
Proof.
  intros (K1 & T1 & [x1 L1] & A1) (K2 & T2 & [x2 L2] & A2).
  split; [congruence|]. split; [congruence|]. split.
  - exists (x1 ++ x2). now rewrite L2, L1, List.app_assoc.
  - intros q Hq Hg. now rewrite A2, A1.
Qed.

Section Leaves.
Context (R : conversion → conversion → Prop).
Context (R_refl : ∀ c, R c c) (R_trans : ∀ c1 c2 c3, R c1 c2 → R c2 c3 → R c1 c3).

Lemma leaves_bind {A B} (m : st conversion A) (k : A → st conversion B) :
  leaves R m → (∀ a, leaves R (k a)) → leaves R (st_bind m k).
Proof.
  intros Hm Hk c. unfold st_bind. specialize (Hm c).
  destruct (m c) as [c' [a|e]]; cbn [fst] in *; [|exact Hm].
  specialize (Hk a c'). destruct (k a c') as [c'' r]; cbn [fst] in *.
  eapply R_trans; eassumption.
Qed.

Lemma leaves_read {A} (f : conversion → res A) : leaves R (λ c, (c, f c)).
Proof. intros c. apply R_refl. Qed.

Lemma leaves_lift {A} (r : res A) : leaves R (lift r).
Proof. intros c. apply R_refl. Qed.

Lemma leaves_ret {A} (a : A) : leaves R (st_ret a).
Proof. intros c. apply R_refl. Qed.

Lemma leaves_for_each_in {A} (f : A → st conversion unit) l :
  (∀ x, x ∈ l → leaves R (f x)) → leaves R (for_each f l).
Proof.
  induction l as [|x l IH]; intros Hf; cbn [for_each].
  - apply leaves_ret.
  - apply leaves_bind.
    + apply Hf, elem_of_cons. now left.
    + intros _. apply IH. intros y Hy. apply Hf, elem_of_cons. now right.
Qed.

End Leaves.

Lemma coerced_same r c c' :
  kwargs c' = kwargs c → to_skip_dict_subargs c' = to_skip_dict_subargs c →
  log c' = log c → kwa c' = kwa c → coerced r c c'.
Proof.
  intros Hk Ht Hl Ha. repeat split; auto.
  - exists []. now rewrite List.app_nil_r.
  - intros q _ _. now rewrite Ha.
Qed.

Lemma coerced_log r f c :
  (∀ l, ∃ extra, f l = l ++ extra) → coerced r c (set_log f c).
Proof. intros Hf. repeat split; auto. cbn [log set_log]. apply Hf. Qed.

Lemma coerced_put_kwa r key v c :
  key = row_name r ∨ gid_key r = Some key → coerced r c (set_kwa (insert key v) c).
Proof.
  intros Hkey. split; [reflexivity|]. split; [reflexivity|]. split.
  - exists []. cbn. now rewrite List.app_nil_r.
  - intros q Hq Hg. cbn [kwa set_kwa]. apply lookup_insert_ne.
    destruct Hkey as [->|Hk]; congruence.
Qed.

Ltac leaves_step :=
  first [ apply leaves_bind; [apply coerced_trans| |intros ?]
        | apply leaves_lift; apply coerced_refl
        | apply leaves_ret; apply coerced_refl
        | apply leaves_read; apply coerced_refl
        | (intros ?; apply coerced_log; intros ?; eexists; reflexivity)
        | (intros ?; apply coerced_put_kwa; auto)
        | (intros ?; apply coerced_same; reflexivity)
        | match goal with |- leaves _ (match ?x with _ => _ end) => destruct x end ].

Lemma leaves_validate_value r value row :
  leaves (coerced r) (_validate_range_for_value_input value row).
Proof.
  unfold _validate_range_for_value_input, warning. repeat leaves_step.
Qed.

Lemma leaves_validate_array r array row :
  leaves (coerced r) (_validate_range_for_array_input array row).
Proof.
  unfold _validate_range_for_array_input, warning. repeat leaves_step.
Qed.

Lemma leaves_coerce row t :
  row_type row = Some t → leaves (coerced row) (coerce row t).
Proof.
  intros Ht. unfold coerce, get_kwarg, put_kwa.
  apply leaves_bind; [apply coerced_trans|apply leaves_read, coerced_refl|].
  intros submitted.
  destruct t;
    repeat first
      [ apply leaves_validate_value | apply leaves_validate_array
      | match goal with
        | |- leaves _ (match row_field row with _ => _ end) =>
            destruct (row_field row) eqn:Hf
        end
      | leaves_step ].
  right. unfold gid_key. now rewrite Ht, Hf.
Qed.

Lemma foldr_delete_other {A} (m : gmap string A) ks q :
  q ∉ ks → foldr delete m ks !! q = m !! q.
Proof.
  induction ks as [|x ks IH]; cbn [foldr]; [reflexivity|].
  intros [Hx Hks]%not_elem_of_cons. rewrite lookup_delete_ne by congruence. auto.
Qed.

Lemma find_among_state flat_name prefix sufix clean count options q :
  PyStr.startswith q (prefix +:+ KEYWORD_OPTION) && PyStr.endswith q sufix = false →
  ∀ dls s,
    (find_among flat_name prefix sufix clean count dls options s).1.1 !! q = s.1 !! q.
Proof.
  intros Hq. induction options as [|o options IH]; intros dls s; cbn [find_among].
  - reflexivity.
  - unfold st_bind at 1, lift at 1.
    destruct (py_str o) as [text|e]; [|reflexivity].
    unfold st_bind at 1.
    set (cleaned := (if clean then _ else st_ret tt) s).
    assert (cleaned.1.1 !! q = s.1 !! q) as Hc.
    { subst cleaned. destruct clean; [|reflexivity]. cbn [fst].
      apply foldr_delete_other. unfold keys_to_remove.
      rewrite list_elem_of_In, filter_In. intros [_ Hf].
      rewrite Hq in Hf. discriminate. }
    assert (∃ s1, cleaned = (s1, Ok tt)) as [s1 E1].
    { subst cleaned. destruct clean; eexists; reflexivity. }
    rewrite E1 in *. cbn [fst] in Hc. unfold st_bind at 1.
    destruct (bool_decide (is_Some (s1.1 !! _))); [exact Hc|].
    now rewrite IH.
Qed.

Lemma find_among_log flat_name prefix sufix clean count options :
  ∀ dls s,
    ∃ extra,
      (find_among flat_name prefix sufix clean count dls options s).1.2 = s.2 ++ extra.
Proof.
  induction options as [|o options IH]; intros dls s; cbn [find_among].
  - exists []. cbn. now rewrite List.app_nil_r.
  - unfold st_bind at 1, lift at 1.
    destruct (py_str o) as [text|e]; [|exists []; cbn; now rewrite List.app_nil_r].
    unfold st_bind at 1.
    set (cleaned := (if clean then _ else st_ret tt) s).
    assert (∃ x, cleaned.1.2 = s.2 ++ x) as [x Hc].
    { subst cleaned. destruct clean; [|exists []; cbn; now rewrite List.app_nil_r].
      cbn [fst snd]. destruct (_ && _); [now eexists|].
      exists []. now rewrite List.app_nil_r. }
    assert (∃ s1, cleaned = (s1, Ok tt)) as [s1 E1].
    { subst cleaned. destruct clean; eexists; reflexivity. }
    rewrite E1 in *. cbn [fst] in Hc. unfold st_bind at 1.
    destruct (bool_decide (is_Some (s1.1 !! _))); [now exists x|].
    destruct (IH (dls || negb (PyStr.startswith sufix (KEYWORD_OPTION +:+ text))) s1)
      as [y Hy].
    exists (x ++ y). now rewrite Hy, Hc, List.app_assoc.
Qed.

(** The cleaning of [_find_field_submitted_name] leaves the value
    under a key that it cannot remove. *)
Lemma find_field_state flat_name clean s q :
  cleaned_by flat_name q = false →
  (_find_field_submitted_name flat_name clean s).1.1 !! q = s.1 !! q.
Proof.
  unfold cleaned_by, _find_field_submitted_name. intros Hq.
  destruct (PyStr.contains flat_name KEYWORD_PARAMS); [|reflexivity].
  cbn [negb andb] in *. unfold st_bind at 1.
  destruct (s.1 !! PyStr.slice_to flat_name (PyStr.find flat_name KEYWORD_PARAMS));
    [|reflexivity].
  unfold st_bind at 1, lift at 1.
  destruct (py_iter _) as [options|e]; [|reflexivity].
  now apply find_among_state.
Qed.

Lemma find_field_log flat_name clean s :
  ∃ extra, (_find_field_submitted_name flat_name clean s).1.2 = s.2 ++ extra.
Proof.
  unfold _find_field_submitted_name.
  destruct (negb (PyStr.contains flat_name KEYWORD_PARAMS));
    [exists []; cbn; now rewrite List.app_nil_r|].
  unfold st_bind at 1.
  destruct (s.1 !! PyStr.slice_to flat_name (PyStr.find flat_name KEYWORD_PARAMS));
    [|exists []; cbn; now rewrite List.app_nil_r].
  unfold st_bind at 1, lift at 1.
  destruct (py_iter _) as [options|e]; [|exists []; cbn; now rewrite List.app_nil_r].
  apply find_among_log.
Qed.

(** The loop over the keys that a DICT row has taken. *)
Lemma taken_loop (taken : list string) (c : conversion) :
  for_each (λ key c, (set_to_skip (λ l, l ++ [key]) (set_kwa (delete key) c), Ok tt))
    taken c
  = (Conversion (kwargs c) (foldl (λ m key, delete key m) (kwa c) taken)
       (simple_select_list c) (to_skip_dict_subargs c ++ taken) (log c)
       (metadata_out c),
     Ok tt).
Proof.
  revert c. induction taken as [|key taken IH]; intros c; cbn [for_each foldl].
  - destruct c. unfold st_ret. cbn. now rewrite List.app_nil_r.
  - unfold st_bind at 1. rewrite IH. cbn. now rewrite <- List.app_assoc.
Qed.

Lemma foldl_delete_other {A} (m : gmap string A) ks q :
  q ∉ ks → foldl (λ m key, delete key m) m ks !! q = m !! q.
Proof.
  revert m. induction ks as [|x ks IH]; intros m; cbn [foldl]; [reflexivity|].
  intros [Hx Hks]%not_elem_of_cons. rewrite IH by assumption.
  apply lookup_delete_ne. congruence.
Qed.


(** The body of the loop for a row of type DICT, by cases. *)
Lemma convert_body_dict (row : flat_row) (c : conversion) :
  convert_body row TYPE_DICT c
  = match _get_dictionary row (kwargs c) with
    | Ok found =>
        (Conversion (kwargs c)
           (foldl (λ m key, delete key m)
              (<[row_name row := NDict found.1]> (kwa c)) found.2)
           (simple_select_list c) (to_skip_dict_subargs c ++ found.2) (log c)
           (metadata_out c),
         Ok tt)
    | Raise e => (c, Raise e)
    end.
Proof.
  unfold convert_body. unfold st_bind at 1.
  destruct (_get_dictionary row (kwargs c)) as [found|e]; [|reflexivity].
  unfold st_bind at 1, put_kwa at 1. now rewrite taken_loop.
Qed.

Lemma get_dictionary_taken (row : flat_row) (kw : gmap string val) found key :
  _get_dictionary row kw = Ok found → key ∈ found.2 →
  is_Some (kw !! key) ∧ PyStr.contains key (row_name row) = true.
Proof.
  unfold _get_dictionary.
  destruct (_is_parent_not_submitted (row_name row) kw) as [[|]|e]; cbn [res_bind];
    [intros [= <-] Hin; now apply elem_of_nil in Hin| |discriminate].
  destruct found as [d taken]. intros Hg. apply gather_dictionary_taken in Hg.
  cbn [app fst snd] in *. subst taken.
  rewrite list_elem_of_In, filter_In, <- list_elem_of_In, andb_true_iff.
  rewrite list_elem_of_fmap. intros [([k' v] & -> & Hin) [Hc _]]. cbn [fst] in *.
  apply elem_of_map_to_list in Hin. split; [eexists; exact Hin|exact Hc].
Qed.

Lemma dict_or_not (t : ptype) : t = TYPE_DICT ∨ t ≠ TYPE_DICT.
Proof. destruct t; (now left) || (right; discriminate). Qed.

Lemma is_parent_marker name kw :
  _is_parent_not_submitted name kw ≠ Ok false →
  PyStr.contains name KEYWORD_PARAMS = true.
Proof.
  unfold _is_parent_not_submitted.
  destruct (PyStr.contains name KEYWORD_PARAMS); [reflexivity|congruence].
Qed.

(** The test of the parent reads the submitted dictionary under a key
    without [_parameters_]. *)
Lemma is_parent_steady name (kw kw' : gmap string val) :
  (∀ p, PyStr.contains p KEYWORD_PARAMS = false → kw' !! p = kw !! p) →
  _is_parent_not_submitted name kw' = _is_parent_not_submitted name kw.
Proof.
  intros Hk. unfold _is_parent_not_submitted.
  destruct (PyStr.contains name KEYWORD_PARAMS) eqn:Hc; [|reflexivity].
  now rewrite (Hk _ (parent_name_free name Hc)).
Qed.

Lemma find_field_unmarked flat_name clean s :
  PyStr.contains flat_name KEYWORD_PARAMS = false →
  s.1 !! flat_name = None →
  _find_field_submitted_name flat_name clean s = (s, Ok None).
Proof.
  intros Hc Hs. unfold _find_field_submitted_name. rewrite Hc. cbn [negb].
  rewrite bool_decide_eq_false_2; [reflexivity|]. rewrite Hs. intros [? ?]. discriminate.
Qed.

Lemma coerced_steady r c c' : coerced r c c' → steady c c'.
Proof. intros (Hk & _ & Hl & _). split; [now rewrite Hk|exact Hl]. Qed.

(** Every row leaves the submitted values of the parents, and only
    adds to the log. *)
Lemma steady_convert_row validation_required row c :
  steady c (convert_row validation_required row c).1.
Proof.
  apply convert_row_state; [apply steady_refl|]. intros t Ht.
  destruct (dict_or_not t) as [->|Hd].
  - rewrite convert_body_dict.
    destruct (_get_dictionary row (kwargs c)); [|apply steady_refl].
    split; [reflexivity|]. exists []. cbn. now rewrite List.app_nil_r.
  - rewrite convert_body_cases by assumption.
    destruct (bool_decide _); [apply steady_refl|].
    destruct (kwargs c !! row_name row) as [v|] eqn:Hv.
    + destruct (_is_parent_not_submitted (row_name row) (kwargs c)) as [[|]|e] eqn:Hp;
        [|eapply coerced_steady, leaves_coerce, Ht|apply steady_refl].
      split; [|exists []; cbn; now rewrite List.app_nil_r].
      intros p Hfree. cbn [kwargs set_kwargs fst]. apply lookup_delete_ne.
      intros <-. rewrite (is_parent_marker _ (kwargs c)) in Hfree; [discriminate|].
      now rewrite Hp.
    + cbv zeta.
      destruct (PyStr.contains (row_name row) KEYWORD_PARAMS) eqn:Hm.
      * set (r := _find_field_submitted_name (row_name row) true (kwargs c, log c)).
        set (c1 := set_log (λ _, r.1.2) (set_kwargs (λ _, r.1.1) c)).
        assert (steady c c1) as H1.
        { split.
          - intros p Hfree. subst c1 r. cbn [kwargs set_log set_kwargs].
            rewrite find_field_state; [reflexivity|].
            destruct (cleaned_by (row_name row) p) eqn:Hcl; [|reflexivity].
            apply cleaned_by_marker in Hcl. congruence.
          - subst c1 r. cbn [log set_log set_kwargs]. apply find_field_log. }
        destruct r.2 as [[kn|]|e]; [|exact H1..].
        destruct (kwargs c1 !! kn) as [v|]; [|exact H1].
        eapply steady_trans; [exact H1|].
        eapply steady_trans; [|eapply coerced_steady, leaves_coerce, Ht].
        split; [|exists []; cbn; now rewrite List.app_nil_r].
        intros p Hfree. cbn [kwargs set_kwargs]. apply lookup_insert_ne. congruence.
      * rewrite find_field_unmarked by assumption. cbn [fst snd].
        destruct c. apply steady_refl.
Qed.

Lemma coerced_kept r q c c' :
  row_name r ≠ q → gid_key r ≠ Some q → coerced r c c' → kept q c c'.
Proof.
  intros Hn Hg (Hk & Ht & _ & Ha). split; [|split].
  - apply Ha; congruence.
  - now rewrite Hk.
  - now rewrite Ht.
Qed.

(** A row that is apart from the key [q] leaves what is under [q]. *)
Lemma kept_convert_row validation_required row q c :
  apart q row = true → kept q c (convert_row validation_required row c).1.
Proof.
  unfold apart.
  intros [[[Hn%negb_true_iff Hg%negb_true_iff]%andb_true_iff
             Hdict%negb_true_iff]%andb_true_iff Hcl%negb_true_iff]%andb_true_iff.
  apply String.eqb_neq in Hn. apply bool_decide_eq_false in Hg.
  apply convert_row_state; [apply kept_refl|]. intros t Ht.
  destruct (dict_or_not t) as [->|Hd].
  - unfold is_dict_row in Hdict. rewrite Ht in Hdict. cbn [andb] in Hdict.
    rewrite convert_body_dict.
    destruct (_get_dictionary row (kwargs c)) as [found|e] eqn:Hfound; [|apply kept_refl].
    assert (q ∉ found.2) as Hq.
    { intros Hin. destruct (get_dictionary_taken _ _ _ _ Hfound Hin) as [_ Hc].
      congruence. }
    split; [|split]; cbn [kwa kwargs to_skip_dict_subargs fst].
    + rewrite foldl_delete_other by assumption. apply lookup_insert_ne. congruence.
    + reflexivity.
    + intros [Hin|Hin]%elem_of_app; [exact Hin|contradiction].
  - rewrite convert_body_cases by assumption.
    destruct (bool_decide _); [apply kept_refl|].
    destruct (kwargs c !! row_name row) as [v|] eqn:Hv.
    + destruct (_is_parent_not_submitted (row_name row) (kwargs c)) as [[|]|e] eqn:Hp;
        [|eapply coerced_kept, leaves_coerce, Ht; assumption|apply kept_refl].
      split; [reflexivity|]. split; [|auto].
      cbn [kwargs set_kwargs fst]. apply lookup_delete_ne. congruence.
    + cbv zeta.
      set (r := _find_field_submitted_name (row_name row) true (kwargs c, log c)).
      set (c1 := set_log (λ _, r.1.2) (set_kwargs (λ _, r.1.1) c)).
      assert (kept q c c1) as H1.
      { split; [reflexivity|]. split; [|auto].
        subst c1 r. cbn [kwargs set_log set_kwargs].
        now rewrite find_field_state. }
      destruct r.2 as [[kn|]|e]; [|exact H1..].
      destruct (kwargs c1 !! kn) as [v|]; [|exact H1].
      eapply kept_trans; [exact H1|].
      eapply kept_trans; [|eapply coerced_kept, leaves_coerce, Ht; assumption].
      split; [reflexivity|]. split; [|auto].
      cbn [kwargs set_kwargs]. apply lookup_insert_ne. congruence.
Qed.

End Footprint.

(** *** The whole call *)

Lemma for_each_app {S A} (f : A → st S unit) (l1 l2 : list A) (s : S) :
  for_each f (l1 ++ l2) s
  = match for_each f l1 s with
    | (s1, Ok _) => for_each f l2 s1
    | (s1, Raise e) => (s1, Raise e)
    end.
Proof.
  revert s. induction l1 as [|x l1 IH]; intros s; cbn [app for_each]; [reflexivity|].
  unfold st_bind. destruct (f x s) as [s1 [[]|e]]; [apply IH|reflexivity].
Qed.

Section WholeCall.
Context `{Externals}.

Lemma kept_rows validation_required q rows :
  forallb (apart q) rows = true →
  leaves (kept q) (for_each (convert_row validation_required) rows).
Proof.
  intros Hrows. apply leaves_for_each_in; [apply kept_refl|apply kept_trans|].
  intros row Hin c. apply kept_convert_row.
  rewrite forallb_forall in Hrows. apply Hrows. now apply list_elem_of_In.
Qed.

Lemma steady_rows validation_required rows :
  leaves steady (for_each (convert_row validation_required) rows).
Proof.
  apply leaves_for_each_in; [apply steady_refl|apply steady_trans|].
  intros row _ c. apply steady_convert_row.
Qed.

(** The call on an interface in which every row but [row] is apart
    from the name of [row]: unless an earlier row raises, [row] finds
    its submitted value, and what it stores under its name stays. *)
Lemma convert_ui_inputs_at (before after : list flat_row) (row : flat_row)
    (submitted : gmap string val) (v : val) (md : metadata)
    (validation_required : bool) (log0 : list string)
    (c : conversion) (r : res collapsed) :
  submitted !! row_name row = Some v →
  _is_parent_not_submitted (row_name row) submitted = Ok false →
  forallb (apart (row_name row)) (before ++ after) = true →
  convert_ui_inputs (before ++ row :: after) submitted md validation_required log0
  = (c, r) →
  raised_before before submitted md validation_required log0 c r
  ∨ ∃ c1,
      kwargs c1 !! row_name row = Some v
      ∧ (row_name row ∉ to_skip_dict_subargs c1)
      ∧ _is_parent_not_submitted (row_name row) (kwargs c1) = Ok false
      ∧ match convert_row validation_required row c1 with
        | (c2, Ok _) =>
            kept (row_name row) c2 c ∧ steady c2 c
            ∧ (after = [] → c = c2 ∧ r = collapse_params (kwa c) (simple_select_list c))
        | (c2, Raise e) => c = c2 ∧ r = Raise e
        end.
Proof.
  intros Hv Hp Hrows Hcall.
  rewrite forallb_app in Hrows. apply andb_true_iff in Hrows as [Hb Ha].
  unfold convert_ui_inputs, st_bind in Hcall. rewrite for_each_app in Hcall.
  set (c0 := Conversion submitted ∅ [] [] log0 md) in *.
  pose proof (kept_rows validation_required _ _ Hb c0) as (_ & Kk & Kt).
  pose proof (steady_rows validation_required before c0) as [Ks _].
  destruct (for_each (convert_row validation_required) before c0) as [c1 [[]|e]] eqn:Eb;
    cbn [fst] in *.
  - right. exists c1. split; [now rewrite Kk|]. split.
    { intros Hin. apply Kt in Hin. now apply elem_of_nil in Hin. }
    split; [now rewrite (is_parent_steady _ submitted (kwargs c1) Ks)|].
    cbn [for_each] in Hcall. unfold st_bind in Hcall.
    destruct (convert_row validation_required row c1) as [c2 [[]|e]];
      [|now injection Hcall as <- <-].
    pose proof (kept_rows validation_required _ _ Ha c2) as K2.
    pose proof (steady_rows validation_required after c2) as S2.
    destruct (for_each (convert_row validation_required) after c2) as [c3 [[]|e]] eqn:Ea;
      cbn [fst] in *; injection Hcall as <- <-.
    + split; [exact K2|]. split; [exact S2|]. intros ->. cbn in Ea.
      unfold st_ret in Ea. now injection Ea as <-.
    + split; [exact K2|]. split; [exact S2|]. intros ->. cbn in Ea.
      unfold st_ret in Ea. discriminate.
  - left. injection Hcall as <- <-. now exists e.
Qed.

(** C3, amended: in [convert_ui_inputs], for a field that is
    submitted, whose parent (when the name of the field holds
    [_parameters_]) has the option of the field among the submitted
    ones, that passes the check of required values, and from whose
    name every other row of the interface is apart, and unless a row
    before the field raises: a BOOL field is given [bool] of the
    submitted value in the resulting dictionary, so the empty text
    gives [False] and the text [None] gives [True]; an INT field is
    given [None] for [None], the empty text and the text [None], and
    a FLOAT field for the empty text and the text [None] (and the
    call returns what [collapse_params] makes of that dictionary when
    the field is the last row); and an INT field whose value is none
    of these and on which [int] raises (an exception that is not one
    of the framework) makes the call raise
    [InvalidParameterException], when the row has a label. *)
Theorem convert_ui_inputs_sentinels (before after : list flat_row) (row : flat_row)
    (submitted : gmap string val) (v : val) (md : metadata)
    (validation_required : bool) (log0 : list string)
    (c : conversion) (r : res collapsed) :
  submitted !! row_name row = Some v →
  _is_parent_not_submitted (row_name row) submitted = Ok false →
  validation_required && row_required row && py_eq v (VStr "") = false →
  forallb (apart (row_name row)) (before ++ after) = true →
  convert_ui_inputs (before ++ row :: after) submitted md validation_required log0
  = (c, r) →
  (row_type row = Some TYPE_BOOL →
     (raised_before before submitted md validation_required log0 c r
      ∨ kwa c !! row_name row = Some (Atom (AVal (VBool (py_bool v))))
        ∧ (after = [] → r = collapse_params (kwa c) (simple_select_list c)))
     ∧ py_bool (VStr "") = false ∧ py_bool (VStr "None") = true)
  ∧ (row_type row = Some TYPE_INT →
     existsb (py_eq v) [VNone; VStr ""; VStr "None"] = true →
     raised_before before submitted md validation_required log0 c r
     ∨ kwa c !! row_name row = Some (Atom (AVal VNone))
       ∧ (after = [] → r = collapse_params (kwa c) (simple_select_list c)))
  ∧ (row_type row = Some TYPE_FLOAT →
     existsb (py_eq v) [VStr ""; VStr "None"] = true →
     raised_before before submitted md validation_required log0 c r
     ∨ kwa c !! row_name row = Some (Atom (AVal VNone))
       ∧ (after = [] → r = collapse_params (kwa c) (simple_select_list c)))
  ∧ (row_type row = Some TYPE_INT →
     existsb (py_eq v) [VNone; VStr ""; VStr "None"] = false →
     ∀ e label,
       py_int v = Raise e → plain_exception e → row_label row = Some label →
       raised_before before submitted md validation_required log0 c r
       ∨ r = Raise (InvalidParameterException
                      (py_format "Invalid or missing value in field %s [%s]"
                         [AVal (VStr label); AVal (VStr (row_name row))]))).
Proof.
  intros Hv Hp Hr Hrows Hcall.
  destruct (convert_ui_inputs_at _ _ _ _ _ _ _ _ _ _ Hv Hp Hrows Hcall)
    as [Hraised|(c1 & Hv1 & Hs1 & Hp1 & Hrow)].
  { split; [|split; [|split]]; intros; repeat split; now left. }
  destruct (convert_row_sentinels validation_required row v c1 Hv1 Hp1 Hs1 Hr)
    as (Hbool & Hint & Hfloat & Hbad).
  split; [|split; [|split]].
  - intros Ht. split; [|split; reflexivity]. right.
    destruct (Hbool Ht) as [E _]. rewrite E in Hrow.
    destruct Hrow as ((Ka & _) & _ & Hlast).
    split; [|intros Hafter; now destruct (Hlast Hafter)].
    rewrite Ka. apply lookup_insert_eq.
  - intros Ht Hin. right. rewrite (Hint Ht Hin) in Hrow.
    destruct Hrow as ((Ka & _) & _ & Hlast).
    split; [|intros Hafter; now destruct (Hlast Hafter)].
    rewrite Ka. apply lookup_insert_eq.
  - intros Ht Hin. right. rewrite (Hfloat Ht Hin) in Hrow.
    destruct Hrow as ((Ka & _) & _ & Hlast).
    split; [|intros Hafter; now destruct (Hlast Hafter)].
    rewrite Ka. apply lookup_insert_eq.
  - intros Ht Hin e label He (Hne1 & Hne2 & Hne3) Hl. right.
    rewrite (Hbad Ht Hin e label He Hne1 Hne2 Hne3 Hl) in Hrow.
    now destruct Hrow.
Qed.

(** C9, amended: in [convert_ui_inputs], for a field of type INT,
    FLOAT or ARRAY with a label and the bounds [minValue] and
    [maxValue], that is submitted, whose parent (when the name of the
    field holds [_parameters_]) has the option of the field among the
    submitted ones, that passes the check of required values, and
    from whose name every other row of the interface is apart:
    whenever the conversion of the submitted value itself succeeds
    ([int], [float], or [_convert_to_array] and, for an array,
    [numpy.min] and [numpy.max]), and unless a row before the field
    raises, the converted value is in the resulting dictionary under
    the name of the field, unchanged, a value outside the bounds has
    its warning in the log, and the call returns what
    [collapse_params] makes of the dictionary when the field is the
    last row: 15 is outside the bounds 0 and 10. *)
Theorem convert_ui_inputs_range (before after : list flat_row) (row : flat_row)
    (submitted : gmap string val) (v : val) (md : metadata)
    (validation_required : bool) (log0 : list string)
    (c : conversion) (r : res collapsed) (label : string) (mn mx : atom) :
  submitted !! row_name row = Some v →
  _is_parent_not_submitted (row_name row) submitted = Ok false →
  validation_required && row_required row && py_eq v (VStr "") = false →
  forallb (apart (row_name row)) (before ++ after) = true →
  row_label row = Some label →
  row_minValue row = Some mn → row_maxValue row = Some mx →
  convert_ui_inputs (before ++ row :: after) submitted md validation_required log0
  = (c, r) →
  (row_type row = Some TYPE_INT →
     existsb (py_eq v) [VNone; VStr ""; VStr "None"] = false →
     ∀ z, py_int v = Ok z →
       raised_before before submitted md validation_required log0 c r
       ∨ kwa c !! row_name row = Some (Atom (AVal (VInt z)))
         ∧ (out_of_range (AVal (VInt z)) mn mx = true →
            value_warning label (row_name row) mn mx (AVal (VInt z)) ∈ log c)
         ∧ (after = [] → r = collapse_params (kwa c) (simple_select_list c)))
  ∧ (row_type row = Some TYPE_FLOAT →
     existsb (py_eq v) [VStr ""; VStr "None"] = false →
     ∀ x, py_float v = Ok x →
       raised_before before submitted md validation_required log0 c r
       ∨ kwa c !! row_name row = Some (Atom (AExt x))
         ∧ (out_of_range (AExt x) mn mx = true →
            value_warning label (row_name row) mn mx (AExt x) ∈ log c)
         ∧ (after = [] → r = collapse_params (kwa c) (simple_select_list c)))
  ∧ (row_type row = Some TYPE_ARRAY →
     ∀ messages array lo hi,
       _convert_to_array v row = (messages, Ok array) →
       array_min array = Ok lo → array_max array = Ok hi →
       raised_before before submitted md validation_required log0 c r
       ∨ kwa c !! row_name row = Some (Atom array)
         ∧ (py_lt lo mn || py_lt mx hi = true →
            array_warning label (row_name row) mn mx lo hi ∈ log c)
         ∧ (after = [] → r = collapse_params (kwa c) (simple_select_list c)))
  ∧ out_of_range (AVal (VInt 15)) (AVal (VInt 0)) (AVal (VInt 10)) = true.
Proof.
  intros Hv Hp Hr Hrows Hl Hmn Hmx Hcall.
  destruct (convert_ui_inputs_at _ _ _ _ _ _ _ _ _ _ Hv Hp Hrows Hcall)
    as [Hraised|(c1 & Hv1 & Hs1 & Hp1 & Hrow)].
  { split; [|split; [|split; [|reflexivity]]]; intros; now left. }
  destruct (range_validation_warns validation_required row v c1 label mn mx
              Hv1 Hp1 Hs1 Hr Hl Hmn Hmx)
    as (Hint & Hfloat & Harray & _).
  split; [|split; [|split; [|reflexivity]]].
  - intros Ht Hin z Hz. right. rewrite (Hint Ht Hin z Hz) in Hrow.
    destruct Hrow as ((Ka & _) & (_ & [extra Hlog]) & Hlast).
    split; [rewrite Ka; apply lookup_insert_eq|].
    split; [|intros Hafter; now destruct (Hlast Hafter)].
    intros Hout. rewrite Hlog. unfold stored. cbn [log set_log set_kwa].
    rewrite Hout. apply elem_of_app. left. apply elem_of_app. right.
    apply elem_of_cons. now left.
  - intros Ht Hin x Hx. right. rewrite (Hfloat Ht Hin x Hx) in Hrow.
    destruct Hrow as ((Ka & _) & (_ & [extra Hlog]) & Hlast).
    split; [rewrite Ka; apply lookup_insert_eq|].
    split; [|intros Hafter; now destruct (Hlast Hafter)].
    intros Hout. rewrite Hlog. unfold stored. cbn [log set_log set_kwa].
    rewrite Hout. apply elem_of_app. left. apply elem_of_app. right.
    apply elem_of_cons. now left.
  - intros Ht messages array lo hi Ha Hlo Hhi. right.
    rewrite (Harray Ht messages array lo hi Ha Hlo Hhi) in Hrow.
    destruct Hrow as ((Ka & _) & (_ & [extra Hlog]) & Hlast).
    split; [rewrite Ka; apply lookup_insert_eq|].
    split; [|intros Hafter; now destruct (Hlast Hafter)].
    intros Hout. rewrite Hlog. unfold stored. cbn [log set_log set_kwa].
    rewrite Hout. apply elem_of_app. left. apply elem_of_app. right.
    apply elem_of_cons. now left.
Qed.

End WholeCall.

(** C3, as stated, fails for the fields of type BOOL: the empty text
    and the text [None] are not given [None], but [bool] of the text. *)
Lemma bool_field_is_never_None :
  ¬ (∀ (N : Natives) (E : Externals) (before after : list flat_row) (row : flat_row)
       (submitted : gmap string val) (v : val) (md : metadata)
       (validation_required : bool) (log0 : list string)
       (c : conversion) (r : res collapsed),
       row_type row = Some TYPE_BOOL →
       v = VStr "" ∨ v = VStr "None" →
       submitted !! row_name row = Some v →
       _is_parent_not_submitted (row_name row) submitted = Ok false →
       validation_required && row_required row && py_eq v (VStr "") = false →
       forallb (apart (row_name row)) (before ++ after) = true →
       convert_ui_inputs (before ++ row :: after) submitted md validation_required log0
       = (c, r) →
       kwa c !! row_name row = Some (Atom (AVal VNone))).
Proof.
  intros Hclaim.
  specialize (Hclaim text_natives text_externals [] []
                (text_row "flag" TYPE_BOOL "Flag") {["flag" := VStr "None"]}
                (VStr "None") tt true [] _ _
                eq_refl (or_intror eq_refl) eq_refl eq_refl eq_refl eq_refl eq_refl).
  vm_compute in Hclaim. discriminate.
Qed.

Lemma convert_ui_inputs_sentinels_witness :
  kwa (@convert_ui_inputs text_natives text_externals
         [ text_row "model" TYPE_SELECT "Model";
           text_row "model_parameters_option_A_count" TYPE_INT "Count";
           text_row "flag" TYPE_BOOL "Flag" ]
         {[ "model" := VStr "A"; "model_parameters_option_A_count" := VStr "None";
            "flag" := VStr "" ]} tt true []).1
    !! "model_parameters_option_A_count"
  = Some (@Atom text_natives (AVal VNone)).
Proof.
  destruct (@convert_ui_inputs text_natives text_externals
              [ text_row "model" TYPE_SELECT "Model";
                text_row "model_parameters_option_A_count" TYPE_INT "Count";
                text_row "flag" TYPE_BOOL "Flag" ]
              {[ "model" := VStr "A"; "model_parameters_option_A_count" := VStr "None";
                 "flag" := VStr "" ]} tt true []) as [c r] eqn:E.
  destruct (@convert_ui_inputs_sentinels text_natives text_externals
              [text_row "model" TYPE_SELECT "Model"]
              [text_row "flag" TYPE_BOOL "Flag"]
              (text_row "model_parameters_option_A_count" TYPE_INT "Count")
              {[ "model" := VStr "A"; "model_parameters_option_A_count" := VStr "None";
                 "flag" := VStr "" ]}
              (VStr "None") tt true [] c r)
    as (_ & Hint & _); [reflexivity|reflexivity|reflexivity|reflexivity|exact E|].
  destruct (Hint eq_refl eq_refl) as [[e [Hb _]]|[Hk _]]; [|exact Hk].
  vm_compute in Hb. discriminate.
Defined.

(** C9, as stated, fails: the validation of a range can make the call
    raise, and a value outside the bounds is not always returned.
    For a row without label, building the warning raises [KeyError],
    and so does building the message of the exception that the loop
    raises instead; and the value that a row has stored is removed
    again when a later row of type DICT takes its key. *)
Lemma range_violation_may_raise :
  ¬ (∀ (N : Natives) (E : Externals) (row : flat_row) (submitted : gmap string val)
       (v : val) (z : Z) (mn mx : atom) (md : metadata)
       (validation_required : bool) (log0 : list string)
       (c : conversion) (r : res collapsed),
       row_type row = Some TYPE_INT →
       row_minValue row = Some mn → row_maxValue row = Some mx →
       submitted !! row_name row = Some v →
       PyStr.contains (row_name row) KEYWORD_PARAMS = false →
       row_required row = false →
       py_int v = Ok z → out_of_range (AVal (VInt z)) mn mx = true →
       convert_ui_inputs [row] submitted md validation_required log0 = (c, r) →
       r = collapse_params (kwa c) (simple_select_list c))
  ∧ ¬ (∀ (N : Natives) (E : Externals) (row later : flat_row)
         (submitted : gmap string val) (v : val) (z : Z) (label : string)
         (mn mx : atom) (md : metadata) (validation_required : bool)
         (log0 : list string) (c : conversion) (result : collapsed),
         row_type row = Some TYPE_INT → row_label row = Some label →
         row_minValue row = Some mn → row_maxValue row = Some mx →
         submitted !! row_name row = Some v →
         PyStr.contains (row_name row) KEYWORD_PARAMS = false →
         row_required row = false →
         py_int v = Ok z → out_of_range (AVal (VInt z)) mn mx = true →
         row_name later ≠ row_name row →
         convert_ui_inputs [row; later] submitted md validation_required log0
         = (c, Ok result) →
         kwa c !! row_name row = Some (Atom (AVal (VInt z)))).
Proof.
  split.
  - intros Hclaim.
    specialize (Hclaim text_natives text_externals
                  (@FlatRow text_natives "count" (Some TYPE_INT) None false
                     (Some (@AVal text_natives (VInt 0)))
                     (Some (@AVal text_natives (VInt 10))) None None)
                  {["count" := VStr "15"]} (VStr "15") 15 _ _ tt true [] _ _
                  eq_refl eq_refl eq_refl eq_refl eq_refl eq_refl eq_refl eq_refl
                  eq_refl).
    vm_compute in Hclaim. discriminate.
  - intros Hclaim.
    specialize (Hclaim text_natives text_externals
                  (bounded_row "weights_x" TYPE_INT "X" 0 10)
                  (dict_row "weights" "float")
                  {["weights_x" := VStr "15"]} (VStr "15") 15 "X" _ _ tt true [] _ _
                  eq_refl eq_refl eq_refl eq_refl eq_refl eq_refl eq_refl eq_refl
                  eq_refl ltac:(discriminate) eq_refl).
    vm_compute in Hclaim. discriminate.
Qed.

Lemma convert_ui_inputs_range_witness :
  kwa (@convert_ui_inputs text_natives text_externals
         [ text_row "model" TYPE_SELECT "Model";
           bounded_row "model_parameters_option_A_count" TYPE_INT "Count" 0 10 ]
         {[ "model" := VStr "A"; "model_parameters_option_A_count" := VStr "15" ]}
         tt true []).1
    !! "model_parameters_option_A_count"
  = Some (@Atom text_natives (AVal (VInt 15)))
  ∧ "Field %s [%s] should be between %s and %s but provided value was %s."
    ∈ log (@convert_ui_inputs text_natives text_externals
             [ text_row "model" TYPE_SELECT "Model";
               bounded_row "model_parameters_option_A_count" TYPE_INT "Count" 0 10 ]
             {[ "model" := VStr "A"; "model_parameters_option_A_count" := VStr "15" ]}
             tt true []).1
  ∧ (@convert_ui_inputs text_natives text_externals
       [ text_row "model" TYPE_SELECT "Model";
         bounded_row "model_parameters_option_A_count" TYPE_INT "Count" 0 10 ]
       {[ "model" := VStr "A"; "model_parameters_option_A_count" := VStr "15" ]}
       tt true []).2
    = Ok ["model"].
Proof.
  destruct (@convert_ui_inputs text_natives text_externals
              [ text_row "model" TYPE_SELECT "Model";
                bounded_row "model_parameters_option_A_count" TYPE_INT "Count" 0 10 ]
              {[ "model" := VStr "A"; "model_parameters_option_A_count" := VStr "15" ]}
              tt true []) as [c r] eqn:E.
  destruct (@convert_ui_inputs_range text_natives text_externals
              [text_row "model" TYPE_SELECT "Model"] []
              (bounded_row "model_parameters_option_A_count" TYPE_INT "Count" 0 10)
              {[ "model" := VStr "A"; "model_parameters_option_A_count" := VStr "15" ]}
              (VStr "15") tt true [] c r "Count" (AVal (VInt 0)) (AVal (VInt 10)))
    as (Hint & _);
    [reflexivity|reflexivity|reflexivity|reflexivity|reflexivity|reflexivity
    |reflexivity|exact E|].
  destruct (Hint eq_refl eq_refl 15 eq_refl) as [[e [Hb _]]|(Hk & Hw & Hr)];
    [vm_compute in Hb; discriminate|].
  split; [exact Hk|]. split; [exact (Hw eq_refl)|].
  cbn [snd]. rewrite (Hr eq_refl). vm_compute in E. now injection E as <- _.
Defined.

Section Gathering.
Context `{Externals}.










End Gathering.



(** ** Flat names that cannot collide *)

Lemma plainly_named_node_eq (n : node) :
  plainly_named_node n =
    plain_name (name n)
    && match d_options (entries n) with
       | Given os =>
           incomparable (option_segments os) && forallb plainly_named_option os
       | _ => true
       end
    && match d_attributes (entries n) with
       | Given attrs => plainly_nested attrs
       | _ => true
       end.
Proof. now destruct n as [[nm ty lb df rq vl os ats uh cn dy wa fi dt]]. Qed.

Lemma startswith_app_weaken a b x :
  PyStr.startswith a x = true → PyStr.startswith (a +:+ b) x = true.
Proof.
  revert a. induction x as [|c x IH]; intros a; [intros _; apply startswith_nil|].
  destruct a as [|d a]; cbn [PyStr.startswith]; [discriminate|].
  rewrite app_cons. cbn [PyStr.startswith].
  destruct (Ascii.eqb c d); [apply IH|discriminate].
Qed.

Lemma startswith_prefix t a b :
  PyStr.startswith t (a +:+ b) = true → PyStr.startswith t a = true.
Proof.
  revert t. induction a as [|c a IH]; intros t; [intros _; apply startswith_nil|].
  rewrite app_cons. destruct t as [|d t]; cbn [PyStr.startswith]; [discriminate|].
  destruct (Ascii.eqb c d); [apply IH|discriminate].
Qed.

(** A text that starts [x +:+ s] starts [x], or is [x] and the start
    of [s]. *)
Lemma startswith_app_cases x s m :
  PyStr.startswith (x +:+ s) m = true →
  PyStr.startswith x m = true
  ∨ ∃ m2, m = x +:+ m2 ∧ m2 ≠ "" ∧ PyStr.startswith s m2 = true.
Proof.
  revert m. induction x as [|a x IH]; intros m.
  - rewrite app_nil_l. destruct m as [|b m]; [now left|].
    intros Hs. right. exists (String b m). repeat split; [discriminate|exact Hs].
  - rewrite app_cons. destruct m as [|b m]; [now left|].
    cbn [PyStr.startswith]. destruct (Ascii.eqb_spec b a) as [->|]; [|discriminate].
    intros [Hx|(m2 & -> & Hm2 & Hs)]%IH; [now left|].
    right. exists m2. now rewrite app_cons.
Qed.

(** Two texts that start the same text: one starts the other. *)
Lemma startswith_comparable s a b :
  PyStr.startswith s a = true → PyStr.startswith s b = true →
  PyStr.startswith a b = true ∨ PyStr.startswith b a = true.
Proof.
  revert a b. induction s as [|c s IH]; intros [|x a] [|y b]; cbn [PyStr.startswith];
    try discriminate; auto.
  destruct (Ascii.eqb_spec x c) as [->|]; [|discriminate].
  destruct (Ascii.eqb_spec y c) as [->|]; [|discriminate].
  rewrite Ascii.eqb_refl. apply IH.
Qed.

Lemma underscore_free_app_r a b :
  underscore_free (a +:+ b) = true → underscore_free b = true.
Proof.
  induction a as [|c a IH]; rewrite ?app_cons, ?app_nil_l; [auto|].
  cbn [underscore_free]. intros [_ H]%andb_true_iff. auto.
Qed.

Lemma contains_cons c s sub :
  PyStr.contains (String c s) sub = false →
  PyStr.startswith (String c s) sub = false ∧ PyStr.contains s sub = false.
Proof.
  unfold PyStr.contains. rewrite find_nat_cons.
  destruct (PyStr.startswith (String c s) sub).
  - intros Hc. apply bool_decide_eq_false in Hc. destruct Hc. now eexists.
  - destruct (PyStr.find_nat s sub) as [i|].
    + intros Hc. apply bool_decide_eq_false in Hc. destruct Hc. now eexists.
    + split; [reflexivity|]. apply bool_decide_eq_false. intros [? ?]. discriminate.
Qed.

(** In a name without [_parameters] that is followed by
    [_parameters], the first [_parameters] is the one that follows. *)
Lemma find_nat_parameters nm t :
  PyStr.contains nm "_parameters" = false →
  PyStr.startswith t "_parameters" = true →
  PyStr.find_nat (nm +:+ t) "_parameters" = Some (String.length nm).
Proof.
  intros Hc Ht. induction nm as [|c nm IH]; rewrite ?app_cons, ?app_nil_l.
  - destruct t; cbn [PyStr.find_nat]; now rewrite Ht.
  - apply contains_cons in Hc as [Hs Hc]. rewrite find_nat_cons.
    rewrite <- app_cons.
    destruct (PyStr.startswith (String c nm +:+ t) "_parameters") eqn:Hst.
    + exfalso. apply startswith_app_cases in Hst as [Hx|(m2 & E & Hm2 & Hs2)];
        [congruence|].
      rewrite app_cons in E. injection E as <- E.
      assert (underscore_free m2 = true) as Hf
        by (apply (underscore_free_app_r nm); now rewrite <- E).
      destruct m2 as [|d m2]; [congruence|].
      destruct t as [|e t]; cbn [PyStr.startswith] in Hs2, Ht; [discriminate|].
      destruct (Ascii.eqb_spec "_" e) as [<-|]; [|discriminate].
      destruct (Ascii.eqb_spec d "_") as [->|]; [|discriminate].
      discriminate.
    + rewrite (IH Hc). reflexivity.
Qed.

Lemma contains_find_nat s sub :
  PyStr.contains s sub = false → PyStr.find_nat s sub = None.
Proof.
  unfold PyStr.contains. intros Hc. apply bool_decide_eq_false in Hc.
  destruct (PyStr.find_nat s sub); [destruct Hc; now eexists|reflexivity].
Qed.

(** Two names without [_parameters] that are both the name of one
    text are the same. *)
Lemma own_inj nm1 nm2 s :
  PyStr.contains nm1 "_parameters" = false →
  PyStr.contains nm2 "_parameters" = false →
  own nm1 s → own nm2 s → nm1 = nm2.
Proof.
  intros H1 H2 (t1 & -> & Ht1) (t2 & E & Ht2).
  assert (∀ nm t, PyStr.contains nm "_parameters" = false →
            t = "" ∨ PyStr.startswith t KEYWORD_PARAMS = true →
            PyStr.find_nat (nm +:+ t) "_parameters"
            = if String.eqb t "" then None else Some (String.length nm)) as Hfind.
  { intros nm t Hc [->|Ht].
    - rewrite app_nil_r. now apply contains_find_nat.
    - destruct t; [discriminate|]. cbn [String.eqb].
      apply find_nat_parameters; [exact Hc|].
      now apply (startswith_prefix _ "_parameters" "_"). }
  pose proof (Hfind nm1 t1 H1 Ht1) as F1. pose proof (Hfind nm2 t2 H2 Ht2) as F2.
  rewrite E in F1. rewrite F1 in F2.
  destruct (String.eqb_spec t1 "") as [->|], (String.eqb_spec t2 "") as [->|];
    try discriminate.
  - now rewrite !app_nil_r in E.
  - injection F2 as F2.
    rewrite <- (take_app_string nm1 t1), E, F2. apply take_app_string.
Qed.

Lemma option_split nm m2 : "option_" = nm +:+ String "_" m2 → m2 = "".
Proof.
  intros E.
  do 7 (destruct nm as [|? nm];
        [rewrite app_nil_l in E; try discriminate; now injection E
        |rewrite app_cons in E; try discriminate; injection E as _ E]).
  destruct nm; discriminate.
Qed.

(** A plain name is not the name of a text that starts with
    [option_]. *)
Lemma own_not_option nm s :
  plain_name nm = true → own nm s → PyStr.startswith s KEYWORD_OPTION = false.
Proof.
  unfold plain_name. intros [_ Hn%negb_true_iff]%andb_true_iff (t & -> & Ht).
  destruct (PyStr.startswith (nm +:+ t) KEYWORD_OPTION) eqn:Hs; [|reflexivity].
  exfalso. destruct Ht as [->|Ht].
  - rewrite app_nil_r in Hs.
    rewrite (startswith_app_weaken _ _ _ Hs) in Hn. discriminate.
  - destruct t as [|c t]; [discriminate|].
    cbn [PyStr.startswith KEYWORD_PARAMS] in Ht.
    destruct (Ascii.eqb_spec "_" c) as [<-|]; [|discriminate].
    replace (nm +:+ String "_" t) with ((nm +:+ KEYWORD_SEPARATOR) +:+ t) in Hs
      by (unfold KEYWORD_SEPARATOR; now rewrite app_assoc, app_cons, app_nil_l).
    apply startswith_app_cases in Hs as [Hx|(m2 & E & Hm2 & _)]; [congruence|].
    apply Hm2. apply (option_split nm).
    unfold KEYWORD_OPTION, KEYWORD_SEPARATOR in E.
    now rewrite app_assoc, app_cons, app_nil_l in E.
Qed.

Lemma below_inj p (P Q : string → Prop) x :
  below p P x → below p Q x → ∃ s, P s ∧ Q s.
Proof.
  intros (s1 & -> & H1) (s2 & E & H2). apply app_inj_l in E. subst s2. eauto.
Qed.

Lemma below_weaken p (P Q : string → Prop) x :
  (∀ s, P s → Q s) → below p P x → below p Q x.
Proof. intros H (s & -> & Hs). exists s. auto. Qed.

Lemma flat_below_weaken p (P Q : string → Prop) m :
  (∀ s, P s → Q s) → flat_below p P m → flat_below p Q m.
Proof.
  intros H (r & -> & ND & U). exists r. repeat split; [assumption|].
  intros x Hx. eapply below_weaken; eauto.
Qed.

(** A name below a longer prefix is a name below a shorter one. *)
Lemma flat_below_step p u (P : string → Prop) m :
  flat_below (p +:+ u) P m → flat_below p (λ s, ∃ s', s = u +:+ s' ∧ P s') m.
Proof.
  intros (r & -> & ND & U). exists r. repeat split; [assumption|].
  intros x Hx. destruct (U x Hx) as (s & -> & Hs).
  exists (u +:+ s). split; [apply app_assoc|]. eauto.
Qed.

Lemma flat_below_nil p P : flat_below p P (Ok []).
Proof. exists []. repeat split; [constructor|]. intros x Hx. inversion Hx. Qed.

Lemma flat_below_app p (P Q : string → Prop) m1 m2 :
  flat_below p P m1 → flat_below p Q m2 →
  (∀ s, P s → Q s → False) →
  flat_below p (λ s, P s ∨ Q s) (let! r1 := m1 in let! r2 := m2 in Ok (r1 ++ r2)).
Proof.
  intros (r1 & -> & N1 & U1) (r2 & -> & N2 & U2) D. exists (r1 ++ r2).
  split; [reflexivity|]. rewrite names_app. split.
  - apply NoDup_app. repeat split; [assumption| |assumption].
    intros x H1 H2.
    destruct (below_inj _ _ _ _ (U1 x H1) (U2 x H2)) as (s & ? & ?). eauto.
  - intros x [Hx|Hx]%elem_of_app;
      (eapply below_weaken; [|eauto]); cbn beta; auto.
Qed.

(** Flattening a list of siblings, given what flattening each gives. *)
Lemma flatten_plain_siblings p l :
  Forall (λ n, flat_below p (own (name n)) (flatten_param n (Some p))) l →
  Forall (λ n, plain_name (name n) = true) l →
  NoDup (names l) →
  flat_below p (λ s, ∃ n, n ∈ l ∧ own (name n) s) (flatten l (Some p)).
Proof.
  induction 1 as [|n l Hn _ IH]; intros Hpl ND.
  - apply flat_below_nil.
  - cbn [names map] in ND. apply NoDup_cons in ND as [Hnew ND].
    apply Forall_cons in Hpl as [Hplain Hpl].
    cbn [flatten].
    eapply flat_below_weaken;
      [|apply (flat_below_app p _ _ _ _ Hn (IH Hpl ND))].
    + intros s [Hs|(n' & Hin & Hs)].
      * exists n. split; [apply elem_of_cons; now left|exact Hs].
      * exists n'. split; [apply elem_of_cons; now right|exact Hs].
    + intros s Hs (n' & Hin & Hs'). apply Hnew.
      rewrite Forall_forall in Hpl. specialize (Hpl n' Hin).
      unfold plain_name in *.
      apply andb_true_iff in Hplain as [Hc%negb_true_iff _].
      apply andb_true_iff in Hpl as [Hc'%negb_true_iff _].
      rewrite (own_inj _ _ _ Hc Hc' Hs Hs'). unfold names.
      apply list_elem_of_fmap. now exists n'.
Qed.

Lemma flatten_plainly_nested p l :
  Forall flat_plain l → plainly_nested l = true → good_prefix p = true →
  flat_below p (λ s, ∃ n, n ∈ l ∧ own (name n) s) (flatten l (Some p)).
Proof.
  unfold plainly_nested. intros F [ND Hl]%andb_true_iff Hp.
  apply bool_decide_eq_true in ND. rewrite forallb_forall in Hl.
  rewrite Forall_forall in F.
  apply flatten_plain_siblings; [| |assumption].
  - apply Forall_forall. intros n Hin.
    destruct (proj1 (andb_true_iff _ _) (Hl n (proj1 (list_elem_of_In _ _) Hin)))
      as [Ht%bool_decide_eq_true Hn].
    apply F; auto.
  - apply Forall_forall. intros n Hin.
    destruct (proj1 (andb_true_iff _ _) (Hl n (proj1 (list_elem_of_In _ _) Hin)))
      as [_ Hn].
    rewrite plainly_named_node_eq in Hn.
    apply andb_true_iff in Hn as [Hn _]. apply andb_true_iff in Hn as [Hn _].
    exact Hn.
Qed.

(** One option of the parameter [nm], flattened under [p]. *)
Lemma flatten_plain_option p nm o :
  good_prefix p = true →
  (∀ ats, d_attributes (entries o) = Given ats → Forall flat_plain ats) →
  plainly_named_option o = true →
  flat_below (p +:+ nm +:+ KEYWORD_PARAMS +:+ KEYWORD_OPTION)
    (λ s, ∃ seg, option_segment o = Some seg ∧ PyStr.startswith s seg = true)
    (flatten_option nm (Some p) o).
Proof.
  intros Hp IH. unfold plainly_named_option, flatten_option, option_segment, get_value.
  destruct (d_attributes (entries o)) as [| |ats]; try (intros _; apply flat_below_nil).
  destruct (d_value (entries o)) as [[| | |v|]|]; try discriminate.
  cbn [andb res_bind]. intros Hats.
  rewrite form_prefix_good by assumption. cbn [res_bind].
  replace (((p +:+ nm +:+ KEYWORD_PARAMS) +:+ KEYWORD_OPTION +:+ v +:+ KEYWORD_SEPARATOR))
    with ((p +:+ nm +:+ KEYWORD_PARAMS +:+ KEYWORD_OPTION) +:+ (v +:+ KEYWORD_SEPARATOR))
    by (now rewrite !app_assoc).
  eapply flat_below_weaken; [|apply flat_below_step, flatten_plainly_nested].
  - intros s (s' & -> & _). exists (v +:+ KEYWORD_SEPARATOR).
    split; [reflexivity|apply startswith_app_l].
  - now apply IH.
  - exact Hats.
  - match goal with
    | |- good_prefix ?x = true =>
        replace x with ((p +:+ nm +:+ KEYWORD_PARAMS) +:+ KEYWORD_OPTION +:+ v
                        +:+ KEYWORD_SEPARATOR) by (now rewrite !app_assoc)
    end.
    apply good_prefix_option.
Qed.

Lemma incomparable_cons seg l :
  incomparable (seg :: l) = true →
  incomparable l = true
  ∧ ∀ seg' s, seg' ∈ l → PyStr.startswith s seg = true →
      PyStr.startswith s seg' = true → False.
Proof.
  cbn [incomparable]. intros [Hseg Hl]%andb_true_iff. split; [exact Hl|].
  intros seg' s Hin Hs Hs'. rewrite forallb_forall in Hseg.
  specialize (Hseg seg' (proj1 (list_elem_of_In _ _) Hin)).
  apply andb_true_iff in Hseg as [H1%negb_true_iff H2%negb_true_iff].
  destruct (startswith_comparable s seg seg' Hs Hs'); congruence.
Qed.

Lemma flatten_plain_options p nm os :
  good_prefix p = true →
  (∀ o ats, o ∈ os → d_attributes (entries o) = Given ats → Forall flat_plain ats) →
  forallb plainly_named_option os = true →
  incomparable (option_segments os) = true →
  flat_below (p +:+ nm +:+ KEYWORD_PARAMS +:+ KEYWORD_OPTION)
    (λ s, ∃ seg, seg ∈ option_segments os ∧ PyStr.startswith s seg = true)
    (flatten_options nm (Some p) os).
Proof.
  intros Hp. induction os as [|o os IHos]; intros IH Hos Hinc.
  - apply flat_below_nil.
  - cbn [forallb] in Hos. apply andb_true_iff in Hos as [Ho Hos].
    pose proof (flatten_plain_option p nm o Hp
                  (λ ats, IH o ats ltac:(apply elem_of_cons; now left)) Ho) as H1.
    cbn [option_segments] in *. cbn [flatten_options].
    destruct (option_segment o) as [seg|] eqn:Eseg.
    + apply incomparable_cons in Hinc as [Hinc Hdis].
      assert (flat_below (p +:+ nm +:+ KEYWORD_PARAMS +:+ KEYWORD_OPTION)
                (λ s, ∃ seg, seg ∈ option_segments os ∧ PyStr.startswith s seg = true)
                (flatten_options nm (Some p) os)) as H2.
      { apply IHos; [|assumption..].
        intros o' ats Ho'. apply IH, elem_of_cons. now right. }
      eapply flat_below_weaken; [|eapply flat_below_app; [exact H1|exact H2|]].
      * intros s [(seg0 & [= <-] & Hs)|(seg' & Hin & Hs)].
        -- exists seg. split; [apply elem_of_cons; now left|exact Hs].
        -- exists seg'. split; [apply elem_of_cons; now right|exact Hs].
      * intros s (seg0 & [= <-] & Hs) (seg' & Hin & Hs'). eauto.
    + assert (flat_below (p +:+ nm +:+ KEYWORD_PARAMS +:+ KEYWORD_OPTION)
                (λ s, ∃ seg, seg ∈ option_segments os ∧ PyStr.startswith s seg = true)
                (flatten_options nm (Some p) os)) as H2.
      { apply IHos; [|assumption..].
        intros o' ats Ho'. apply IH, elem_of_cons. now right. }
      eapply flat_below_weaken; [|eapply flat_below_app; [exact H1|exact H2|]].
      * intros s [(seg0 & [=] & _)|Hs]. exact Hs.
      * intros s (seg0 & [=] & _).
Qed.

Lemma name_flat_entry_top n p :
  is_Some (d_type (entries n)) ∨ p = "" →
  name (flat_entry n (Some p)) = p +:+ name n.
Proof.
  destruct n as [[nm ty lb df rq vl os ats uh cn dy wa fi dt]].
  intros [[t E]| ->]; [cbn in E; subst ty; reflexivity|]. now destruct ty.
Qed.

Lemma plainly_nested_plain l n :
  plainly_nested l = true → n ∈ l → plain_name (name n) = true.
Proof.
  unfold plainly_nested. intros [_ Hl]%andb_true_iff Hin.
  rewrite forallb_forall in Hl.
  specialize (Hl n (proj1 (list_elem_of_In _ _) Hin)).
  apply andb_true_iff in Hl as [_ Hn]. rewrite plainly_named_node_eq in Hn.
  apply andb_true_iff in Hn as [Hn _]. apply andb_true_iff in Hn as [Hn _].
  exact Hn.
Qed.

Lemma flat_plain_all n : flat_plain n.
Proof.
  induction n as [d IHos IHats] using node_ind2.
  intros Hn p Hp Hty. rewrite plainly_named_node_eq in Hn.
  apply andb_true_iff in Hn as [Hn Hats].
  apply andb_true_iff in Hn as [Hnm Hos].
  rewrite flatten_param_eq. unfold flatten_attributes.
  set (nm := name (Node d)) in *. cbn [entries] in *.
  set (q := p +:+ nm +:+ KEYWORD_PARAMS).
  assert (flat_below q (λ s, PyStr.startswith s KEYWORD_OPTION = true)
            match d_options d with
            | Given options => flatten_options nm (Some p) options
            | _ => Ok []
            end) as (r1 & -> & N1 & U1).
  { destruct (d_options d) as [| |os] eqn:Eos; try apply flat_below_nil.
    apply andb_true_iff in Hos as [Hinc Hos].
    eapply flat_below_weaken; [|apply (flat_below_step q KEYWORD_OPTION)].
    - intros s (s' & -> & _). apply startswith_app_l.
    - unfold q. rewrite !app_assoc. apply flatten_plain_options; eauto. }
  assert (flat_below q (λ s, PyStr.startswith s KEYWORD_OPTION = false)
            match d_attributes d with
            | Given attrs =>
                let! new_prefix := form_prefix nm (Some p) VNone in
                flatten attrs (Some new_prefix)
            | _ => Ok []
            end) as (r2 & -> & N2 & U2).
  { destruct (d_attributes d) as [| |ats] eqn:Eats; try apply flat_below_nil.
    rewrite form_prefix_good by assumption. cbn [res_bind]. fold q.
    eapply flat_below_weaken;
      [|apply (flatten_plainly_nested q ats);
        [eauto|assumption|apply good_prefix_params]].
    cbn beta. intros s (n & Hin & Hs).
    eapply own_not_option; [|exact Hs]. eapply plainly_nested_plain; eauto. }
  cbn [res_bind].
  assert (NoDup (names (r1 ++ r2))
          ∧ ∀ x, x ∈ names (r1 ++ r2) → below q (λ _, True) x) as [N U].
  { rewrite names_app. split.
    - apply NoDup_app. repeat split; [assumption| |assumption].
      intros x H1 H2.
      destruct (below_inj _ _ _ _ (U1 x H1) (U2 x H2)) as (s & ? & ?). congruence.
    - intros x [Hx|Hx]%elem_of_app;
        (eapply below_weaken; [|eauto]); auto. }
  eexists. split; [reflexivity|]. cbn [names map].
  rewrite name_flat_entry_top by assumption. fold nm. fold (names (r1 ++ r2)).
  split.
  - apply NoDup_cons. split; [|exact N].
    intros (s & E & _)%U. unfold q in E.
    apply (no_self_app (p +:+ nm) "_" ("parameters_" +:+ s)).
    etransitivity; [exact E|]. unfold KEYWORD_PARAMS.
    now rewrite !app_assoc, app_cons.
  - intros x [->|Hx]%elem_of_cons.
    + exists nm. split; [reflexivity|]. exists "". split; [now rewrite app_nil_r|now left].
    + destruct (U x Hx) as (s & -> & _). exists (nm +:+ KEYWORD_PARAMS +:+ s).
      split; [unfold q; now rewrite !app_assoc|].
      exists (KEYWORD_PARAMS +:+ s). split; [reflexivity|]. right.
      apply startswith_app_l.
Qed.

(** C1, amended: if names are distinct among siblings, no name of a
    parameter holds [_parameters], is [option] or starts with
    [option_], every parameter below the top level carries a type,
    every option with attributes has a text for value and, among the
    options of one parameter, no such value closed by [_] starts with
    another one, then [flatten(tree)] with no initial prefix returns
    a list whose names are pairwise distinct.  The prefix built by
    [form_prefix] is the prefix so far (closed by a separator when it
    is not empty), the parent's name, the marker [_parameters_] and,
    for the children of an option, [option_], the option's value and
    a separator. *)
Theorem flatten_names_distinct (tree : list node) :
  plainly_named tree = true →
  (∃ r, flatten tree None = Ok r ∧ NoDup (names r))
  ∧ (∀ nm prefix,
       form_prefix nm prefix VNone
       = Ok (with_separator prefix +:+ nm +:+ "_parameters_"))
  ∧ (∀ nm prefix v,
       form_prefix nm prefix (VStr v)
       = Ok (with_separator prefix +:+ nm +:+ "_parameters_" +:+ "option_"
               +:+ v +:+ "_")).
Proof.
  intros H. split; [|split; intros; now rewrite form_prefix_with_separator].
  rewrite flatten_None. unfold plainly_named in H.
  apply andb_true_iff in H as [ND Hl]. apply bool_decide_eq_true in ND.
  rewrite forallb_forall in Hl.
  destruct (flatten_plain_siblings "" tree) as (r & E & N & _); [| |exact ND|eauto].
  - apply Forall_forall. intros n Hin. apply flat_plain_all; [|reflexivity|now right].
    apply Hl. now apply list_elem_of_In.
  - apply Forall_forall. intros n Hin.
    specialize (Hl n (proj1 (list_elem_of_In _ _) Hin)).
    rewrite plainly_named_node_eq in Hl.
    apply andb_true_iff in Hl as [Hl _]. apply andb_true_iff in Hl as [Hl _].
    exact Hl.
Qed.

(** Each of the other conditions on the names is needed: without
    it, a tree with names unique among siblings has two equal flat
    names. *)
Example plain_names_needed :
  (sibling_unique option_named_tree = true
   ∧ plainly_named option_named_tree = false
   ∧ (let! r := flatten option_named_tree None in Ok (names r))
     = Ok ["P"; "P_parameters_option_O_c"; "P_parameters_option_O_c"])
  ∧ (sibling_unique comparable_options_tree = true
     ∧ plainly_named comparable_options_tree = false
     ∧ (let! r := flatten comparable_options_tree None in Ok (names r))
       = Ok ["P"; "P_parameters_option_a_b_c"; "P_parameters_option_a_b_c"])
  ∧ (sibling_unique untyped_nested_tree = true
     ∧ plainly_named untyped_nested_tree = false
     ∧ (let! r := flatten untyped_nested_tree None in Ok (names r))
       = Ok ["P"; "Q"; "Q"]).
Proof. repeat split; vm_compute; reflexivity. Qed.

Lemma flatten_names_distinct_witness :
  plainly_named named_tree = true
  ∧ (∃ r, flatten named_tree None = Ok r ∧ NoDup (names r))
  ∧ (let! r := flatten named_tree None in Ok (names r))
    = Ok [ "simulation_model";
           "simulation_model_parameters_option_generic_2d_conduction_speed";
           "simulation_model_parameters_option_generic_2d_tau";
           "simulation_model_parameters_option_kuramoto_omega";
           "integrator";
           "integrator_parameters_simulation_length";
           "simulation_length" ].
Proof.
  split; [vm_compute; reflexivity|]. split; [|vm_compute; reflexivity].
  apply (flatten_names_distinct named_tree). vm_compute. reflexivity.
Defined.
